(** * SWSC-GameServer: port allocator, process registry, configuration
      pipeline and content fetcher, embedded from the Go sources.

    Go maps are stdpp [gmap]s, Go [int] is [Z] with the 64-bit wrap-around
    written out, Go strings are [string]s (byte sequences), and the token
    streams of [encoding/xml] are lists of [Token]. *)

From Stdlib Require Import ZArith List String Ascii Lia Bool DecimalString.
From stdpp Require Import gmap strings list fin_maps.

Local Open Scope Z_scope.

(** ** Go's [int] (64 bits, two's complement) *)

Module GoInt.

Definition int_min : Z := - 2 ^ 63.
Definition int_max : Z := 2 ^ 63 - 1.

Definition in_range (z : Z) : Prop := int_min <= z <= int_max.

(** Reduction of a mathematical integer to the value an [int] holds. *)
Definition wrap (z : Z) : Z := (z + 2 ^ 63) mod 2 ^ 64 - 2 ^ 63.

Definition add (a b : Z) : Z := wrap (a + b).
Definition sub (a b : Z) : Z := wrap (a - b).

End GoInt.

(** ** config.go: the port range read by [LoadConfig] *)

Record Config := mkConfig { MinPort : Z; MaxPort : Z }.

(** The content settings [LoadConfig] reads. *)
Record Workshop := mkWorkshop {
  WorkshopPlaylistsInstallDir : string;
  WorkshopModsInstallDir : string;
  SteamCmdPath : string;
  GameAppID : string
}.

(** [LoadConfig] ends the program ([log.Fatalf]) unless the range passes
    these two tests (config.go, step 3). *)
Definition LoadConfig_accepts (cfg : Config) : bool :=
  negb (MinPort cfg >? MaxPort cfg)
  && negb ((MinPort cfg <? 1024) || (MaxPort cfg >? 65535)).

(** The ports of the inclusive range [[MinPort, MaxPort]]. *)
Definition portsInRange (cfg : Config) : list Z :=
  seqZ (MinPort cfg) (MaxPort cfg - MinPort cfg + 1).

(** ** port_manager.go *)

Module PortManager.

(** [usedPorts map[int]bool]: a missing key reads as [false]. *)
Definition isUsed (usedPorts : gmap Z bool) (port : Z) : bool :=
  default false (usedPorts !! port).

Definition initializePortManager : gmap Z bool := ∅.

(** Result of [findAvailablePort]: [(port, nil)] or [(-1, err)]. *)
Inductive FindResult :=
| Found (port : Z)
| NoPortAvailable.

(** The loop [for port := minPort; port <= maxPort; port++]. [None] is
    the loop still running when the fuel is spent. *)
Fixpoint findLoop (fuel : nat) (port maxPort : Z) (usedPorts : gmap Z bool)
  : option FindResult :=
  match fuel with
  | O => None
  | S fuel' =>
      if port <=? maxPort then
        if negb (isUsed usedPorts port) then Some (Found port)
        else findLoop fuel' (GoInt.add port 1) maxPort usedPorts
      else Some NoPortAvailable
  end.

(** One run of the body per port of the range, and the last test. *)
Definition findAvailablePort (minPort maxPort : Z) (usedPorts : gmap Z bool)
  : option FindResult :=
  findLoop (Z.to_nat (maxPort - minPort + 2)) minPort maxPort usedPorts.

(** [assignPort]: the returned flag and the map afterwards. *)
Definition assignPort (cfg : Config) (port : Z) (usedPorts : gmap Z bool)
  : bool * gmap Z bool :=
  if (port <? MinPort cfg) || (port >? MaxPort cfg) then (false, usedPorts)
  else if isUsed usedPorts port then (false, usedPorts)
  else (true, <[port := true]> usedPorts).

Definition releasePort (cfg : Config) (port : Z) (usedPorts : gmap Z bool)
  : gmap Z bool :=
  if (port <? MinPort cfg) || (port >? MaxPort cfg) then usedPorts
  else if negb (isUsed usedPorts port) then usedPorts
  else delete port usedPorts.

End PortManager.

(** ** The port claim of the start workflow, under interleaving

    [handleStartServerProcess] claims a port in two critical sections of
    [usedPortsMutex]: [findAvailablePort] (step 2) and, after the
    configuration has been rewritten and saved, [assignPort] (step 8).
    Each section is one atomic step of a caller; a schedule names the
    caller that runs its next section. *)

Module ClaimRace.
Import PortManager.

Inductive Caller :=
| Ready                 (* findAvailablePort not yet called *)
| Holding (port : Z)    (* findAvailablePort returned port *)
| Claimed (port : Z)    (* assignPort returned true *)
| Conflict (port : Z)   (* assignPort returned false *)
| Exhausted.            (* findAvailablePort returned an error *)

Record Sys := mkSys { usedPorts : gmap Z bool; callers : list Caller }.

Definition stepCaller (cfg : Config) (i : nat) (s : Sys) : option Sys :=
  match callers s !! i with
  | Some Ready =>
      match findAvailablePort (MinPort cfg) (MaxPort cfg) (usedPorts s) with
      | Some (Found p) =>
          Some (mkSys (usedPorts s) (<[i := Holding p]> (callers s)))
      | Some NoPortAvailable =>
          Some (mkSys (usedPorts s) (<[i := Exhausted]> (callers s)))
      | None => None
      end
  | Some (Holding p) =>
      let '(ok, used') := assignPort cfg p (usedPorts s) in
      Some (mkSys used'
              (<[i := if ok then Claimed p else Conflict p]> (callers s)))
  | _ => None
  end.

Fixpoint run (cfg : Config) (schedule : list nat) (s : Sys) : option Sys :=
  match schedule with
  | [] => Some s
  | i :: rest =>
      match stepCaller cfg i s with
      | Some s' => run cfg rest s'
      | None => None
      end
  end.

(** [n] callers that have not started, over the given port set. *)
Definition start (usedPorts : gmap Z bool) (n : nat) : Sys :=
  mkSys usedPorts (replicate n Ready).

Definition isDone (c : Caller) : bool :=
  match c with
  | Ready | Holding _ => false
  | _ => true
  end.

Definition finished (s : Sys) : bool := forallb isDone (callers s).

Definition isClaimed (c : Caller) : bool :=
  match c with
  | Claimed _ => true
  | _ => false
  end.


(** The ports held by the callers whose claim succeeded. *)
Definition claimedOf (c : Caller) : option Z :=
  match c with
  | Claimed p => Some p
  | _ => None
  end.

Definition claimedPorts (s : Sys) : list Z := omap claimedOf (callers s).

(** C1 as the specification words it, for [n] concurrent claims over
    the port set [used]: in every finished execution all callers have
    claimed, with pairwise-distinct ports. *)
Definition AtomicClaim (cfg : Config) (used : gmap Z bool) (n : nat) : Prop :=
  forall schedule s,
    run cfg schedule (start used n) = Some s -> finished s = true ->
    Forall (fun c => isClaimed c = true) (callers s)
    /\ NoDup (claimedPorts s).

(** The schedule in which caller [i] runs both of its sections before
    caller [i+1] runs its first. *)
Definition oneByOne (n : nat) : list nat :=
  flat_map (fun i => [i; i]) (seq 0 n).

(** The ports [first, first+1, ..., first+n-1]. *)
Fixpoint portsFrom (first : Z) (n : nat) : list Z :=
  match n with
  | O => []
  | S n' => first :: portsFrom (first + 1) n'
  end.

(** What every state of an execution satisfies: the claimed ports are
    pairwise distinct, lie in the range and are marked, and a port that
    was marked at the start stays marked. *)
Definition claimsSound (cfg : Config) (used0 : gmap Z bool) (s : Sys) : Prop :=
  NoDup (claimedPorts s)
  /\ (forall p, p ∈ claimedPorts s ->
        MinPort cfg <= p <= MaxPort cfg
        /\ isUsed (usedPorts s) p = true
        /\ isUsed used0 p = false)
  /\ (forall p, isUsed used0 p = true
                -> isUsed (usedPorts s) p = true).

(** The port set after the first [k] ports of the range were marked. *)
Definition markedUpTo (cfg : Config) (used : gmap Z bool) (k : nat)
  (ports : gmap Z bool) : Prop :=
  forall p, isUsed ports p
            = ((MinPort cfg <=? p) && (p <? MinPort cfg + Z.of_nat k))
              || isUsed used p.

End ClaimRace.

(** ** encoding/xml tokens *)

Module Xml.

Record Name := mkName { Space : string; Local : string }.
Record Attr := mkAttr { AttrName : Name; Value : string }.

Inductive Token :=
| StartElement (name : Name) (attr : list Attr)
| EndElement (name : Name)
| CharData (data : string)
| Comment (data : string)
| ProcInst (target : string) (inst : string)
| Directive (data : string).

(** A document the strict decoder reads to [io.EOF] is a sequence of
    nodes: every start tag is closed by an end tag of the same name. *)
#[warnings="-register-all"]
Inductive Node :=
| Elem (name : Name) (attr : list Attr) (children : list Node)
| NCharData (data : string)
| NComment (data : string)
| NProcInst (target : string) (inst : string)
| NDirective (data : string).

(** The tokens [Decoder.Token] returns for a node; a self-closing tag is
    returned as a start and an end token. *)
Fixpoint tokens (n : Node) : list Token :=
  match n with
  | Elem name attr children =>
      StartElement name attr
        :: (fix all (ns : list Node) : list Token :=
              match ns with
              | [] => []
              | c :: cs => tokens c ++ all cs
              end) children
        ++ [EndElement name]
  | NCharData data => [CharData data]
  | NComment data => [Comment data]
  | NProcInst target inst => [ProcInst target inst]
  | NDirective data => [Directive data]
  end.

Fixpoint tokensOf (ns : list Node) : list Token :=
  match ns with
  | [] => []
  | c :: cs => tokens c ++ tokensOf cs
  end.

(** How a decoder run ends: [io.EOF] or a read error. *)
Inductive DecoderEnd := EOF | TokenError.

Record DecoderRun := mkRun { runTokens : list Token; runEnd : DecoderEnd }.

Definition document (ns : list Node) : DecoderRun := mkRun (tokensOf ns) EOF.

(** The library as the passes use it: [Decode] is the run of
    [xml.NewDecoder(strings.NewReader(s))] read token by token, [Encode] is
    [xml.NewEncoder] with [Indent("", "  ")] fed the tokens and flushed,
    [None] when [EncodeToken] or [Flush] returns an error. *)
Record Codec := mkCodec {
  Decode : string -> DecoderRun;
  Encode : list Token -> option string
}.

End Xml.

(** ** config_manager.go: the port rewrite *)

Module ConfigManager.
Import Xml.

(** [strconv.Itoa]. *)
Definition Itoa (n : Z) : string := NilZero.string_of_int (Z.to_int n).

(** The loop over [se.Attr] of a [server_data] start tag: every attribute
    whose local name is [port] is replaced, the others are kept. *)
Fixpoint updateAttrs (newPortStr : string) (attrs updatedAttrs : list Attr)
  (portAttrFound : bool) : list Attr * bool :=
  match attrs with
  | [] => (updatedAttrs, portAttrFound)
  | attr :: rest =>
      if (Local (AttrName attr) =? "port")%string then
        updateAttrs newPortStr rest
          (updatedAttrs ++ [mkAttr (mkName "" "port") newPortStr]) true
      else
        updateAttrs newPortStr rest (updatedAttrs ++ [attr]) portAttrFound
  end.

Definition isPortAttr (attr : Attr) : bool :=
  (Local (AttrName attr) =? "port")%string.

(** The start tags the port rewrite rebuilds. *)
Definition isServerDataStart (token : Token) : bool :=
  match token with
  | StartElement name _ => (Local name =? "server_data")%string
  | _ => false
  end.

(** The token handed to [encoder.EncodeToken] for one token read. *)
Definition updateToken (newPortStr : string) (token : Token) : Token :=
  match token with
  | StartElement name attr =>
      if (Local name =? "server_data")%string then
        let '(updatedAttrs, portAttrFound) :=
          updateAttrs newPortStr attr [] false in
        if negb portAttrFound then
          StartElement name
            (updatedAttrs ++ [mkAttr (mkName "" "port") newPortStr])
        else StartElement name updatedAttrs
      else token
  | _ => token
  end.

Fixpoint updateLoop (newPortStr : string) (toks : list Token)
  (updatedXml : list Token) : list Token :=
  match toks with
  | [] => updatedXml
  | token :: rest =>
      updateLoop newPortStr rest (updatedXml ++ [updateToken newPortStr token])
  end.

(** [updateXmlPort]: [None] is the error return. *)
Definition updateXmlPort (c : Codec) (xmlString : string) (newPort : Z)
  : option string :=
  let newPortStr := Itoa newPort in
  match runEnd (Decode c xmlString) with
  | TokenError => None
  | EOF => Encode c (updateLoop newPortStr (runTokens (Decode c xmlString)) [])
  end.

(** An attribute after the rewrite. *)
Definition withPort (s : string) (a : Attr) : Attr :=
  if isPortAttr a then mkAttr (mkName "" "port") s else a.

End ConfigManager.

(** ** xml_manager.go: extraction and reinsertion *)

Module XmlManager.
Import Xml.

Definition isDigit (c : ascii) : bool :=
  let n := nat_of_ascii c in (48 <=? n)%nat && (n <=? 57)%nat.

Fixpoint allDigits (s : string) : bool :=
  match s with
  | EmptyString => true
  | String c rest => isDigit c && allDigits rest
  end.

(** [workshopIDRegex.MatchString] for the pattern [^\d+$]: one or more
    ASCII digits and nothing else. *)
Definition workshopIDRegex_MatchString (s : string) : bool :=
  match s with
  | EmptyString => false
  | _ => allDigits s
  end.

Record ExtractState := mkExtract {
  inPlaylists : bool;
  inMods : bool;
  skipElement : bool;
  depth : Z;
  playlistIDs : list string;
  modIDs : list string;
  output : list Token
}.

Definition initialExtract : ExtractState :=
  mkExtract false false false 0 [] [] [].

(** The loop over [se.Attr]: the value of the first attribute with local
    name [path] that the regexp matches, where the loop breaks. *)
Fixpoint findWorkshopID (attrs : list Attr) : option string :=
  match attrs with
  | [] => None
  | attr :: rest =>
      if (Local (AttrName attr) =? "path")%string
         && workshopIDRegex_MatchString (Value attr)
      then Some (Value attr)
      else findWorkshopID rest
  end.

Definition encode (st : ExtractState) (token : Token) : ExtractState :=
  mkExtract (inPlaylists st) (inMods st) (skipElement st) (depth st)
    (playlistIDs st) (modIDs st) (output st ++ [token]).

Definition setFlags (st : ExtractState) (p m : bool) : ExtractState :=
  mkExtract p m (skipElement st) (depth st)
    (playlistIDs st) (modIDs st) (output st).

Definition setSkip (st : ExtractState) (skip : bool) (d : Z) : ExtractState :=
  mkExtract (inPlaylists st) (inMods st) skip d
    (playlistIDs st) (modIDs st) (output st).

Definition recordID (st : ExtractState) (id : string) : ExtractState :=
  if inPlaylists st then
    mkExtract (inPlaylists st) (inMods st) (skipElement st) (depth st)
      (playlistIDs st ++ [id]) (modIDs st) (output st)
  else
    mkExtract (inPlaylists st) (inMods st) (skipElement st) (depth st)
      (playlistIDs st) (modIDs st ++ [id]) (output st).

(** One iteration of the token loop. *)
Definition extractStep (st : ExtractState) (token : Token) : ExtractState :=
  if skipElement st then
    let depth' :=
      match token with
      | StartElement _ _ => depth st + 1
      | EndElement _ => depth st - 1
      | _ => depth st
      end in
    if depth' =? 0 then setSkip st false depth' else setSkip st true depth'
  else
    match token with
    | StartElement name attr =>
        let currentTagName := Local name in
        if (currentTagName =? "playlists")%string then
          encode (setFlags st true false) token
        else if (currentTagName =? "mods")%string then
          encode (setFlags st false true) token
        else if (inPlaylists st || inMods st)
                && (currentTagName =? "path")%string then
          match findWorkshopID attr with
          | Some id => setSkip (recordID st id) true 1
          | None => encode st token
          end
        else encode st token
    | EndElement name =>
        let currentTagName := Local name in
        let st' := encode st token in
        if (currentTagName =? "playlists")%string then
          setFlags st' false (inMods st')
        else if (currentTagName =? "mods")%string then
          setFlags st' (inPlaylists st') false
        else st'
    | _ => encode st token
    end.

Definition extractLoop (toks : list Token) (st : ExtractState)
  : ExtractState :=
  fold_left extractStep toks st.

(** [extractWorkshopIDsAndModifyXML]: [None] is the error return. *)
Definition extractWorkshopIDsAndModifyXML (c : Codec) (xmlString : string)
  : option (list string * list string * string) :=
  match runEnd (Decode c xmlString) with
  | TokenError => None
  | EOF =>
      let st := extractLoop (runTokens (Decode c xmlString)) initialExtract in
      match Encode c (output st) with
      | Some modifiedXmlString =>
          Some (playlistIDs st, modIDs st, modifiedXmlString)
      | None => None
      end
  end.

(** The host's [filepath.Join], which the mod path is built with. *)
Record Filepath := mkFilepath {
  Join : list string -> string;
  Dir : string -> string
}.

(** [strings.ReplaceAll(s, "/", "\\")]. *)
Fixpoint slashToBackslash (s : string) : string :=
  match s with
  | EmptyString => EmptyString
  | String c rest =>
      String (if Ascii.eqb c "/"%char then "092"%char else c)
        (slashToBackslash rest)
  end.

Definition playlistPath (id : string) : string :=
  ("/rom/data/workshop_missions/" ++ id)%string.

Definition modPathFinal (fp : Filepath) (configDirAbsPath id : string)
  : string :=
  slashToBackslash
    (Join fp [configDirAbsPath; "rom"; "data"; "workshop_mods"; id]).

(** The start token [pathElement] and [pathElement.End()]. *)
Definition pathElement (value : string) : list Token :=
  [StartElement (mkName "" "path") [mkAttr (mkName "" "path") value];
   EndElement (mkName "" "path")].

(** The inner loops [for _, id := range successful...IDs]. *)
Fixpoint encodePaths (template : string -> string) (ids : list string)
  (output : list Token) : list Token :=
  match ids with
  | [] => output
  | id :: rest => encodePaths template rest (output ++ pathElement (template id))
  end.

(** One iteration of the token loop of [addWorkshopPathsToXML]. *)
Definition addStep (fp : Filepath)
  (successfulPlaylistIDs successfulModIDs : list string)
  (configDirAbsPath : string) (output : list Token) (token : Token)
  : list Token :=
  let output' :=
    match token with
    | EndElement name =>
        if (Local name =? "playlists")%string
           && (0 <? Z.of_nat (length successfulPlaylistIDs)) then
          encodePaths playlistPath successfulPlaylistIDs output
        else if (Local name =? "mods")%string
                && (0 <? Z.of_nat (length successfulModIDs)) then
          encodePaths (modPathFinal fp configDirAbsPath) successfulModIDs
            output
        else output
    | _ => output
    end in
  output' ++ [token].

Definition addLoop (fp : Filepath)
  (successfulPlaylistIDs successfulModIDs : list string)
  (configDirAbsPath : string) (toks : list Token) (output : list Token)
  : list Token :=
  fold_left
    (addStep fp successfulPlaylistIDs successfulModIDs configDirAbsPath)
    toks output.

(** The elements the loop encodes before a token: one [path] element
    per successful id before the end tag of the container of its kind. *)
Definition synthesized (fp : Filepath)
  (successfulPlaylistIDs successfulModIDs : list string)
  (configDirAbsPath : string) (token : Token) : list Token :=
  match token with
  | EndElement name =>
      if (Local name =? "playlists")%string then
        flat_map (fun id => pathElement (playlistPath id))
          successfulPlaylistIDs
      else if (Local name =? "mods")%string then
        flat_map (fun id => pathElement (modPathFinal fp configDirAbsPath id))
          successfulModIDs
      else []
  | _ => []
  end.

(** [addWorkshopPathsToXML]: [None] is the error return. *)
Definition addWorkshopPathsToXML (c : Codec) (fp : Filepath)
  (xmlString : string) (successfulPlaylistIDs successfulModIDs : list string)
  (configDirAbsPath : string) : option string :=
  match runEnd (Decode c xmlString) with
  | TokenError => None
  | EOF =>
      Encode c
        (addLoop fp successfulPlaylistIDs successfulModIDs configDirAbsPath
           (runTokens (Decode c xmlString)) [])
  end.

End XmlManager.

(** ** A model of the library's decoder and encoder on plain documents

    The passes only see the library through [Codec]. For documents made
    of elements, attributes and text, with no namespaces, entities,
    comments, processing instructions or directives, the functions below
    follow [Decoder.Token] (strict mode) and [Encoder.EncodeToken] after
    [Indent("", "  ")]. A document outside that fragment is refused. *)

Module GoXml.
Import Xml.

Definition dquote : ascii := "034"%char.
Definition newline : ascii := "010"%char.

Definition isNameByte (c : ascii) : bool :=
  let n := nat_of_ascii c in
  ((65 <=? n) && (n <=? 90) || (97 <=? n) && (n <=? 122)
   || (48 <=? n) && (n <=? 57)
   || (n =? 95) || (n =? 45) || (n =? 46))%nat.

Definition isSpaceByte (c : ascii) : bool :=
  let n := nat_of_ascii c in
  ((n =? 32) || (n =? 9) || (n =? 10) || (n =? 13))%nat.

Fixpoint span (p : ascii -> bool) (s : string) : string * string :=
  match s with
  | EmptyString => (EmptyString, EmptyString)
  | String c rest =>
      if p c then let '(a, b) := span p rest in (String c a, b)
      else (EmptyString, s)
  end.

(** The text before the first [q], and the text after it. *)
Fixpoint untilByte (q : ascii) (s : string) : option (string * string) :=
  match s with
  | EmptyString => None
  | String c rest =>
      if Ascii.eqb c q then Some (EmptyString, rest)
      else match untilByte q rest with
           | Some (a, b) => Some (String c a, b)
           | None => None
           end
  end.

Fixpoint hasByte (q : ascii) (s : string) : bool :=
  match s with
  | EmptyString => false
  | String c rest => Ascii.eqb c q || hasByte q rest
  end.

(** What follows a tag name: attributes, then [>] or [/>]. The result is
    the attributes, whether the tag closes itself, and the rest. *)
Fixpoint readAttrs (fuel : nat) (s : string)
  : option (list Attr * bool * string) :=
  match fuel with
  | O => None
  | S fuel' =>
      let '(_, s1) := span isSpaceByte s in
      match s1 with
      | String ">" rest => Some ([], false, rest)
      | String "/" (String ">" rest) => Some ([], true, rest)
      | _ =>
          let '(name, s2) := span isNameByte s1 in
          match name, s2 with
          | String _ _, String "=" (String q s3) =>
              if Ascii.eqb q dquote || Ascii.eqb q "'"%char then
                match untilByte q s3 with
                | Some (value, s4) =>
                    if hasByte "&"%char value || hasByte "<"%char value
                    then None
                    else
                      match readAttrs fuel' s4 with
                      | Some (attrs, selfClose, rest) =>
                          Some (mkAttr (mkName "" name) value :: attrs,
                                selfClose, rest)
                      | None => None
                      end
                | None => None
                end
              else None
          | _, _ => None
          end
      end
  end.

(** The token loop. [stack] holds the names of the open elements;
    [None] is a document outside the fragment. *)
Fixpoint decodeLoop (fuel : nat) (s : string) (stack : list string)
  (read : list Token) : option DecoderRun :=
  match fuel with
  | O => None
  | S fuel' =>
      match s with
      | EmptyString =>
          match stack with
          | [] => Some (mkRun read EOF)
          | _ :: _ => Some (mkRun read TokenError)
          end
      | String "<" (String "/" rest) =>
          let '(name, s1) := span isNameByte rest in
          let '(_, s2) := span isSpaceByte s1 in
          match name, s2, stack with
          | String _ _, String ">" s3, top :: stack' =>
              if (top =? name)%string then
                decodeLoop fuel' s3 stack'
                  (read ++ [EndElement (mkName "" name)])
              else Some (mkRun read TokenError)
          | String _ _, String ">" _, [] => Some (mkRun read TokenError)
          | _, _, _ => None
          end
      | String "<" rest =>
          let '(name, s1) := span isNameByte rest in
          match name with
          | EmptyString => None
          | String _ _ =>
              match readAttrs (String.length s1 + 1) s1 with
              | Some (attrs, true, s2) =>
                  decodeLoop fuel' s2 stack
                    (read ++ [StartElement (mkName "" name) attrs;
                              EndElement (mkName "" name)])
              | Some (attrs, false, s2) =>
                  decodeLoop fuel' s2 (name :: stack)
                    (read ++ [StartElement (mkName "" name) attrs])
              | None => None
              end
          end
      | String _ _ =>
          let '(text, s1) := span (fun c => negb (Ascii.eqb c "<"%char)) s in
          if hasByte "&"%char text then None
          else decodeLoop fuel' s1 stack (read ++ [CharData text])
      end
  end.

Definition decode (s : string) : option DecoderRun :=
  decodeLoop (String.length s + 1) s [] [].

(** The printer of the encoder. *)
Record Printer := mkPrinter {
  written : string;
  pdepth : nat;
  indentedIn : bool;
  putNewline : bool;
  tags : list Name
}.

Fixpoint indentation (n : nat) : string :=
  match n with
  | O => EmptyString
  | S n' => ("  " ++ indentation n')%string
  end.

(** [printer.writeIndent(depthDelta)] with an empty prefix and the
    two-space indent. *)
Definition writeIndent (closing : bool) (p : Printer) : Printer :=
  let d := if closing then Nat.pred (pdepth p) else pdepth p in
  if closing && indentedIn p then
    mkPrinter (written p) d false (putNewline p) (tags p)
  else
    let nl := if putNewline p then String newline EmptyString
              else EmptyString in
    mkPrinter (written p ++ nl ++ indentation d)%string
      (if closing then d else S d)
      (if closing then false else true)
      true (tags p).

Definition put (s : string) (p : Printer) : Printer :=
  mkPrinter (written p ++ s)%string (pdepth p) (indentedIn p)
    (putNewline p) (tags p).

(** [escapeText]: the bytes that are written as character references. *)
Fixpoint escapeText (escapeNewline : bool) (s : string) : string :=
  match s with
  | EmptyString => EmptyString
  | String c rest =>
      let n := nat_of_ascii c in
      let e :=
        if (n =? 34)%nat then "&#34;"
        else if (n =? 39)%nat then "&#39;"
        else if (n =? 38)%nat then "&amp;"
        else if (n =? 60)%nat then "&lt;"
        else if (n =? 62)%nat then "&gt;"
        else if (n =? 9)%nat then "&#x9;"
        else if (n =? 10)%nat && escapeNewline then "&#xA;"
        else if (n =? 13)%nat then "&#xD;"
        else String c EmptyString in
      (e ++ escapeText escapeNewline rest)%string
  end.

Fixpoint writeAttrs (attrs : list Attr) (p : Printer) : option Printer :=
  match attrs with
  | [] => Some p
  | a :: rest =>
      match Space (AttrName a), Local (AttrName a) with
      | EmptyString, String _ _ =>
          writeAttrs rest
            (put (" " ++ Local (AttrName a) ++ "="
                  ++ String dquote (escapeText true (Value a))
                  ++ String dquote EmptyString)%string p)
      | _, _ => None
      end
  end.

(** [EncodeToken]: the outer [None] is a token outside the fragment, the
    inner [None] an error return. *)
Definition encodeToken (t : Token) (p : Printer) : option (option Printer) :=
  match t with
  | StartElement name attr =>
      match Space name, Local name with
      | EmptyString, String _ _ =>
          let p1 := writeIndent false
                      (mkPrinter (written p) (pdepth p) (indentedIn p)
                         (putNewline p) (name :: tags p)) in
          match writeAttrs attr (put ("<" ++ Local name)%string p1) with
          | Some p2 => Some (Some (put ">" p2))
          | None => None
          end
      | EmptyString, EmptyString => Some None
      | _, _ => None
      end
  | EndElement name =>
      match Space name, Local name, tags p with
      | EmptyString, String _ _, top :: tags' =>
          if (Local top =? Local name)%string
             && (Space top =? Space name)%string then
            let p1 := writeIndent true
                        (mkPrinter (written p) (pdepth p) (indentedIn p)
                           (putNewline p) tags') in
            Some (Some (put ("</" ++ Local name ++ ">")%string p1))
          else Some None
      | EmptyString, _, _ => Some None
      | _, _, _ => None
      end
  | CharData data => Some (Some (put (escapeText false data) p))
  | _ => None
  end.

Fixpoint encodeTokens (toks : list Token) (p : Printer)
  : option (option Printer) :=
  match toks with
  | [] => Some (Some p)
  | t :: rest =>
      match encodeToken t p with
      | Some (Some p') => encodeTokens rest p'
      | other => other
      end
  end.

Definition encode (toks : list Token) : option (option string) :=
  match encodeTokens toks (mkPrinter EmptyString 0 false false []) with
  | Some (Some p) => Some (Some (written p))
  | Some None => Some None
  | None => None
  end.

(** The codec of the fragment; a document or token stream outside the
    fragment is reported as an error. *)
Definition codec : Codec :=
  mkCodec
    (fun s => match decode s with
              | Some r => r
              | None => mkRun [] TokenError
              end)
    (fun toks => match encode toks with
                 | Some r => r
                 | None => None
                 end).

End GoXml.

(** ** messages.go: payloads exchanged with the transport *)

Module Messages.

Record StartServerPayload := mkStartPayload {
  StartName : string;
  StartConfig : string
}.

Record StopServerPayload := mkStopPayload {
  StopName : string;
  Confirmed : bool
}.

Record SyncStatusPayload := mkSyncStatus {
  RunningServers : list string;
  MaxServers : Z
}.

(** The texts of the [Message] field, by the [fmt.Sprintf] call that
    builds them. *)
Inductive Text :=
| TextNoFreePort
| TextPortUpdateFailed
| TextExtractionFailed
| TextPathResolutionFailed
| TextReinsertionFailed
| TextSaveFailed
| TextPortConflict (port : Z)
| TextSpawnFailed
| TextStarted (name : string) (pid : Z) (failed : nat)
| TextPlayersPresent (players : Z)
| TextNotRunning (name : string)
| TextStoppedConfigUnreadable (name : string)
| TextStopped (name : string)
| TextRestarted (name : string) (pid : Z)
| TextRestartFailed (name : string).

Record ResponsePayload := mkResponse {
  Success : bool;
  Message : Text;
  RespConfig : string;
  AssignedPort : Z;
  FailedItemIDs : list string;
  NeedsConfirmation : bool;
  Players : Z
}.

Inductive ServerEvent :=
| ServerCrashDetected (serverName : string) (pid : Z) (error : string)
| ServerRestartResult (serverName : string) (success : bool) (message : Text).

(** [sendResponse]: the payload it marshals. The variadic [needsConfirm]
    is passed either not at all or as a [bool] and an [int]. *)
Definition sendResponse (success : bool) (message : Text)
  (configData : string) (needsConfirm : option (bool * Z))
  : ResponsePayload :=
  match needsConfirm with
  | Some (needs, players) =>
      mkResponse success message configData 0 [] needs players
  | None => mkResponse success message configData 0 [] false 0
  end.

(** [sendStartSuccessResponse]: the payload it marshals. *)
Definition sendStartSuccessResponse (message : Text) (assignedPort : Z)
  (failedItemIDs : list string) : ResponsePayload :=
  mkResponse true message "" assignedPort failedItemIDs false 0.

(** The computation of [maxServers] in [sendSyncStatus] and the payload
    of the [syncStatus] message. *)
Definition sendSyncStatus (cfg : Config) (runningServers : list string)
  : SyncStatusPayload :=
  let maxServers :=
    if MaxPort cfg >=? MinPort cfg then GoInt.sub (MaxPort cfg) (MinPort cfg)
    else 0 in
  mkSyncStatus runningServers maxServers.

End Messages.

(** ** steamcmd_manager.go: the content fetcher *)

Module SteamCmd.
Import XmlManager.

Inductive StatResult := StatOk | StatNotExist | StatOtherError.
Inductive RemoveResult := RemoveOk | RemoveNotExist | RemoveOtherError.

(** One run of the external tool, as [DownloadWorkshopItems] sees it. *)
Inductive ToolRun :=
| PipeError
| StartError
| Ran (stdoutLines : list string) (readErr waitErr : bool).

(** The host: a file-system state [W] and the calls made on it.
    [copyDir] walks and copies a directory tree; [true] is an error
    return. [FindSuccessID line] is
    [steamCmdSuccessRegex.FindStringSubmatch(line)] when it has a
    captured id. [rangeOrder m] is the order in which one [range] over
    the map [m] visits its keys. *)
Record Host (W : Type) := mkHost {
  Stat : W -> string -> StatResult;
  RemoveAll : W -> string -> W * RemoveResult;
  copyDir : W -> string -> string -> W * bool;
  runSteamCmd : W -> string -> list string -> W * ToolRun;
  FindSuccessID : string -> option string;
  rangeOrder : gmap string bool -> list string
}.

Arguments Stat {W}. Arguments RemoveAll {W}. Arguments copyDir {W}.
Arguments runSteamCmd {W}. Arguments FindSuccessID {W}.
Arguments rangeOrder {W}.

(** The pattern [Success. Downloaded item (\d+)] on a line of ASCII
    text: the digits captured by the leftmost match. *)
Fixpoint stripPrefix (prefix s : string) : option string :=
  match prefix, s with
  | EmptyString, _ => Some s
  | String a prefix', String b s' =>
      if Ascii.eqb a b then stripPrefix prefix' s' else None
  | String _ _, EmptyString => None
  end.

Fixpoint takeDigits (s : string) : string :=
  match s with
  | String c rest => if isDigit c then String c (takeDigits rest)
                     else EmptyString
  | EmptyString => EmptyString
  end.

Definition matchHere (s : string) : option string :=
  match stripPrefix "Success" s with
  | Some (String c rest) =>
      if Ascii.eqb c "010"%char then None
      else match stripPrefix " Downloaded item " rest with
           | Some tail =>
               match takeDigits tail with
               | EmptyString => None
               | digits => Some digits
               end
           | None => None
           end
  | _ => None
  end.

Fixpoint findSuccessID (line : string) : option string :=
  match matchHere line with
  | Some id => Some id
  | None =>
      match line with
      | EmptyString => None
      | String _ rest => findSuccessID rest
      end
  end.

Definition lookupBool (m : gmap string bool) (k : string) : bool :=
  default false (m !! k).

Definition inList (l : list string) (id : string) : bool :=
  existsb (String.eqb id) l.

Section Fetch.
Context {W : Type} (host : Host W) (fp : Filepath).

(** The two loops that build [args] and [allItems]. *)
Definition downloadArgs (gameAppID : string) (ids : list string)
  (args : list string) : list string :=
  fold_left
    (fun args id => args ++ ["+workshop_download_item"; gameAppID; id;
                             "validate"])
    ids args.

Definition markItems (kind : string) (ids : list string)
  (allItems : gmap string string) : gmap string string :=
  fold_left (fun m id => <[id := kind]> m) ids allItems.

(** The stdout goroutine: the first marker of an id records it. *)
Definition scanLine (downloadSuccessMap : gmap string bool) (line : string)
  : gmap string bool :=
  match FindSuccessID host line with
  | Some successfulID =>
      match downloadSuccessMap !! successfulID with
      | Some _ => downloadSuccessMap
      | None => <[successfulID := true]> downloadSuccessMap
      end
  | None => downloadSuccessMap
  end.

Definition scanStdout (lines : list string) : gmap string bool :=
  fold_left scanLine lines ∅.

(** Source and target of one item, by its type. *)
Definition sourcePath (steamCmdContentBase itemType id : string) : string :=
  if (itemType =? "playlist")%string
  then Join fp [steamCmdContentBase; id; "playlist"]
  else Join fp [steamCmdContentBase; id].

Definition targetPath (playlistDir modDir itemType id : string) : string :=
  if (itemType =? "playlist")%string then Join fp [playlistDir; id]
  else Join fp [modDir; id].

(** Removal of the target and copy of the source for one item whose
    type is [playlist] or [mod]: the file system afterwards, and whether
    the item reached [finalSuccessMap[id] = true]. *)
Definition materialize (steamCmdContentBase playlistDir modDir : string)
  (w : W) (itemType id : string) : W * bool :=
  let source := sourcePath steamCmdContentBase itemType id in
  let target := targetPath playlistDir modDir itemType id in
  match Stat host w source with
  | StatNotExist => (w, false)
  | StatOtherError => (w, false)
  | StatOk =>
      let '(w1, removeErr) := RemoveAll host w target in
      match removeErr with
      | RemoveOtherError => (w1, false)
      | _ =>
          let '(w2, copyErr) := copyDir host w1 source target in
          if copyErr then (w2, false) else (w2, true)
      end
  end.

(** One iteration of [for id, downloaded := range downloadSuccessMap]. *)
Definition materializeStep (steamCmdContentBase playlistDir modDir : string)
  (downloadSuccessMap : gmap string bool) (allItems : gmap string string)
  (acc : W * gmap string bool) (id : string) : W * gmap string bool :=
  let '(w, finalSuccessMap) := acc in
  if negb (lookupBool downloadSuccessMap id) then acc
  else
    match allItems !! id with
    | None => acc
    | Some itemType =>
        if (itemType =? "playlist")%string || (itemType =? "mod")%string then
          let '(w', ok) :=
            materialize steamCmdContentBase playlistDir modDir w itemType id in
          if ok then (w', <[id := true]> finalSuccessMap)
          else (w', finalSuccessMap)
        else acc
    end.

(** One iteration of [for id, success := range finalSuccessMap]. *)
Definition collectStep (finalSuccessMap : gmap string bool)
  (allItems : gmap string string) (acc : list string * list string)
  (id : string) : list string * list string :=
  let '(successfulPlaylistIDs, successfulModIDs) := acc in
  if lookupBool finalSuccessMap id then
    let itemType := default EmptyString (allItems !! id) in
    if (itemType =? "playlist")%string
    then (successfulPlaylistIDs ++ [id], successfulModIDs)
    else if (itemType =? "mod")%string
    then (successfulPlaylistIDs, successfulModIDs ++ [id])
    else acc
  else acc.

(** The arguments of the single batch invocation, and [allItems]. *)
Definition steamCmdArgs (gameAppID : string) (playlistIDs modIDs : list string)
  : list string :=
  downloadArgs gameAppID modIDs
    (downloadArgs gameAppID playlistIDs ["+login"; "anonymous"])
  ++ ["+quit"].

Definition buildAllItems (playlistIDs modIDs : list string)
  : gmap string string :=
  markItems "mod" modIDs (markItems "playlist" playlistIDs ∅).

Definition contentBase (gameAppID steamCmdPath : string) : string :=
  Join fp [Dir fp steamCmdPath; "steamapps"; "workshop"; "content";
           gameAppID].

(** [DownloadWorkshopItems]: the file system afterwards, the two lists
    and whether [err] is non-nil. *)
Definition DownloadWorkshopItems (playlistIDs modIDs : list string)
  (playlistDir modDir gameAppID steamCmdPath : string) (w : W)
  : W * (list string * list string * bool) :=
  if (length playlistIDs =? 0)%nat && (length modIDs =? 0)%nat
  then (w, ([], [], false))
  else
    let args := steamCmdArgs gameAppID playlistIDs modIDs in
    let allItems := buildAllItems playlistIDs modIDs in
    match runSteamCmd host w steamCmdPath args with
    | (w0, PipeError) => (w0, ([], [], true))
    | (w0, StartError) => (w0, ([], [], true))
    | (w0, Ran stdoutLines readErr waitErr) =>
        if readErr then (w0, ([], [], true))
        else
          let downloadSuccessMap := scanStdout stdoutLines in
          let steamCmdContentBase := contentBase gameAppID steamCmdPath in
          let '(w1, finalSuccessMap) :=
            fold_left
              (materializeStep steamCmdContentBase playlistDir modDir
                 downloadSuccessMap allItems)
              (rangeOrder host downloadSuccessMap) (w0, ∅) in
          let '(successfulPlaylistIDs, successfulModIDs) :=
            fold_left (collectStep finalSuccessMap allItems)
              (rangeOrder host finalSuccessMap) ([], []) in
          (w1, (successfulPlaylistIDs, successfulModIDs, false))
    end.

(** The file system when the loop over the marked ids has handled the
    ids [before]. *)
Definition worldAfter (steamCmdContentBase playlistDir modDir : string)
  (downloadSuccessMap : gmap string bool) (allItems : gmap string string)
  (before : list string) (w : W) : W :=
  fst (fold_left
         (materializeStep steamCmdContentBase playlistDir modDir
            downloadSuccessMap allItems)
         before (w, ∅)).

(** The loop reaches the target of an id and copies it without error. *)
Definition handledOK (base playlistDir modDir : string)
  (marked : gmap string bool) (allItems : gmap string string)
  (w : W) (id : string) : Prop :=
  lookupBool marked id = true
  /\ exists itemType,
       allItems !! id = Some itemType
       /\ (itemType =? "playlist")%string || (itemType =? "mod")%string = true
       /\ snd (materialize base playlistDir modDir w itemType id)
          = true.

End Fetch.

(** A map that records [true] only. *)
Definition allTrue (m : gmap string bool) : Prop :=
  forall id b, m !! id = Some b -> b = true.


End SteamCmd.

(** ** process_manager.go *)

Module ProcessManager.
Import Xml XmlManager Messages.

(** [*os.Process]: the handle of a started process. *)
Record Process := mkProcess { Pid : Z }.

Record RunningProcessInfo := mkInfo {
  InfoProcess : Process;
  Port : Z
}.

(** The two guarded globals: [runningProcs] and [usedPorts]. *)
Record State := mkState {
  runningProcs : gmap string RunningProcessInfo;
  usedPorts : gmap Z bool
}.

Definition InitializeProcessManager : State :=
  mkState ∅ PortManager.initializePortManager.

(** What a handler does to the outside, in order. *)
Inductive Effect :=
| SendResponse (payload : ResponsePayload)
| SendStatusUpdate (status : string)
| SendServerEvent (event : ServerEvent)
| SaveConfigFile (name : string) (xml : string)
| ReadConfigFile (name : string)
| RemoveConfigDir (name : string)
| Kill (pid : Z)
| Wait (pid : Z)
| GoWaitForProcessExit (name : string) (process : Process) (assignedPort : Z).

Definition configBaseDir : string := "./config".

(** [calculateFailedIDs]. *)
Definition calculateFailedIDs
  (requestedPlaylists requestedMods successfulPlaylists successfulMods
     : list string) : list string :=
  let successMap : gmap string bool :=
    fold_left (fun m id => <[id := true]> m) successfulMods
      (fold_left (fun m id => <[id := true]> m) successfulPlaylists ∅) in
  let keepFailed (failedIDs : list string) (id : string) :=
    if negb (SteamCmd.lookupBool successMap id) then failedIDs ++ [id]
    else failedIDs in
  fold_left keepFailed requestedMods
    (fold_left keepFailed requestedPlaylists []).

(** [stopExistingProcess]. *)
Definition stopExistingProcess (cfg : Config) (name : string) (st : State)
  : State * list Effect :=
  match runningProcs st !! name with
  | Some existingInfo =>
      let assignedPort := Port existingInfo in
      let pid := Pid (InfoProcess existingInfo) in
      let ports' :=
        if negb (assignedPort =? -1)
        then PortManager.releasePort cfg assignedPort (usedPorts st)
        else usedPorts st in
      (mkState (delete name (runningProcs st)) ports', [Kill pid; Wait pid])
  | None => (st, [])
  end.

(** What the start workflow gets from outside the two globals. *)
Record StartEnv := mkStartEnv {
  envCodec : Codec;
  envFilepath : Filepath;
  (** The call of [DownloadWorkshopItems] with the configured
      directories: the two success lists and whether [err] is non-nil. *)
  envDownload : list string -> list string
                -> list string * list string * bool;
  (** [filepath.Abs] of the configuration directory. *)
  envAbs : string -> option string;
  (** [saveConfigFile] returned nil. *)
  envSaved : bool;
  (** [startServerProcess]: the started process, or an error. *)
  envStarted : option Process
}.

Definition failure (message : Text) : Effect :=
  SendResponse (sendResponse false message "" None).

(** Steps 5 and 6 of [handleStartServerProcess]: download, failed list,
    reinsertion. The result is the notifications sent and, unless the
    workflow ends here, [failedItemIDs] and [xmlToSave]. *)
Definition contentStage (env : StartEnv) (name : string)
  (playlistIDs modIDs : list string) (xmlWithIdsRemoved : string)
  : list Effect * option (list string * string) :=
  if (0 <? length playlistIDs)%nat || (0 <? length modIDs)%nat then
    let '(successfulPlaylistIDs, successfulModIDs, steamCmdErr) :=
      envDownload env playlistIDs modIDs in
    let failedItemIDs :=
      calculateFailedIDs playlistIDs modIDs successfulPlaylistIDs
        successfulModIDs in
    let sent :=
      [SendStatusUpdate "workshop_download_start"]
      ++ (if steamCmdErr then [SendStatusUpdate "workshop_download_error"]
          else [])
      ++ [SendStatusUpdate "workshop_download_complete"] in
    match envAbs env (Join (envFilepath env) [configBaseDir; name]) with
    | None => (sent ++ [failure TextPathResolutionFailed], None)
    | Some configDirAbs =>
        match addWorkshopPathsToXML (envCodec env) (envFilepath env)
                xmlWithIdsRemoved successfulPlaylistIDs successfulModIDs
                configDirAbs with
        | None => (sent ++ [failure TextReinsertionFailed], None)
        | Some finalXmlString => (sent, Some (failedItemIDs, finalXmlString))
        end
    end
  else ([], Some ([], xmlWithIdsRemoved)).

(** Steps 7 to 13 of [handleStartServerProcess]. *)
Definition launchStage (cfg : Config) (env : StartEnv) (name : string)
  (assignedPort : Z) (failedItemIDs : list string) (xmlToSave : string)
  (st : State) : State * list Effect :=
  if negb (envSaved env) then (st, [failure TextSaveFailed])
  else
    let '(ok, ports1) :=
      PortManager.assignPort cfg assignedPort (usedPorts st) in
    if negb ok then
      (st, [SaveConfigFile name xmlToSave;
            failure (TextPortConflict assignedPort);
            RemoveConfigDir name])
    else
      let '(st2, stopped) :=
        stopExistingProcess cfg name (mkState (runningProcs st) ports1) in
      match envStarted env with
      | None =>
          (mkState (runningProcs st2)
             (PortManager.releasePort cfg assignedPort (usedPorts st2)),
           [SaveConfigFile name xmlToSave] ++ stopped
           ++ [RemoveConfigDir name; failure TextSpawnFailed])
      | Some process =>
          (mkState
             (<[name := mkInfo process assignedPort]> (runningProcs st2))
             (usedPorts st2),
           [SaveConfigFile name xmlToSave] ++ stopped
           ++ [SendResponse
                 (sendStartSuccessResponse
                    (TextStarted name (Pid process) (length failedItemIDs))
                    assignedPort failedItemIDs);
               GoWaitForProcessExit name process assignedPort])
      end.

(** [handleStartServerProcess] for a payload that decoded to [data]. *)
Definition handleStartServerProcess (cfg : Config) (env : StartEnv)
  (data : StartServerPayload) (st : State) : State * list Effect :=
  match PortManager.findAvailablePort (MinPort cfg) (MaxPort cfg)
          (usedPorts st) with
  | None => (st, [])
  | Some PortManager.NoPortAvailable => (st, [failure TextNoFreePort])
  | Some (PortManager.Found assignedPort) =>
      match ConfigManager.updateXmlPort (envCodec env) (StartConfig data)
              assignedPort with
      | None => (st, [failure TextPortUpdateFailed])
      | Some xmlWithPort =>
          match extractWorkshopIDsAndModifyXML (envCodec env) xmlWithPort with
          | None => (st, [failure TextExtractionFailed])
          | Some (playlistIDs, modIDs, xmlWithIdsRemoved) =>
              match contentStage env (StartName data) playlistIDs modIDs
                      xmlWithIdsRemoved with
              | (sent, None) => (st, sent)
              | (sent, Some (failedItemIDs, xmlToSave)) =>
                  let '(st', done) :=
                    launchStage cfg env (StartName data) assignedPort
                      failedItemIDs xmlToSave st in
                  (st', sent ++ done)
              end
          end
      end
  end.

(** The occupancy count of the confirmation gate. *)
Definition dummyPlayerCount : Z := 0.

(** [handleStopServerProcess] for a payload that decoded to [data];
    [configContent] is what [os.ReadFile] returns for the saved
    document, [None] for an error. *)
Definition handleStopServerProcess (cfg : Config) (data : StopServerPayload)
  (configContent : option string) (st : State) : State * list Effect :=
  if negb (Confirmed data) && (dummyPlayerCount >? 0) then
    (st, [SendResponse
            (sendResponse false (TextPlayersPresent dummyPlayerCount) ""
               (Some (true, dummyPlayerCount)))])
  else
    match runningProcs st !! StopName data with
    | None => (st, [failure (TextNotRunning (StopName data))])
    | Some processInfo =>
        let pid := Pid (InfoProcess processInfo) in
        let assignedPort := Port processInfo in
        let ports' :=
          if negb (assignedPort =? -1)
          then PortManager.releasePort cfg assignedPort (usedPorts st)
          else usedPorts st in
        let response :=
          match configContent with
          | None =>
              sendResponse true (TextStoppedConfigUnreadable (StopName data))
                "" None
          | Some content =>
              sendResponse true (TextStopped (StopName data)) content None
          end in
        (mkState (delete (StopName data) (runningProcs st)) ports',
         [Kill pid; Wait pid; ReadConfigFile (StopName data);
          SendResponse response; RemoveConfigDir (StopName data)])
    end.

(** [waitForProcessExit], first critical section: is the record of the
    exited process still in the registry? *)
Definition exitCheck (name : string) (pid : Z)
  (procs : gmap string RunningProcessInfo)
  : bool * gmap string RunningProcessInfo :=
  match procs !! name with
  | Some processInfo =>
      if Pid (InfoProcess processInfo) =? pid then (true, delete name procs)
      else (false, procs)
  | None => (false, procs)
  end.

(** [waitForProcessExit], the restart after a crash: [started] is the
    result of [startServerProcess]. *)
Definition restart (cfg : Config) (name : string) (pid assignedPort : Z)
  (waitErr : string) (started : option Process) (st : State)
  : State * list Effect :=
  match started with
  | Some newProcess =>
      (mkState
         (<[name := mkInfo newProcess assignedPort]> (runningProcs st))
         (usedPorts st),
       [SendServerEvent (ServerCrashDetected name pid waitErr);
        GoWaitForProcessExit name newProcess assignedPort;
        SendServerEvent
          (ServerRestartResult name true
             (TextRestarted name (Pid newProcess)))])
  | None =>
      (mkState (runningProcs st)
         (PortManager.releasePort cfg assignedPort (usedPorts st)),
       [SendServerEvent (ServerCrashDetected name pid waitErr);
        SendServerEvent
          (ServerRestartResult name false (TextRestartFailed name))])
  end.

(** [waitForProcessExit] from the return of [process.Wait()] on, with no
    other task between its two critical sections. *)
Definition waitForProcessExit (cfg : Config) (name : string)
  (process : Process) (assignedPort : Z) (waitErr : string)
  (started : option Process) (st : State) : State * list Effect :=
  let '(shouldRestart, procs') :=
    exitCheck name (Pid process) (runningProcs st) in
  if shouldRestart then
    restart cfg name (Pid process) assignedPort waitErr started
      (mkState procs' (usedPorts st))
  else (st, []).

(** [getRunningServerNames]: the keys in the order of one [range]. *)
Definition getRunningServerNames (st : State) : list string :=
  (map_to_list (runningProcs st)).*1.

(** The success lists the workflow works with: those of the fetch, or
    none when no id was extracted and the fetch is not run. *)
Definition fetched (env : StartEnv) (playlistIDs modIDs : list string)
  : list string * list string :=
  if (0 <? length playlistIDs)%nat || (0 <? length modIDs)%nat
  then fst (envDownload env playlistIDs modIDs)
  else ([], []).

End ProcessManager.

(** ** The supervisor: handlers and watch tasks over one state *)

Module Supervisor.
Import Messages ProcessManager.

(** A watch task: the arguments of one [go waitForProcessExit(...)]. *)
Record Watch := mkWatch {
  watchName : string;
  watchProcess : Process;
  watchPort : Z
}.

Record Sys := mkSys { state : State; watches : list Watch }.

Definition spawned (effects : list Effect) : list Watch :=
  flat_map
    (fun e => match e with
              | GoWaitForProcessExit name process port =>
                  [mkWatch name process port]
              | _ => []
              end)
    effects.

Inductive Action :=
| Start (env : StartEnv) (data : StartServerPayload)
| Stop (data : StopServerPayload) (configContent : option string)
| Exited (i : nat) (waitErr : string) (started : option Process).

(** A process that has just been started has a pid that no process
    still awaited by one of the watch tasks [ws] has. *)
Definition freshPid (started : option Process) (ws : list Watch) : bool :=
  match started with
  | Some p => forallb (fun w => negb (Pid (watchProcess w) =? Pid p)) ws
  | None => true
  end.

Definition act (cfg : Config) (a : Action) (s : Sys) : option Sys :=
  match a with
  | Start env data =>
      if freshPid (envStarted env) (watches s) then
        let '(st', effects) :=
          handleStartServerProcess cfg env data (state s) in
        Some (mkSys st' (watches s ++ spawned effects))
      else None
  | Stop data configContent =>
      let '(st', _) :=
        handleStopServerProcess cfg data configContent (state s) in
      Some (mkSys st' (watches s))
  | Exited i waitErr started =>
      match watches s !! i with
      | Some w =>
          if freshPid started (delete i (watches s)) then
            let '(st', effects) :=
              waitForProcessExit cfg (watchName w) (watchProcess w)
                (watchPort w) waitErr started (state s) in
            Some (mkSys st' (delete i (watches s) ++ spawned effects))
          else None
      | None => None
      end
  end.

Fixpoint runActions (cfg : Config) (actions : list Action) (s : Sys)
  : option Sys :=
  match actions with
  | [] => Some s
  | a :: rest =>
      match act cfg a s with
      | Some s' => runActions cfg rest s'
      | None => None
      end
  end.

Definition initial : Sys := mkSys InitializeProcessManager [].

Definition reachable (cfg : Config) (s : Sys) : Prop :=
  exists actions, runActions cfg actions initial = Some s.

(** Every watch task agrees with the registry on the port of its
    process: a record under its name that holds a process of its pid
    holds its port. *)
Definition watchesAgree (ws : list Watch)
  (procs : gmap string RunningProcessInfo) : Prop :=
  forall w info,
    In w ws -> procs !! watchName w = Some info ->
    Pid (InfoProcess info) = Pid (watchProcess w) ->
    Port info = watchPort w.

(** What one handler run does to the registry and the watch tasks:
    either it spawns no watch and adds no record, or it started
    [process], registered it under [name] with [port] and spawned the
    watch of exactly that record. *)
Definition registryStep (name : string) (started : option Process)
  (procs procs' : gmap string RunningProcessInfo) (effects : list Effect)
  : Prop :=
  (spawned effects = []
   /\ forall k info, procs' !! k = Some info -> procs !! k = Some info)
  \/ (exists process port,
        started = Some process
        /\ spawned effects = [mkWatch name process port]
        /\ procs' = <[name := mkInfo process port]> procs).

End Supervisor.

(** ** The extraction pass, as the specification words it

    A second account of the extraction, on the nodes of the document and
    independent of the token loop, to compare the loop with. *)

Module ExtractionSpec.
Import Xml.

Inductive Kind := Playlist | Mod.

Definition sameKind (a b : Kind) : bool :=
  match a, b with
  | Playlist, Playlist | Mod, Mod => true
  | _, _ => false
  end.

(** The container an element name designates. *)
Definition containerKind (name : Name) : option Kind :=
  if (Local name =? "playlists")%string then Some Playlist
  else if (Local name =? "mods")%string then Some Mod
  else None.

(** A value made of numeric characters only: at least one byte, each of
    them one of the ten ASCII digits. *)
Definition numeric (s : string) : bool :=
  (0 <? String.length s)%nat
  && forallb
       (fun c => existsb (Ascii.eqb c) (list_ascii_of_string "0123456789"))
       (list_ascii_of_string s).

(** The value of the first [path] attribute that is numeric. *)
Definition numericPath (attr : list Attr) : option string :=
  head (map Value
          (List.filter
             (fun a => (Local (AttrName a) =? "path")%string
                       && numeric (Value a))
             attr)).

(** The content reference an element carries, as C3 states it: any
    element with a numeric [path] attribute. *)
Definition referenceAsStated (name : Name) (attr : list Attr)
  : option string :=
  numericPath attr.

(** The content reference an element carries, amended: the element is
    named [path]. *)
Definition reference (name : Name) (attr : list Attr) : option string :=
  if (Local name =? "path")%string then numericPath attr else None.

(** The nodes kept and the references recorded, in document order, for
    a node that lies inside the container [inside] (or in none), where
    [carries] tells the reference of an element. An element carrying a
    reference inside a container is dropped with all its content. *)
Fixpoint extractNode (carries : Name -> list Attr -> option string)
  (inside : option Kind) (n : Node) : list Node * list (string * Kind) :=
  match n with
  | Elem name attr children =>
      let inside' :=
        match containerKind name with
        | Some k => Some k
        | None => inside
        end in
      let found :=
        match containerKind name, inside with
        | None, Some k => option_map (fun id => (id, k)) (carries name attr)
        | _, _ => None
        end in
      match found with
      | Some r => ([], [r])
      | None =>
          let '(kept, refs) :=
            (fix all (ns : list Node) : list Node * list (string * Kind) :=
               match ns with
               | [] => ([], [])
               | c :: cs =>
                   let '(k1, r1) := extractNode carries inside' c in
                   let '(k2, r2) := all cs in
                   (k1 ++ k2, r1 ++ r2)
               end) children in
          ([Elem name attr kept], refs)
      end
  | _ => ([n], [])
  end.

Fixpoint extractAll (carries : Name -> list Attr -> option string)
  (inside : option Kind) (ns : list Node)
  : list Node * list (string * Kind) :=
  match ns with
  | [] => ([], [])
  | c :: cs =>
      let '(k1, r1) := extractNode carries inside c in
      let '(k2, r2) := extractAll carries inside cs in
      (k1 ++ k2, r1 ++ r2)
  end.

(** A node in which no element carries a reference. *)
Fixpoint noReference (n : Node) : bool :=
  match n with
  | Elem name attr children =>
      match reference name attr with
      | Some _ => false
      | None => forallb noReference children
      end
  | _ => true
  end.

(** The ids recorded for one kind, in encounter order. *)
Definition idsOf (k : Kind) (refs : list (string * Kind)) : list string :=
  map fst (List.filter (fun r => sameKind (snd r) k) refs).

(** A node with a [playlists] or [mods] element in it. *)
Fixpoint hasContainer (n : Node) : bool :=
  match n with
  | Elem name _ children =>
      match containerKind name with
      | Some _ => true
      | None => existsb hasContainer children
      end
  | _ => false
  end.

(** No container lies inside another container. *)
Fixpoint flatContainers (n : Node) : bool :=
  match n with
  | Elem name _ children =>
      match containerKind name with
      | Some _ => forallb (fun c => negb (hasContainer c)) children
      | None => forallb flatContainers children
      end
  | _ => true
  end.

(** Two documents that agree outside the containers: the same nodes in
    the same order, the same names and attributes, and only the content
    of [playlists] and [mods] elements left open. *)
Inductive sameOutside : list Node -> list Node -> Prop :=
| same_nil : sameOutside [] []
| same_container name attr children children' rest rest' :
    containerKind name <> None ->
    sameOutside rest rest' ->
    sameOutside (Elem name attr children :: rest)
      (Elem name attr children' :: rest')
| same_element name attr children children' rest rest' :
    containerKind name = None ->
    sameOutside children children' ->
    sameOutside rest rest' ->
    sameOutside (Elem name attr children :: rest)
      (Elem name attr children' :: rest')
| same_other n rest rest' :
    match n with Elem _ _ _ => False | _ => True end ->
    sameOutside rest rest' ->
    sameOutside (n :: rest) (n :: rest').

End ExtractionSpec.

(** ** The token loop of the extraction, read on nodes

    The loop of [extractWorkshopIDsAndModifyXML] run over the tokens of a
    node, with its two flags threaded through: the flags afterwards, the
    nodes whose tokens were encoded and the ids appended to each list. *)

Module ExtractionWalk.
Import Xml XmlManager ExtractionSpec.

Record Walk := mkWalk {
  flagPlaylists : bool;
  flagMods : bool;
  kept : list Node;
  foundPlaylists : list string;
  foundMods : list string
}.

Definition seqWalk (a b : Walk) : Walk :=
  mkWalk (flagPlaylists b) (flagMods b) (kept a ++ kept b)
    (foundPlaylists a ++ foundPlaylists b) (foundMods a ++ foundMods b).

Fixpoint walkNode (p m : bool) (n : Node) : Walk :=
  match n with
  | Elem name attr children =>
      let walkChildren :=
        fix all (ns : list Node) (p m : bool) : Walk :=
          match ns with
          | [] => mkWalk p m [] [] []
          | c :: cs =>
              let r := walkNode p m c in
              seqWalk r (all cs (flagPlaylists r) (flagMods r))
          end in
      let element (r : Walk) (p' m' : bool) :=
        mkWalk p' m' [Elem name attr (kept r)] (foundPlaylists r)
          (foundMods r) in
      if (Local name =? "playlists")%string then
        let r := walkChildren children true false in
        element r false (flagMods r)
      else if (Local name =? "mods")%string then
        let r := walkChildren children false true in
        element r (flagPlaylists r) false
      else
        match (if (p || m) && (Local name =? "path")%string
               then findWorkshopID attr else None) with
        | Some id =>
            mkWalk p m [] (if p then [id] else []) (if p then [] else [id])
        | None =>
            let r := walkChildren children p m in
            element r (flagPlaylists r) (flagMods r)
        end
  | _ => mkWalk p m [n] [] []
  end.

Fixpoint walkAll (ns : list Node) (p m : bool) : Walk :=
  match ns with
  | [] => mkWalk p m [] [] []
  | c :: cs =>
      let r := walkNode p m c in
      seqWalk r (walkAll cs (flagPlaylists r) (flagMods r))
  end.

(** The flags of the loop inside a container of a kind, or in none. *)
Definition flagsIn (inside : option ExtractionSpec.Kind) : bool * bool :=
  match inside with
  | Some ExtractionSpec.Playlist => (true, false)
  | Some ExtractionSpec.Mod => (false, true)
  | None => (false, false)
  end.

(** The state of the loop after the tokens of nodes walked as [r]. *)
Definition after (st : ExtractState) (r : Walk) : ExtractState :=
  mkExtract (flagPlaylists r) (flagMods r) false 0
    (playlistIDs st ++ foundPlaylists r) (modIDs st ++ foundMods r)
    (output st ++ tokensOf (kept r)).

(** With both flags down, the walk of a node ends with both flags down
    and keeps the node as it is outside the containers. *)
Definition framed (n : Node) : Prop :=
  flagPlaylists (walkNode false false n) = false
  /\ flagMods (walkNode false false n) = false
  /\ sameOutside [n] (kept (walkNode false false n)).

(** The walk of a node inside [inside] is the account of the
    specification. *)
Definition walkIs (inside : option Kind) (r : Walk)
  (spec : list Node * list (string * Kind)) : Prop :=
  r = mkWalk (fst (flagsIn inside)) (snd (flagsIn inside)) (fst spec)
        (idsOf Playlist (snd spec)) (idsOf Mod (snd spec)).

Definition placed (inside : option Kind) (n : Node) : bool :=
  match inside with
  | None => flatContainers n
  | Some _ => negb (hasContainer n)
  end.

End ExtractionWalk.

(** ** Example documents *)

Module Examples.
Import Xml.

Definition el (local : string) (attr : list Attr) (children : list Node)
  : Node :=
  Elem (mkName "" local) attr children.

Definition at_ (local value : string) : Attr :=
  mkAttr (mkName "" local) value.

Definition nl : string := String GoXml.newline EmptyString.
Definition dq : string := String GoXml.dquote EmptyString.

(** The document of the round-trip property, after the port rewrite. *)
Definition roundTripText : string :=
  "<server_data port='8000'><playlists><path path='123'/><path path='abc'/></playlists></server_data>".

Definition roundTripNodes : list Node :=
  [el "server_data" [at_ "port" "8000"]
     [el "playlists" []
        [el "path" [at_ "path" "123"] [];
         el "path" [at_ "path" "abc"] []]]].

(** A numeric [path] attribute on an element that is not named [path]. *)
Definition itemText : string :=
  "<playlists><item path='123'/></playlists>".

Definition itemNodes : list Node :=
  [el "playlists" [] [el "item" [at_ "path" "123"] []]].

(** A document with no [server_data], [playlists] or [mods] element. *)
Definition plainText : string := "<a><b/></a>".

Definition plainNodes : list Node := [el "a" [] [el "b" [] []]].

Definition plainEncoded : string :=
  ("<a>" ++ nl ++ "  <b></b>" ++ nl ++ "</a>")%string.

(** [filepath.Join] and [filepath.Dir] of a Unix host, for elements that
    are clean already: no empty element, no dot, no doubled slash. *)
Fixpoint dirOf (s : string) : string :=
  match s with
  | EmptyString => EmptyString
  | String c rest =>
      if GoXml.hasByte "/"%char rest then String c (dirOf rest)
      else EmptyString
  end.

Definition unixFilepath : XmlManager.Filepath :=
  XmlManager.mkFilepath (String.concat "/") dirOf.

Definition workshop : Workshop :=
  mkWorkshop "/opt/stormworks/playlists" "/opt/stormworks/mods"
    "/opt/steamcmd/steamcmd.sh" "573090".

(** Two empty containers. *)
Definition containersText : string :=
  "<server_data port='8000'><playlists/><mods/></server_data>".

(** A start request with two playlist references and one mod
    reference, for which the fetch succeeds for playlist 123 only. *)
Definition startData : Messages.StartServerPayload :=
  Messages.mkStartPayload "a"
    "<server_data port='0'><playlists><path path='123'/><path path='77'/></playlists><mods><path path='456'/></mods></server_data>".

Definition startEnv : ProcessManager.StartEnv :=
  ProcessManager.mkStartEnv GoXml.codec unixFilepath
    (fun _ _ => (["123"], [], false))
    (fun d => Some ("/srv/swsc/" ++ d)%string)
    true
    (Some (ProcessManager.mkProcess 4242)).

Definition startResponse : Messages.ResponsePayload :=
  Messages.sendStartSuccessResponse (Messages.TextStarted "a" 4242 2) 9000
    ["77"; "456"].

(** The supervisor after that start. *)
Definition afterStart : Supervisor.Sys :=
  Supervisor.mkSys
    (ProcessManager.mkState
       (<["a" := ProcessManager.mkInfo (ProcessManager.mkProcess 4242) 9000]> ∅)
       (<[9000 := true]> ∅))
    [Supervisor.mkWatch "a" (ProcessManager.mkProcess 4242) 9000].

(** A host whose file system is the list of the directories that
    exist. The tool reports items 123 (twice) and 456 and caches both;
    the cache of 456 has no [playlist] directory. *)
Definition fetchLines : list string :=
  ["Downloading item 123 ...";
   "Success. Downloaded item 123 to folder";
   "Success. Downloaded item 123 to folder";
   "Success. Downloaded item 456 to folder"].

Definition fetchCache : list string :=
  ["/opt/steamcmd/steamapps/workshop/content/573090/123/playlist";
   "/opt/steamcmd/steamapps/workshop/content/573090/456"].

Definition fetchHost : SteamCmd.Host (list string) :=
  SteamCmd.mkHost (list string)
    (fun w path => if existsb (String.eqb path) w then SteamCmd.StatOk
                   else SteamCmd.StatNotExist)
    (fun w path =>
       (List.filter (fun p => negb (String.eqb p path)) w, SteamCmd.RemoveOk))
    (fun w src dst => (dst :: w, false))
    (fun w path args => (fetchCache ++ w, SteamCmd.Ran fetchLines false false))
    SteamCmd.findSuccessID
    (fun m => map fst (map_to_list m)).

(** A [server_data] element inside the root. *)
Definition nestedText : string :=
  "<server_data port='0'><server_data/></server_data>".

End Examples.

(** ** config.go: [LoadConfig] on an environment *)

Module ConfigLoad.

Definition wsURLEnvKey : string := "WS_URL".
Definition serverExePathEnvKey : string := "SERVER_EXE_PATH".
Definition tokenEnvKey : string := "TOKEN".
Definition minPortEnvKey : string := "MIN_PORT".
Definition maxPortEnvKey : string := "MAX_PORT".
Definition workshopPlaylistsInstallDirEnvKey : string :=
  "WORKSHOP_PLAYLISTS_INSTALL_DIR".
Definition workshopModsInstallDirEnvKey : string :=
  "WORKSHOP_MODS_INSTALL_DIR".
Definition steamCmdPathEnvKey : string := "STEAMCMD_PATH".
Definition gameAppIDEnvKey : string := "GAME_APPID".

(** The [log.Fatalf] call that ends the program. *)
Inductive Fatal :=
| NotSet (key : string)
| NotANumber (key : string)
| RangeReversed
| RangeOutOfBounds.

(** The globals [LoadConfig] has written when it returns. *)
Record Settings := mkSettings {
  WsURL : string;
  ServerExePath : string;
  AuthToken : string;
  Ports : Config;
  Content : Workshop
}.

(** [LoadConfig]: [Getenv] is [os.Getenv] after [godotenv.Load], [Atoi]
    is [strconv.Atoi] with [None] for its error. The checks run in the
    order of the source and the first that fails ends the program. *)
Definition LoadConfig (Getenv : string -> string) (Atoi : string -> option Z)
  : Fatal + Settings :=
  let WsURL := Getenv wsURLEnvKey in
  if (WsURL =? "")%string then inl (NotSet wsURLEnvKey) else
  let ServerExePath := Getenv serverExePathEnvKey in
  if (ServerExePath =? "")%string then inl (NotSet serverExePathEnvKey) else
  let AuthToken := Getenv tokenEnvKey in
  if (AuthToken =? "")%string then inl (NotSet tokenEnvKey) else
  let minPortStr := Getenv minPortEnvKey in
  if (minPortStr =? "")%string then inl (NotSet minPortEnvKey) else
  match Atoi minPortStr with
  | None => inl (NotANumber minPortEnvKey)
  | Some MinPort =>
  let maxPortStr := Getenv maxPortEnvKey in
  if (maxPortStr =? "")%string then inl (NotSet maxPortEnvKey) else
  match Atoi maxPortStr with
  | None => inl (NotANumber maxPortEnvKey)
  | Some MaxPort =>
  let WorkshopPlaylistsInstallDir :=
    Getenv workshopPlaylistsInstallDirEnvKey in
  if (WorkshopPlaylistsInstallDir =? "")%string
  then inl (NotSet workshopPlaylistsInstallDirEnvKey) else
  let WorkshopModsInstallDir := Getenv workshopModsInstallDirEnvKey in
  if (WorkshopModsInstallDir =? "")%string
  then inl (NotSet workshopModsInstallDirEnvKey) else
  let SteamCmdPath := Getenv steamCmdPathEnvKey in
  if (SteamCmdPath =? "")%string then inl (NotSet steamCmdPathEnvKey) else
  let GameAppID := Getenv gameAppIDEnvKey in
  if (GameAppID =? "")%string then inl (NotSet gameAppIDEnvKey) else
  match Atoi GameAppID with
  | None => inl (NotANumber gameAppIDEnvKey)
  | Some _ =>
  if MinPort >? MaxPort then inl RangeReversed else
  if (MinPort <? 1024) || (MaxPort >? 65535) then inl RangeOutOfBounds else
  inr (mkSettings WsURL ServerExePath AuthToken (mkConfig MinPort MaxPort)
         (mkWorkshop WorkshopPlaylistsInstallDir WorkshopModsInstallDir
            SteamCmdPath GameAppID))
  end end end.

(** The variables [LoadConfig] requires to be set. *)
Definition required : list string :=
  [wsURLEnvKey; serverExePathEnvKey; tokenEnvKey; minPortEnvKey;
   maxPortEnvKey; workshopPlaylistsInstallDirEnvKey;
   workshopModsInstallDirEnvKey; steamCmdPathEnvKey; gameAppIDEnvKey].

End ConfigLoad.

(** ** port_manager.go: the table under a sequence of calls *)

Module PortTable.
Import PortManager.

(** [getCurrentlyUsedPorts]: the keys in the order of one [range]. *)
Definition getCurrentlyUsedPorts (usedPorts : gmap Z bool) : list Z :=
  (map_to_list usedPorts).*1.

(** A call that writes the table. *)
Inductive Call :=
| AssignPort (port : Z)
| ReleasePort (port : Z).

Definition call (cfg : Config) (usedPorts : gmap Z bool) (c : Call)
  : gmap Z bool :=
  match c with
  | AssignPort port => snd (assignPort cfg port usedPorts)
  | ReleasePort port => releasePort cfg port usedPorts
  end.

(** The table after [initializePortManager] and the calls [cs]. *)
Definition calls (cfg : Config) (cs : list Call) : gmap Z bool :=
  fold_left (call cfg) cs initializePortManager.

End PortTable.

(** ** The registry and the port table together *)

Module Registry.
Import PortManager Messages ProcessManager Supervisor.

(** The payloads of the [response] messages among the effects. *)
Definition responses (effects : list Effect) : list ResponsePayload :=
  flat_map
    (fun e => match e with
              | SendResponse payload => [payload]
              | _ => []
              end)
    effects.

(** The status codes of the [statusUpdate] messages among the effects. *)
Definition statuses (effects : list Effect) : list string :=
  flat_map
    (fun e => match e with
              | SendStatusUpdate status => [status]
              | _ => []
              end)
    effects.

(** The processes a handler killed. *)
Definition killed (effects : list Effect) : list Z :=
  flat_map
    (fun e => match e with
              | Kill pid => [pid]
              | _ => []
              end)
    effects.

(** The events sent by a watch task. *)
Definition events (effects : list Effect) : list ServerEvent :=
  flat_map
    (fun e => match e with
              | SendServerEvent event => [event]
              | _ => []
              end)
    effects.

(** The table marks exactly the ports of the records, which lie in the
    range, and no two records hold the same port. *)
Definition portsMatch (cfg : Config) (st : State) : Prop :=
  (forall name info,
      runningProcs st !! name = Some info ->
      MinPort cfg <= Port info <= MaxPort cfg
      /\ isUsed (usedPorts st) (Port info) = true)
  /\ (forall port,
        isUsed (usedPorts st) port = true ->
        exists name info,
          runningProcs st !! name = Some info /\ Port info = port)
  /\ (forall name1 name2 info1 info2,
        runningProcs st !! name1 = Some info1 ->
        runningProcs st !! name2 = Some info2 ->
        Port info1 = Port info2 -> name1 = name2).

(** The port a stop of the record [old] releases. *)
Definition vacated (old : option RunningProcessInfo) (port : Z) : bool :=
  match old with
  | Some info => port =? Port info
  | None => false
  end.

(** The process a stop of the record [old] kills. *)
Definition stopped (old : option RunningProcessInfo) : list Z :=
  match old with
  | Some info => [Pid (InfoProcess info)]
  | None => []
  end.

(** Every record has the watch task that was started with it. *)
Definition watched (s : Sys) : Prop :=
  forall name info,
    runningProcs (state s) !! name = Some info ->
    In (mkWatch name (InfoProcess info) (Port info)) (watches s).

End Registry.

(** ** The passes one after the other *)

Module Passes.
Import Xml XmlManager.

(** The state of the extraction loop with the tokens encoded so far
    rewritten by [f]. *)
Definition rewriteOutput (f : Token -> Token) (st : ExtractState)
  : ExtractState :=
  mkExtract (inPlaylists st) (inMods st) (skipElement st) (depth st)
    (playlistIDs st) (modIDs st) (map f (output st)).

(** The state of the extraction loop with the tokens encoded so far
    run through the reinsertion. *)
Definition reinsertOutput (fp : Filepath)
  (successfulPlaylistIDs successfulModIDs : list string)
  (configDirAbsPath : string) (st : ExtractState) : ExtractState :=
  mkExtract (inPlaylists st) (inMods st) (skipElement st) (depth st)
    (playlistIDs st) (modIDs st)
    (addLoop fp successfulPlaylistIDs successfulModIDs configDirAbsPath
       (output st) []).

(** The end tags named [local] among the tokens. *)
Definition closings (local : string) (toks : list Token) : nat :=
  length
    (List.filter
       (fun t => match t with
                 | EndElement name => (Local name =? local)%string
                 | _ => false
                 end)
       toks).

End Passes.

(** * Properties *)

Import PortManager.

Lemma wrap_in_range z : GoInt.in_range z -> GoInt.wrap z = z.
Proof.
  unfold GoInt.in_range, GoInt.int_min, GoInt.int_max, GoInt.wrap. intros H.
  rewrite Z.mod_small; lia.
Qed.

Lemma add_one_no_overflow port :
  GoInt.int_min <= port -> port < GoInt.int_max -> GoInt.add port 1 = port + 1.
Proof.
  intros Hlo Hhi. unfold GoInt.add. apply wrap_in_range.
  unfold GoInt.in_range. lia.
Qed.

(** ** The scan of [findAvailablePort] *)

Lemma findLoop_scan fuel : forall port maxPort (used : gmap Z bool),
  GoInt.int_min <= port -> maxPort < GoInt.int_max -> port <= maxPort + 1 ->
  (Z.to_nat (maxPort - port + 2) <= fuel)%nat ->
  (exists p, findLoop fuel port maxPort used = Some (Found p)
             /\ port <= p <= maxPort /\ isUsed used p = false
             /\ forall q, port <= q < p -> isUsed used q = true)
  \/ (findLoop fuel port maxPort used = Some NoPortAvailable
      /\ forall q, port <= q <= maxPort -> isUsed used q = true).
Proof.
  induction fuel as [|fuel IH]; intros port maxPort used Hlo Hhi Hle Hfuel.
  - exfalso. lia.
  - cbn [findLoop]. destruct (Z.leb_spec port maxPort) as [Hin|Hout].
    + destruct (isUsed used port) eqn:Hused; cbn [negb].
      * rewrite add_one_no_overflow by lia.
        destruct (IH (port + 1) maxPort used) as [(p & Hp & Hr & Hfree & Hlow)|[Hn Hall]];
          try lia.
        -- left. exists p. repeat split; try lia; try assumption.
           intros q Hq. destruct (Z.eq_dec q port) as [->|Hne]; [assumption|].
           apply Hlow. lia.
        -- right. split; [assumption|]. intros q Hq.
           destruct (Z.eq_dec q port) as [->|Hne]; [assumption|].
           apply Hall. lia.
      * left. exists port. repeat split; try lia; try assumption.
    + right. split; [reflexivity|]. intros q Hq. lia.
Qed.

Lemma findAvailablePort_result (minPort maxPort : Z) (used : gmap Z bool) :
  minPort <= maxPort -> GoInt.int_min <= minPort -> maxPort < GoInt.int_max ->
  (exists p, findAvailablePort minPort maxPort used = Some (Found p)
             /\ minPort <= p <= maxPort /\ isUsed used p = false
             /\ forall q, minPort <= q < p -> isUsed used q = true)
  \/ (findAvailablePort minPort maxPort used = Some NoPortAvailable
      /\ forall q, minPort <= q <= maxPort -> isUsed used q = true).
Proof.
  intros Hle Hlo Hhi. unfold findAvailablePort.
  apply findLoop_scan; lia.
Qed.

(** C2. For a range with [minPort <= maxPort] (held in Go ints, the upper
    end below the largest int) and any set of claimed ports, one call of
    [findAvailablePort] returns: it yields the lowest port of the
    inclusive range that is not claimed, and it fails exactly when every
    port of the range is claimed. *)
Theorem findAvailablePort_lowest_free
  (minPort maxPort : Z) (used : gmap Z bool) :
  minPort <= maxPort -> GoInt.int_min <= minPort -> maxPort < GoInt.int_max ->
  match findAvailablePort minPort maxPort used with
  | Some (Found p) =>
      minPort <= p <= maxPort /\ isUsed used p = false
      /\ forall q, minPort <= q < p -> isUsed used q = true
  | Some NoPortAvailable => True
  | None => False
  end
  /\ (findAvailablePort minPort maxPort used = Some NoPortAvailable
      <-> forall q, minPort <= q <= maxPort -> isUsed used q = true).
Proof.
  intros Hle Hlo Hhi.
  destruct (findAvailablePort_result minPort maxPort used Hle Hlo Hhi)
    as [(p & Hp & Hr & Hfree & Hlow)|[Hn Hall]].
  - rewrite Hp. split; [auto|]. split; [discriminate|].
    intros Hall. rewrite (Hall p Hr) in Hfree. discriminate.
  - rewrite Hn. split; [exact I|]. split; auto.
Qed.

Lemma findAvailablePort_lowest_free_witness :
  findAvailablePort 9000 9002 (<[9000 := true]> ∅) = Some (Found 9001)
  /\ (findAvailablePort 9000 9002 (<[9000 := true]> ∅) = Some NoPortAvailable
      <-> forall q, 9000 <= q <= 9002
                    -> isUsed (<[9000 := true]> ∅) q = true).
Proof.
  pose proof (findAvailablePort_lowest_free 9000 9002 (<[9000 := true]> ∅))
    as H.
  assert (E : findAvailablePort 9000 9002 (<[9000 := true]> ∅)
              = Some (Found 9001)) by reflexivity.
  split; [exact E|].
  apply H; unfold GoInt.int_min, GoInt.int_max; lia.
Defined.

(** ** The [syncStatus] payload *)

Import Messages.

Lemma portsInRange_spec cfg p :
  p ∈ portsInRange cfg <-> MinPort cfg <= p <= MaxPort cfg.
Proof. unfold portsInRange. rewrite elem_of_seqZ. lia. Qed.

(** C10. The [syncStatus] payload carries the running servers it was
    given and, for a range with [MaxPort >= MinPort] (ports are not
    negative), [MaxServers = MaxPort - MinPort], which is one less than
    the number of ports of the inclusive range; for [MaxPort < MinPort]
    it carries 0. *)
Theorem sendSyncStatus_maxServers (cfg : Config) (names : list string) :
  RunningServers (sendSyncStatus cfg names) = names
  /\ (MinPort cfg <= MaxPort cfg -> 0 <= MinPort cfg ->
      MaxPort cfg <= GoInt.int_max ->
      MaxServers (sendSyncStatus cfg names) = MaxPort cfg - MinPort cfg
      /\ MaxServers (sendSyncStatus cfg names)
         = Z.of_nat (length (portsInRange cfg)) - 1)
  /\ (MaxPort cfg < MinPort cfg -> MaxServers (sendSyncStatus cfg names) = 0).
Proof.
  unfold sendSyncStatus. cbn [RunningServers MaxServers].
  split; [reflexivity|]. split.
  - intros Hle Hmin Hmax.
    destruct (Z.geb_spec (MaxPort cfg) (MinPort cfg)) as [_|Hlt]; [|lia].
    unfold GoInt.sub. rewrite wrap_in_range.
    + split; [reflexivity|]. unfold portsInRange. rewrite length_seqZ. lia.
    + unfold GoInt.in_range, GoInt.int_min, GoInt.int_max in *. lia.
  - intros Hlt.
    destruct (Z.geb_spec (MaxPort cfg) (MinPort cfg)) as [Hge|_]; [lia|].
    reflexivity.
Qed.

Lemma sendSyncStatus_maxServers_witness :
  MaxServers (sendSyncStatus (mkConfig 9000 9009) ["a"]) = 9
  /\ MaxServers (sendSyncStatus (mkConfig 9000 9009) ["a"])
     = Z.of_nat (length (portsInRange (mkConfig 9000 9009))) - 1.
Proof.
  refine (proj1 (proj2 (sendSyncStatus_maxServers (mkConfig 9000 9009) ["a"]))
            _ _ _);
    cbn; unfold GoInt.int_max; lia.
Defined.

(** ** The confirmation gate of the stop handler *)

Import ProcessManager.

(** C9. The occupancy count of the gate is the constant 0, so a stop
    request with [confirmed = false] is handled exactly as one with
    [confirmed = true]: no response asks for confirmation, and when the
    name is registered its record is removed and its process is killed
    and awaited. *)
Theorem stop_unconfirmed_never_asks
  (cfg : Config) (name : string) (content : option string) (st : State) :
  dummyPlayerCount = 0
  /\ handleStopServerProcess cfg (mkStopPayload name false) content st
     = handleStopServerProcess cfg (mkStopPayload name true) content st
  /\ (forall r,
        In (SendResponse r)
          (snd (handleStopServerProcess cfg (mkStopPayload name false)
                  content st))
        -> NeedsConfirmation r = false)
  /\ (forall info, runningProcs st !! name = Some info ->
        runningProcs
          (fst (handleStopServerProcess cfg (mkStopPayload name false)
                  content st))
        = delete name (runningProcs st)
        /\ In (Kill (Pid (InfoProcess info)))
             (snd (handleStopServerProcess cfg (mkStopPayload name false)
                     content st))
        /\ In (Wait (Pid (InfoProcess info)))
             (snd (handleStopServerProcess cfg (mkStopPayload name false)
                     content st))).
Proof.
  split; [reflexivity|]. split; [reflexivity|].
  unfold handleStopServerProcess. cbn [Confirmed StopName negb andb].
  change (dummyPlayerCount >? 0) with false. cbn [andb].
  split.
  - intros r. destruct (runningProcs st !! name) as [info|]; cbn [snd].
    + intros [H|[H|[H|[H|[H|[]]]]]]; try discriminate.
      injection H as <-. destruct content; reflexivity.
    + intros [H|[]]. injection H as <-. reflexivity.
  - intros info Hinfo. rewrite Hinfo. cbn [fst snd runningProcs].
    split; [reflexivity|]. split; [left; reflexivity|right; left; reflexivity].
Qed.

(** ** Port claims under interleaving *)

Import ClaimRace.

Lemma claimedPorts_insert (l : list Caller) i c0 c :
  l !! i = Some c0 -> claimedOf c0 = None ->
  omap claimedOf (<[i := c]> l)
  ≡ₚ match claimedOf c with
     | Some p => p :: omap claimedOf l
     | None => omap claimedOf l
     end.
Proof.
  intros Hi Hc0.
  assert (E : omap claimedOf l
              = omap claimedOf (take i l) ++ omap claimedOf (drop (S i) l)).
  { rewrite <- (take_drop_middle l i c0 Hi) at 1.
    rewrite omap_app. simpl. rewrite Hc0. reflexivity. }
  rewrite (insert_take_drop l i c) by (eapply lookup_lt_Some; eassumption).
  rewrite omap_app, E. simpl.
  destruct (claimedOf c) as [p|].
  - symmetry. apply Permutation_middle.
  - reflexivity.
Qed.

Lemma isUsed_insert (used : gmap Z bool) p q :
  isUsed (<[p := true]> used) q = if decide (p = q) then true else isUsed used q.
Proof.
  unfold isUsed. rewrite lookup_insert. destruct (decide (p = q)); reflexivity.
Qed.

Lemma assignPort_true cfg p (used used' : gmap Z bool) :
  assignPort cfg p used = (true, used') ->
  MinPort cfg <= p <= MaxPort cfg /\ isUsed used p = false
  /\ used' = <[p := true]> used.
Proof.
  unfold assignPort.
  destruct (Z.ltb_spec p (MinPort cfg)); cbn [orb]; [discriminate|].
  destruct (Z.gtb_spec p (MaxPort cfg)); [discriminate|].
  destruct (isUsed used p) eqn:E; [discriminate|].
  intros [= <-]. repeat split; lia.
Qed.

Lemma assignPort_false cfg p (used used' : gmap Z bool) :
  assignPort cfg p used = (false, used') -> used' = used.
Proof.
  unfold assignPort.
  destruct (_ || _); [intros [= <-]; reflexivity|].
  destruct (isUsed used p); [intros [= <-]; reflexivity|discriminate].
Qed.

Lemma claimsSound_find cfg used0 s i c :
  claimsSound cfg used0 s -> callers s !! i = Some Ready ->
  claimedOf c = None ->
  claimsSound cfg used0
    (mkSys (ClaimRace.usedPorts s) (<[i := c]> (callers s))).
Proof.
  intros (Hnd & Hin & Hmono) Hi Hc.
  pose proof (claimedPorts_insert (callers s) i Ready c Hi eq_refl) as HP.
  rewrite Hc in HP.
  unfold claimsSound, claimedPorts. cbn [callers ClaimRace.usedPorts].
  split; [rewrite HP; exact Hnd|]. split; [|exact Hmono].
  intros p Hp. rewrite HP in Hp. apply Hin, Hp.
Qed.

Lemma claimsSound_step cfg used0 i s s' :
  claimsSound cfg used0 s -> stepCaller cfg i s = Some s' ->
  claimsSound cfg used0 s'.
Proof.
  intros Hs. unfold stepCaller.
  destruct (callers s !! i) as [[| p | p | p |]|] eqn:Hi; try discriminate.
  - (* the find section: no port is claimed or marked *)
    destruct (findAvailablePort _ _ _) as [[q|]|]; try discriminate;
      intros [= <-]; apply claimsSound_find; auto.
  - (* the mark section *)
    destruct Hs as (Hnd & Hin & Hmono).
    destruct (assignPort cfg p (ClaimRace.usedPorts s)) as [ok used'] eqn:Ha.
    intros [= <-]. unfold claimsSound, claimedPorts.
    cbn [callers ClaimRace.usedPorts].
    destruct ok.
    + apply assignPort_true in Ha as (Hr & Hfree & ->).
      pose proof (claimedPorts_insert (callers s) i (Holding p) (Claimed p)
                    Hi eq_refl) as HP.
      cbn [claimedOf] in HP.
      assert (Hnew : p ∉ claimedPorts s).
      { intros Hp. destruct (Hin p Hp) as (_ & Hu & _). congruence. }
      split; [rewrite HP; constructor; assumption|]. split.
      * intros q Hq. rewrite HP in Hq. rewrite isUsed_insert.
        apply elem_of_cons in Hq as [->|Hq].
        -- split; [exact Hr|]. split.
           ++ destruct (decide (p = p)); [reflexivity|congruence].
           ++ destruct (isUsed used0 p) eqn:E; [|reflexivity].
              rewrite (Hmono p E) in Hfree. discriminate.
        -- destruct (Hin q Hq) as (H1 & H2 & H3).
           split; [exact H1|]. split; [|exact H3].
           destruct (decide (p = q)); [reflexivity|exact H2].
      * intros q Hq. rewrite isUsed_insert.
        destruct (decide (p = q)); [reflexivity|]. apply Hmono, Hq.
    + apply assignPort_false in Ha as ->.
      pose proof (claimedPorts_insert (callers s) i (Holding p) (Conflict p)
                    Hi eq_refl) as HP.
      cbn [claimedOf] in HP.
      split; [rewrite HP; exact Hnd|]. split; [|exact Hmono].
      intros q Hq. rewrite HP in Hq. apply Hin, Hq.
Qed.

Lemma claimsSound_run cfg used0 schedule : forall s s',
  claimsSound cfg used0 s -> run cfg schedule s = Some s' ->
  claimsSound cfg used0 s'.
Proof.
  induction schedule as [|i rest IH]; intros s s' Hs; cbn [run].
  - intros [= <-]. exact Hs.
  - destruct (stepCaller cfg i s) as [s1|] eqn:E; [|discriminate].
    apply IH. eapply claimsSound_step; eassumption.
Qed.

Lemma claimsSound_start cfg used n : claimsSound cfg used (start used n).
Proof.
  unfold claimsSound, claimedPorts, start. cbn [callers ClaimRace.usedPorts].
  assert (E : omap claimedOf (replicate n Ready) = []).
  { induction n as [|n IH]; [reflexivity|]. cbn. exact IH. }
  rewrite E. split; [constructor|]. split; [|auto].
  intros p Hp. apply elem_of_nil in Hp. destruct Hp.
Qed.

Lemma one_claim cfg used k ports (done rest : list Caller) :
  GoInt.int_min <= MinPort cfg -> MaxPort cfg < GoInt.int_max ->
  (forall p, MinPort cfg <= p <= MaxPort cfg -> isUsed used p = false) ->
  MinPort cfg + Z.of_nat k <= MaxPort cfg ->
  markedUpTo cfg used k ports -> length done = k ->
  exists ports',
    run cfg [k; k] (mkSys ports (done ++ Ready :: rest))
    = Some (mkSys ports'
              (done ++ Claimed (MinPort cfg + Z.of_nat k) :: rest))
    /\ markedUpTo cfg used (S k) ports'.
Proof.
  intros Hlo Hhi Hfree Hk Hm Hlen. subst k. set (k := length done) in *.
  assert (Hle : MinPort cfg <= MaxPort cfg) by lia.
  pose proof (findAvailablePort_result (MinPort cfg) (MaxPort cfg) ports
                Hle Hlo Hhi) as Hfind.
  assert (Hnext : isUsed ports (MinPort cfg + Z.of_nat k) = false).
  { rewrite Hm, Hfree by lia.
    destruct (Z.ltb_spec (MinPort cfg + Z.of_nat k) (MinPort cfg + Z.of_nat k));
      [lia|]. rewrite andb_false_r. reflexivity. }
  destruct Hfind as [(p & Ef & Hr & Hp & Hlow)|[Ef Hall]].
  - assert (p = MinPort cfg + Z.of_nat k) as ->.
    { rewrite Hm in Hp. apply orb_false_elim in Hp as [Hp _].
      destruct (Z.leb_spec (MinPort cfg) p); [|lia].
      destruct (Z.ltb_spec p (MinPort cfg + Z.of_nat k)); [discriminate|].
      destruct (Z.eq_dec p (MinPort cfg + Z.of_nat k)) as [E|E]; [exact E|].
      rewrite (Hlow (MinPort cfg + Z.of_nat k)) in Hnext by lia.
      discriminate. }
    exists (<[MinPort cfg + Z.of_nat k := true]> ports). split.
    + cbn [run]. unfold stepCaller at 1. cbn [callers ClaimRace.usedPorts].
      rewrite (list_lookup_middle done rest Ready k) by reflexivity.
      rewrite Ef. unfold stepCaller. cbn [callers ClaimRace.usedPorts].
      assert (Hins : forall c c', <[k := c]> (done ++ c' :: rest)
                                  = done ++ c :: rest).
      { intros c c'. unfold k.
        rewrite <- (Nat.add_0_r (length done)), insert_app_r. reflexivity. }
      rewrite !Hins.
      rewrite (list_lookup_middle done rest _ k) by reflexivity.
      unfold assignPort.
      destruct (Z.ltb_spec (MinPort cfg + Z.of_nat k) (MinPort cfg)); [lia|].
      destruct (Z.gtb_spec (MinPort cfg + Z.of_nat k) (MaxPort cfg)); [lia|].
      cbn [orb]. rewrite Hnext. rewrite Hins. reflexivity.
    + intros q. rewrite isUsed_insert, Hm.
      destruct (decide (MinPort cfg + Z.of_nat k = q)) as [<-|Hne].
      * destruct (Z.leb_spec (MinPort cfg) (MinPort cfg + Z.of_nat k)); [|lia].
        destruct (Z.ltb_spec (MinPort cfg + Z.of_nat k)
                    (MinPort cfg + Z.of_nat (S k))); [|lia].
        reflexivity.
      * f_equal. f_equal.
        destruct (Z.ltb_spec q (MinPort cfg + Z.of_nat k)),
                 (Z.ltb_spec q (MinPort cfg + Z.of_nat (S k)));
          try reflexivity; lia.
  - exfalso. rewrite (Hall (MinPort cfg + Z.of_nat k)) in Hnext by lia.
    discriminate.
Qed.

Lemma run_app cfg a : forall b s,
  run cfg (a ++ b) s
  = match run cfg a s with
    | Some s' => run cfg b s'
    | None => None
    end.
Proof.
  induction a as [|i a IH]; intros b s; cbn [run app]; [reflexivity|].
  destruct (stepCaller cfg i s); [apply IH|reflexivity].
Qed.

Lemma length_portsFrom first n : length (portsFrom first n) = n.
Proof.
  revert first. induction n as [|n IH]; intros first; cbn; [reflexivity|].
  f_equal. apply IH.
Qed.

Lemma claims_one_by_one cfg used :
  GoInt.int_min <= MinPort cfg -> MaxPort cfg < GoInt.int_max ->
  (forall p, MinPort cfg <= p <= MaxPort cfg -> isUsed used p = false) ->
  forall j k ports (done rest : list Caller),
    MinPort cfg + Z.of_nat (k + j) <= MaxPort cfg + 1 ->
    markedUpTo cfg used k ports -> length done = k ->
    exists ports',
      run cfg (flat_map (fun i => [i; i]) (seq k j))
        (mkSys ports (done ++ replicate j Ready ++ rest))
      = Some (mkSys ports'
                (done
                 ++ map Claimed (portsFrom (MinPort cfg + Z.of_nat k) j)
                 ++ rest))
      /\ markedUpTo cfg used (k + j) ports'.
Proof.
  intros Hlo Hhi Hfree. induction j as [|j IH]; intros k ports done rest Hk Hm Hlen.
  - exists ports. rewrite Nat.add_0_r. split; [reflexivity|exact Hm].
  - cbn [seq flat_map replicate app].
    destruct (one_claim cfg used k ports done (replicate j Ready ++ rest))
      as (ports1 & Hrun1 & Hm1); try assumption; try lia.
    destruct (IH (S k) ports1 (done ++ [Claimed (MinPort cfg + Z.of_nat k)]) rest)
      as (ports2 & Hrun2 & Hm2); try assumption; try lia.
    { rewrite length_app. cbn. lia. }
    exists ports2. split.
    + change (k :: k :: ?l) with ([k; k] ++ l).
      rewrite run_app, Hrun1.
      rewrite <- app_assoc in Hrun2. cbn [app] in Hrun2. rewrite Hrun2.
      cbn [portsFrom map]. rewrite <- app_assoc. cbn [app].
      replace (MinPort cfg + Z.of_nat k + 1) with (MinPort cfg + Z.of_nat (S k))
        by lia.
      reflexivity.
    + replace (k + S j)%nat with (S k + j)%nat by lia. exact Hm2.
Qed.

(** C1, amended. [findAvailablePort] and [assignPort] are each atomic,
    the pair is not. In every execution of any number of concurrent
    claims, the ports of the callers that succeeded are pairwise
    distinct, lie in the range and are marked used. When the claims
    run one after the other against a range of exactly [n] free ports,
    all [n] succeed with the ports of the range in ascending order, and
    one more claim fails for lack of a free port. *)
Theorem claims_distinct_under_interleaving
  (cfg : Config) (used : gmap Z bool) (n : nat) :
  MinPort cfg <= MaxPort cfg ->
  GoInt.int_min <= MinPort cfg -> MaxPort cfg < GoInt.int_max ->
  Z.of_nat n = MaxPort cfg - MinPort cfg + 1 ->
  (forall p, MinPort cfg <= p <= MaxPort cfg -> isUsed used p = false) ->
  (forall m schedule s,
      run cfg schedule (start used m) = Some s ->
      NoDup (claimedPorts s)
      /\ forall p, In p (claimedPorts s) ->
           MinPort cfg <= p <= MaxPort cfg
           /\ isUsed (ClaimRace.usedPorts s) p = true)
  /\ exists ports',
       run cfg (oneByOne n ++ [n]) (start used (S n))
       = Some (mkSys ports'
                 (map Claimed (portsFrom (MinPort cfg) n) ++ [Exhausted])).
Proof.
  intros Hle Hlo Hhi Hn Hfree. split.
  - intros m schedule s Hrun.
    destruct (claimsSound_run cfg used schedule (start used m) s
                (claimsSound_start cfg used m) Hrun) as (Hnd & Hin & _).
    split; [exact Hnd|]. intros p Hp.
    apply list_elem_of_In in Hp. destruct (Hin p Hp) as (H1 & H2 & _). auto.
  - destruct (claims_one_by_one cfg used Hlo Hhi Hfree n 0%nat used [] [Ready])
      as (ports' & Hrun & Hm); try reflexivity; try lia.
    { intros p. destruct (Z.ltb_spec p (MinPort cfg + Z.of_nat 0)); [|].
      - destruct (Z.leb_spec (MinPort cfg) p); [lia|reflexivity].
      - rewrite andb_false_r. reflexivity. }
    exists ports'. unfold oneByOne, start. rewrite run_app.
    replace (replicate (S n) Ready) with (replicate n Ready ++ [Ready])
      by (symmetry; apply replicate_S_end).
    cbn [app] in Hrun. rewrite Hrun. cbn [run].
    replace (MinPort cfg + Z.of_nat 0) with (MinPort cfg) by lia.
    unfold stepCaller. cbn [callers ClaimRace.usedPorts].
    rewrite (list_lookup_middle _ [] Ready n)
      by (rewrite length_map, length_portsFrom; reflexivity).
    assert (Hfull : forall q, MinPort cfg <= q <= MaxPort cfg
                              -> isUsed ports' q = true).
    { intros q Hq. rewrite Hm.
      destruct (Z.leb_spec (MinPort cfg) q); [|lia].
      destruct (Z.ltb_spec q (MinPort cfg + Z.of_nat (0 + n))); [|lia].
      reflexivity. }
    destruct (findAvailablePort_result (MinPort cfg) (MaxPort cfg) ports'
                Hle Hlo Hhi) as [(p & _ & Hr & Hp & _)|[Ef _]].
    { rewrite (Hfull p Hr) in Hp. discriminate. }
    rewrite Ef. f_equal. f_equal.
    rewrite <- (length_portsFrom (MinPort cfg) n) at 1.
    rewrite <- (length_map Claimed), <- (Nat.add_0_r (length _)).
    rewrite insert_app_r. reflexivity.
Qed.

Lemma claims_distinct_under_interleaving_witness :
  (forall m schedule s,
      run (mkConfig 9000 9001) schedule (start ∅ m) = Some s ->
      NoDup (claimedPorts s)
      /\ forall p, In p (claimedPorts s) ->
           MinPort (mkConfig 9000 9001) <= p <= MaxPort (mkConfig 9000 9001)
           /\ isUsed (ClaimRace.usedPorts s) p = true)
  /\ exists ports',
       run (mkConfig 9000 9001) (oneByOne 2 ++ [2%nat]) (start ∅ 3)
       = Some (mkSys ports'
                 (map Claimed (portsFrom 9000 2) ++ [Exhausted])).
Proof.
  apply (claims_distinct_under_interleaving (mkConfig 9000 9001) ∅ 2);
    cbn; unfold GoInt.int_min, GoInt.int_max; try lia.
  intros p _. reflexivity.
Defined.

(** C1 as stated fails: two concurrent claims against a range of exactly
    two free ports, both finding port 9000 before either marks it. The
    second caller to mark is refused, and port 9001 is never claimed. *)
Lemma claim_not_atomic_counterexample :
  run (mkConfig 9000 9001) [0; 1; 0; 1]%nat (start ∅ 2)
  = Some (mkSys (<[9000 := true]> ∅) [Claimed 9000; Conflict 9000])
  /\ ~ AtomicClaim (mkConfig 9000 9001) ∅ 2.
Proof.
  assert (E : run (mkConfig 9000 9001) [0; 1; 0; 1]%nat (start ∅ 2)
              = Some (mkSys (<[9000 := true]> ∅)
                        [Claimed 9000; Conflict 9000])) by reflexivity.
  split; [exact E|].
  intros H. destruct (H _ _ E eq_refl) as [Hall _].
  apply Forall_cons in Hall as [_ Hall].
  apply Forall_cons in Hall as [Hc _]. discriminate.
Qed.

(** ** Documents as nodes *)

Import Xml XmlManager ExtractionSpec ExtractionWalk.

Lemma Node_forest_ind (P : Node -> Prop) :
  (forall name attr children,
      Forall P children -> P (Elem name attr children)) ->
  (forall data, P (NCharData data)) ->
  (forall data, P (NComment data)) ->
  (forall target inst, P (NProcInst target inst)) ->
  (forall data, P (NDirective data)) ->
  forall n, P n.
Proof.
  intros HE HC HM HP HD. fix IH 1.
  intros [name attr children|data|data|target inst|data].
  - apply HE.
    induction children as [|c cs IHcs]; constructor; [apply IH|exact IHcs].
  - apply HC.
  - apply HM.
  - apply HP.
  - apply HD.
Qed.

Lemma tokens_Elem name attr children :
  tokens (Elem name attr children)
  = StartElement name attr :: tokensOf children ++ [EndElement name].
Proof.
  assert (E : forall ns,
             (fix all (ns : list Node) : list Token :=
                match ns with
                | [] => []
                | c :: cs => tokens c ++ all cs
                end) ns = tokensOf ns).
  { induction ns as [|c cs IH]; [reflexivity|].
    cbn [tokensOf]. rewrite <- IH. reflexivity. }
  cbn [tokens]. rewrite E. reflexivity.
Qed.

Lemma tokensOf_app a b : tokensOf (a ++ b) = tokensOf a ++ tokensOf b.
Proof.
  induction a as [|c cs IH]; [reflexivity|].
  cbn [tokensOf app]. rewrite IH, app_assoc. reflexivity.
Qed.

Lemma walkNode_Elem p m name attr children :
  walkNode p m (Elem name attr children)
  = let element (r : Walk) (p' m' : bool) :=
      mkWalk p' m' [Elem name attr (kept r)] (foundPlaylists r)
        (foundMods r) in
    if (Local name =? "playlists")%string then
      let r := walkAll children true false in
      element r false (flagMods r)
    else if (Local name =? "mods")%string then
      let r := walkAll children false true in
      element r (flagPlaylists r) false
    else
      match (if (p || m) && (Local name =? "path")%string
             then findWorkshopID attr else None) with
      | Some id =>
          mkWalk p m [] (if p then [id] else []) (if p then [] else [id])
      | None =>
          let r := walkAll children p m in
          element r (flagPlaylists r) (flagMods r)
      end.
Proof.
  assert (E : forall ns p m,
             (fix all (ns : list Node) (p m : bool) : Walk :=
                match ns with
                | [] => mkWalk p m [] [] []
                | c :: cs =>
                    let r := walkNode p m c in
                    seqWalk r (all cs (flagPlaylists r) (flagMods r))
                end) ns p m = walkAll ns p m).
  { induction ns as [|c cs IH]; intros p0 m0; [reflexivity|].
    cbn [walkAll]. rewrite <- IH. reflexivity. }
  cbn [walkNode]. rewrite !E. reflexivity.
Qed.

Lemma extractNode_Elem carries inside name attr children :
  extractNode carries inside (Elem name attr children)
  = let inside' :=
      match containerKind name with
      | Some k => Some k
      | None => inside
      end in
    let found :=
      match containerKind name, inside with
      | None, Some k => option_map (fun id => (id, k)) (carries name attr)
      | _, _ => None
      end in
    match found with
    | Some r => ([], [r])
    | None =>
        let '(kept, refs) := extractAll carries inside' children in
        ([Elem name attr kept], refs)
    end.
Proof.
  assert (E : forall inside' ns,
             (fix all (ns : list Node) : list Node * list (string * Kind) :=
                match ns with
                | [] => ([], [])
                | c :: cs =>
                    let '(k1, r1) := extractNode carries inside' c in
                    let '(k2, r2) := all cs in
                    (k1 ++ k2, r1 ++ r2)
                end) ns = extractAll carries inside' ns).
  { intros inside'. induction ns as [|c cs IH]; [reflexivity|].
    cbn [extractAll]. rewrite <- IH. reflexivity. }
  cbn [extractNode]. rewrite E. reflexivity.
Qed.

(** ** The extraction loop on the tokens of a node *)

Lemma extractLoop_app a b st :
  extractLoop (a ++ b) st = extractLoop b (extractLoop a st).
Proof. unfold extractLoop. apply fold_left_app. Qed.

(** Inside a skipped element the loop reads the tokens of whole nodes
    and comes back with the same depth. *)
Lemma skip_node n : forall st,
  skipElement st = true -> 1 <= depth st ->
  extractLoop (tokens n) st = st.
Proof.
  induction n as [name attr children IH| | | |] using Node_forest_ind;
    intros st Hskip Hd.
  - rewrite tokens_Elem.
    change (StartElement name attr :: ?l) with ([StartElement name attr] ++ l).
    rewrite !extractLoop_app.
    assert (Hstart : extractLoop [StartElement name attr] st
                     = setSkip st true (depth st + 1)).
    { unfold extractLoop. cbn [fold_left]. unfold extractStep. rewrite Hskip.
      destruct (Z.eqb_spec (depth st + 1) 0); [lia|reflexivity]. }
    rewrite Hstart.
    assert (Hchildren : forall st1, skipElement st1 = true -> 1 <= depth st1 ->
              extractLoop (tokensOf children) st1 = st1).
    { induction IH as [|c cs Hc _ IHcs]; intros st1 Hs1 Hd1; [reflexivity|].
      cbn [tokensOf]. rewrite extractLoop_app, Hc by assumption.
      apply IHcs; assumption. }
    rewrite Hchildren by (cbn; lia).
    unfold extractLoop. cbn [fold_left]. unfold extractStep.
    cbn [setSkip skipElement depth].
    destruct (Z.eqb_spec (depth st + 1 - 1) 0); [lia|].
    destruct st as [a b c d e f g]. cbn in *. subst c.
    unfold setSkip. cbn. f_equal. lia.
  - unfold extractLoop. cbn. unfold extractStep. rewrite Hskip.
    destruct (Z.eqb_spec (depth st) 0); [lia|].
    destruct st; cbn in *; subst; reflexivity.
  - unfold extractLoop. cbn. unfold extractStep. rewrite Hskip.
    destruct (Z.eqb_spec (depth st) 0); [lia|].
    destruct st; cbn in *; subst; reflexivity.
  - unfold extractLoop. cbn. unfold extractStep. rewrite Hskip.
    destruct (Z.eqb_spec (depth st) 0); [lia|].
    destruct st; cbn in *; subst; reflexivity.
  - unfold extractLoop. cbn. unfold extractStep. rewrite Hskip.
    destruct (Z.eqb_spec (depth st) 0); [lia|].
    destruct st; cbn in *; subst; reflexivity.
Qed.

Lemma skip_nodes ns : forall st,
  skipElement st = true -> 1 <= depth st ->
  extractLoop (tokensOf ns) st = st.
Proof.
  induction ns as [|c cs IH]; intros st Hs Hd; [reflexivity|].
  cbn [tokensOf]. rewrite extractLoop_app, skip_node by assumption.
  apply IH; assumption.
Qed.

Lemma after_walkAll c cs st :
  (forall st1, skipElement st1 = false -> depth st1 = 0 ->
     extractLoop (tokens c) st1
     = after st1 (walkNode (inPlaylists st1) (inMods st1) c)) ->
  (forall st1, skipElement st1 = false -> depth st1 = 0 ->
     extractLoop (tokensOf cs) st1
     = after st1 (walkAll cs (inPlaylists st1) (inMods st1))) ->
  skipElement st = false -> depth st = 0 ->
  extractLoop (tokensOf (c :: cs)) st
  = after st (walkAll (c :: cs) (inPlaylists st) (inMods st)).
Proof.
  intros Hc Hcs Hs Hd. cbn [tokensOf walkAll].
  rewrite extractLoop_app, Hc, Hcs by (assumption || reflexivity).
  unfold after, seqWalk.
  cbn [inPlaylists inMods playlistIDs modIDs output flagPlaylists flagMods
       kept foundPlaylists foundMods].
  rewrite tokensOf_app, !app_assoc. reflexivity.
Qed.

Lemma loop_nodes_from children :
  Forall (fun c => forall st, skipElement st = false -> depth st = 0 ->
            extractLoop (tokens c) st
            = after st (walkNode (inPlaylists st) (inMods st) c)) children ->
  forall st, skipElement st = false -> depth st = 0 ->
    extractLoop (tokensOf children) st
    = after st (walkAll children (inPlaylists st) (inMods st)).
Proof.
  induction 1 as [|c cs Hc _ IH]; intros st Hs Hd.
  - destruct st as [a b c d e f g]. cbn in *. subst. unfold after. cbn.
    rewrite !app_nil_r. reflexivity.
  - apply after_walkAll; assumption.
Qed.

Lemma tokensOf_one n : tokensOf [n] = tokens n.
Proof. cbn [tokensOf]. apply app_nil_r. Qed.

(** The end tag of an element that was not skipped, after its children. *)
Ltac finish_element Ep Em :=
  unfold after, extractLoop; cbn -[tokens tokensOf walkAll];
  unfold extractStep; cbn -[tokens tokensOf walkAll];
  rewrite ?Ep, ?Em; unfold setFlags, encode; cbn -[tokens tokensOf walkAll];
  rewrite tokensOf_one, tokens_Elem, <- !app_assoc; reflexivity.

(** The token loop over the tokens of a node does what [walkNode] says. *)
Lemma loop_node n : forall st,
  skipElement st = false -> depth st = 0 ->
  extractLoop (tokens n) st
  = after st (walkNode (inPlaylists st) (inMods st) n).
Proof.
  induction n as [name attr children IH| | | |] using Node_forest_ind;
    intros st Hskip Hd.
  - pose proof (loop_nodes_from children IH) as Hch. clear IH.
    rewrite tokens_Elem, walkNode_Elem.
    change (StartElement name attr :: ?l) with ([StartElement name attr] ++ l).
    rewrite !extractLoop_app.
    destruct st as [p m skip d pids mids out]. cbn in Hskip, Hd. subst skip d.
    cbn [inPlaylists inMods]. cbv zeta.
    unfold extractLoop at 3. cbn [fold_left]. unfold extractStep at 1.
    cbn [skipElement inPlaylists inMods].
    destruct (Local name =? "playlists")%string eqn:Ep.
    { rewrite Hch by reflexivity. finish_element Ep Ep. }
    destruct (Local name =? "mods")%string eqn:Em.
    { rewrite Hch by reflexivity. finish_element Ep Em. }
    destruct ((p || m) && (Local name =? "path")%string) eqn:Epath;
      [destruct (findWorkshopID attr) as [id|] eqn:Eid|].
    + rewrite skip_nodes by (cbn; destruct p; cbn; lia || reflexivity).
      unfold extractLoop. cbn [fold_left]. unfold extractStep.
      unfold after. destruct p; cbn; rewrite ?app_nil_r; reflexivity.
    + rewrite Hch by reflexivity. finish_element Ep Em.
    + rewrite Hch by reflexivity. finish_element Ep Em.
  - destruct st as [p m skip d pids mids out]. cbn in *. subst.
    unfold after. cbn. rewrite ?app_nil_r. reflexivity.
  - destruct st as [p m skip d pids mids out]. cbn in *. subst.
    unfold after. cbn. rewrite ?app_nil_r. reflexivity.
  - destruct st as [p m skip d pids mids out]. cbn in *. subst.
    unfold after. cbn. rewrite ?app_nil_r. reflexivity.
  - destruct st as [p m skip d pids mids out]. cbn in *. subst.
    unfold after. cbn. rewrite ?app_nil_r. reflexivity.
Qed.

Lemma loop_nodes ns st :
  skipElement st = false -> depth st = 0 ->
  extractLoop (tokensOf ns) st
  = after st (walkAll ns (inPlaylists st) (inMods st)).
Proof.
  apply loop_nodes_from. induction ns; constructor; [|assumption].
  intros st1. apply loop_node.
Qed.

(** ** The walk: flags, frame, and the account of the specification *)

(** A flag that is up after whole nodes was up before them. *)
Lemma walk_flags n : forall p m,
  (flagPlaylists (walkNode p m n) = true -> p = true)
  /\ (flagMods (walkNode p m n) = true -> m = true).
Proof.
  induction n as [name attr children IH| | | |] using Node_forest_ind;
    intros p m; try (cbn; auto; fail).
  assert (Hall : forall p m,
            (flagPlaylists (walkAll children p m) = true -> p = true)
            /\ (flagMods (walkAll children p m) = true -> m = true)).
  { induction IH as [|c cs Hc _ IHcs]; intros p0 m0; [cbn; auto|].
    cbn [walkAll seqWalk flagPlaylists flagMods].
    destruct (IHcs (flagPlaylists (walkNode p0 m0 c))
                (flagMods (walkNode p0 m0 c))) as [H1 H2].
    destruct (Hc p0 m0) as [H3 H4]. split; auto. }
  rewrite walkNode_Elem. cbv zeta.
  destruct (Local name =? "playlists")%string.
  { cbn. split; [discriminate|]. intros H.
    apply (Hall true false) in H. discriminate. }
  destruct (Local name =? "mods")%string.
  { cbn. split; [|discriminate]. intros H.
    apply (Hall false true) in H. discriminate. }
  destruct (if (p || m) && (Local name =? "path")%string
            then findWorkshopID attr else None); cbn; [auto|apply Hall].
Qed.

Lemma walkAll_flags ns : forall p m,
  (flagPlaylists (walkAll ns p m) = true -> p = true)
  /\ (flagMods (walkAll ns p m) = true -> m = true).
Proof.
  induction ns as [|c cs IH]; intros p m; [cbn; auto|].
  cbn [walkAll seqWalk flagPlaylists flagMods].
  destruct (IH (flagPlaylists (walkNode p m c)) (flagMods (walkNode p m c)))
    as [H1 H2].
  destruct (walk_flags c p m) as [H3 H4]. split; auto.
Qed.

Lemma sameOutside_app a a' b b' :
  sameOutside a a' -> sameOutside b b' -> sameOutside (a ++ b) (a' ++ b').
Proof.
  induction 1; intros Hb; cbn [app]; [assumption| | |].
  - apply same_container; auto.
  - apply same_element; auto.
  - apply same_other; auto.
Qed.

Lemma framed_all children :
  Forall framed children ->
  flagPlaylists (walkAll children false false) = false
  /\ flagMods (walkAll children false false) = false
  /\ sameOutside children (kept (walkAll children false false)).
Proof.
  induction 1 as [|c cs (Hp & Hm & Hc) _ (IHp & IHm & IHs)].
  - cbn. repeat split. constructor.
  - cbn [walkAll seqWalk flagPlaylists flagMods kept]. rewrite Hp, Hm.
    repeat split; try assumption.
    change (c :: cs) with ([c] ++ cs). apply sameOutside_app; assumption.
Qed.

(** With both flags down, the walk keeps every node outside the
    containers as it is, and ends with both flags down. *)
Lemma walk_framed n : framed n.
Proof.
  induction n as [name attr children IH| | | |] using Node_forest_ind;
    try (unfold framed; cbn; repeat split;
         apply same_other; [exact I|constructor]).
  apply framed_all in IH as (Hp & Hm & Hs).
  unfold framed. rewrite walkNode_Elem. cbv zeta.
  destruct (Local name =? "playlists")%string eqn:Ep.
  { cbn. repeat split.
    - destruct (flagMods (walkAll children true false)) eqn:E; [|reflexivity].
      apply (walkAll_flags children true false) in E. discriminate.
    - apply same_container; [|constructor].
      unfold containerKind. rewrite Ep. discriminate. }
  destruct (Local name =? "mods")%string eqn:Em.
  { cbn. repeat split.
    - destruct (flagPlaylists (walkAll children false true)) eqn:E;
        [|reflexivity].
      apply (walkAll_flags children false true) in E. discriminate.
    - apply same_container; [|constructor].
      unfold containerKind. rewrite Ep, Em. discriminate. }
  cbn. repeat split; try assumption.
  apply same_element; [|assumption|constructor].
  unfold containerKind. rewrite Ep, Em. reflexivity.
Qed.

Lemma walkAll_framed ns :
  flagPlaylists (walkAll ns false false) = false
  /\ flagMods (walkAll ns false false) = false
  /\ sameOutside ns (kept (walkAll ns false false)).
Proof.
  apply framed_all. induction ns; constructor; [apply walk_framed|assumption].
Qed.

(** The regexp and the numeric values of the specification agree. *)
Lemma isDigit_digits c :
  isDigit c = existsb (Ascii.eqb c) (list_ascii_of_string "0123456789").
Proof. destruct c as [[] [] [] [] [] [] [] []]; reflexivity. Qed.

Lemma allDigits_forallb s :
  allDigits s
  = forallb
      (fun c => existsb (Ascii.eqb c) (list_ascii_of_string "0123456789"))
      (list_ascii_of_string s).
Proof.
  induction s as [|c s IH]; [reflexivity|].
  cbn [allDigits list_ascii_of_string forallb].
  rewrite IH, isDigit_digits. reflexivity.
Qed.

Lemma numeric_regexp s : workshopIDRegex_MatchString s = numeric s.
Proof.
  unfold workshopIDRegex_MatchString, numeric. rewrite <- allDigits_forallb.
  destruct s; reflexivity.
Qed.

Lemma findWorkshopID_first attr : findWorkshopID attr = numericPath attr.
Proof.
  unfold numericPath. induction attr as [|a rest IH]; [reflexivity|].
  cbn [findWorkshopID List.filter]. rewrite numeric_regexp.
  destruct ((Local (AttrName a) =? "path")%string && numeric (Value a));
    [reflexivity|exact IH].
Qed.

Lemma idsOf_app k a b : idsOf k (a ++ b) = idsOf k a ++ idsOf k b.
Proof. unfold idsOf. rewrite List.filter_app, map_app. reflexivity. Qed.

Lemma walkAll_spec children :
  Forall (fun c => forall inside, placed inside c = true ->
            walkIs inside
              (walkNode (fst (flagsIn inside)) (snd (flagsIn inside)) c)
              (extractNode reference inside c)) children ->
  forall inside, forallb (placed inside) children = true ->
    walkIs inside
      (walkAll children (fst (flagsIn inside)) (snd (flagsIn inside)))
      (extractAll reference inside children).
Proof.
  induction 1 as [|c cs Hc _ IH]; intros inside Hpl.
  - reflexivity.
  - cbn [forallb] in Hpl. apply andb_true_iff in Hpl as [Hpc Hpcs].
    cbn [walkAll extractAll]. rewrite (Hc inside Hpc).
    cbn [flagPlaylists flagMods]. rewrite (IH inside Hpcs).
    destruct (extractNode reference inside c) as [k1 r1].
    destruct (extractAll reference inside cs) as [k2 r2].
    unfold walkIs, seqWalk.
    cbn [fst snd flagPlaylists flagMods kept foundPlaylists foundMods].
    rewrite !idsOf_app. reflexivity.
Qed.

Lemma walk_spec n : forall inside,
  placed inside n = true ->
  walkIs inside (walkNode (fst (flagsIn inside)) (snd (flagsIn inside)) n)
    (extractNode reference inside n).
Proof.
  induction n as [name attr children IH| | | |] using Node_forest_ind;
    intros inside Hpl; try (destruct inside as [[]|]; reflexivity).
  pose proof (walkAll_spec children IH) as Hall. clear IH.
  rewrite walkNode_Elem, extractNode_Elem. cbv zeta.
  unfold placed in Hpl. cbn [flatContainers hasContainer] in Hpl.
  unfold containerKind in *.
  destruct (Local name =? "playlists")%string eqn:Ep.
  { destruct inside as [k|]; [discriminate|].
    rewrite (Hall (Some Playlist)) by exact Hpl.
    destruct (extractAll reference (Some Playlist) children) as [k r]. reflexivity. }
  destruct (Local name =? "mods")%string eqn:Em.
  { destruct inside as [k|]; [discriminate|].
    rewrite (Hall (Some Mod)) by exact Hpl.
    destruct (extractAll reference (Some Mod) children) as [k r]. reflexivity. }
  destruct inside as [k|].
  - assert (Hch : forallb (placed (Some k)) children = true).
    { apply negb_true_iff in Hpl. clear -Hpl.
      induction children as [|c cs IH]; [reflexivity|].
      cbn [existsb] in Hpl. apply orb_false_elim in Hpl as [H1 H2].
      cbn [forallb placed]. rewrite H1. cbn. apply IH, H2. }
    assert (Hflag : fst (flagsIn (Some k)) || snd (flagsIn (Some k)) = true)
      by (destruct k; reflexivity).
    rewrite Hflag. cbn [andb]. rewrite findWorkshopID_first.
    change (reference name attr)
      with (if (Local name =? "path")%string then numericPath attr else None).
    destruct (Local name =? "path")%string.
    + destruct (numericPath attr) as [id|]; cbn [option_map].
      * destruct k; reflexivity.
      * rewrite (Hall (Some k) Hch).
        destruct (extractAll reference (Some k) children) as [kk r]. reflexivity.
    + rewrite (Hall (Some k) Hch).
      destruct (extractAll reference (Some k) children) as [kk r]. reflexivity.
  - cbn [flagsIn fst snd orb andb].
    rewrite (Hall None) by exact Hpl.
    destruct (extractAll reference None children) as [kk r]. reflexivity.
Qed.

Lemma walkAll_is_spec ns inside :
  forallb (placed inside) ns = true ->
  walkIs inside (walkAll ns (fst (flagsIn inside)) (snd (flagsIn inside)))
    (extractAll reference inside ns).
Proof.
  apply walkAll_spec. induction ns; constructor; [|assumption].
  intros ins. apply walk_spec.
Qed.

(** ** What the account of the specification records and keeps *)

Lemma numericPath_numeric attr id :
  numericPath attr = Some id -> numeric id = true.
Proof.
  unfold numericPath. induction attr as [|a rest IH]; [discriminate|].
  cbn [List.filter].
  destruct ((Local (AttrName a) =? "path")%string && numeric (Value a)) eqn:E.
  - cbn. intros [= <-]. apply andb_true_iff in E as [_ E]. exact E.
  - exact IH.
Qed.

Lemma recorded_numeric n : forall inside id k,
  In (id, k) (snd (extractNode reference inside n)) -> numeric id = true.
Proof.
  induction n as [name attr children IH| | | |] using Node_forest_ind;
    intros inside id k; try (cbn; tauto).
  rewrite extractNode_Elem. cbv zeta.
  assert (Hall : forall ins, In (id, k) (snd (extractAll reference ins children))
                             -> numeric id = true).
  { intros ins. induction IH as [|c cs Hc _ IHcs]; [cbn; tauto|].
    cbn [extractAll].
    destruct (extractNode reference ins c) as [k1 r1] eqn:E1.
    destruct (extractAll reference ins cs) as [k2 r2].
    cbn [snd] in *. intros Hin. apply in_app_or in Hin as [Hin|Hin].
    - apply (Hc ins id k). rewrite E1. exact Hin.
    - apply IHcs, Hin. }
  destruct (containerKind name) as [kk|].
  - destruct (extractAll reference (Some kk) children) as [k1 r1] eqn:E.
    cbn [snd]. intros Hin. apply (Hall (Some kk)). rewrite E. exact Hin.
  - destruct inside as [kk|].
    + unfold reference at 1.
      destruct (Local name =? "path")%string.
      * destruct (numericPath attr) as [id'|] eqn:En; cbn [option_map].
        -- cbn. intros [[= <- <-]|[]]. eapply numericPath_numeric, En.
        -- destruct (extractAll reference (Some kk) children) as [k1 r1] eqn:E.
           cbn [snd]. intros Hin. apply (Hall (Some kk)). rewrite E. exact Hin.
      * cbn [option_map].
        destruct (extractAll reference (Some kk) children) as [k1 r1] eqn:E.
        cbn [snd]. intros Hin. apply (Hall (Some kk)). rewrite E. exact Hin.
    + destruct (extractAll reference None children) as [k1 r1] eqn:E.
      cbn [snd]. intros Hin. apply (Hall None). rewrite E. exact Hin.
Qed.

Lemma recorded_all_numeric ns : forall inside id k,
  In (id, k) (snd (extractAll reference inside ns)) -> numeric id = true.
Proof.
  induction ns as [|c cs IH]; intros inside id k; [cbn; tauto|].
  cbn [extractAll].
  destruct (extractNode reference inside c) as [k1 r1] eqn:E1.
  destruct (extractAll reference inside cs) as [k2 r2] eqn:E2.
  cbn [snd]. intros Hin. apply in_app_or in Hin as [Hin|Hin].
  - apply (recorded_numeric c inside id k). rewrite E1. exact Hin.
  - apply (IH inside id k). rewrite E2. exact Hin.
Qed.

Lemma noReference_kept n : forall inside,
  noReference n = true -> extractNode reference inside n = ([n], []).
Proof.
  induction n as [name attr children IH| | | |] using Node_forest_ind;
    intros inside Hno; try reflexivity.
  rewrite extractNode_Elem. cbv zeta. cbn [noReference] in Hno.
  destruct (reference name attr) eqn:Er; [discriminate|].
  assert (Hall : forall ins, extractAll reference ins children = (children, [])).
  { intros ins. induction IH as [|c cs Hc _ IHcs]; [reflexivity|].
    cbn [forallb] in Hno. apply andb_true_iff in Hno as [H1 H2].
    cbn [extractAll]. rewrite (Hc ins H1), (IHcs H2). reflexivity. }
  cbn [option_map].
  destruct (containerKind name), inside; rewrite Hall; reflexivity.
Qed.

Lemma noReference_all_kept ns : forall inside,
  forallb noReference ns = true -> extractAll reference inside ns = (ns, []).
Proof.
  induction ns as [|c cs IH]; intros inside Hno; [reflexivity|].
  cbn [forallb] in Hno. apply andb_true_iff in Hno as [H1 H2].
  cbn [extractAll]. rewrite (noReference_kept c inside H1), (IH inside H2).
  reflexivity.
Qed.

(** ** The extraction pass *)

Lemma extract_document (c : Codec) (xmlString : string) (doc : list Node) :
  Decode c xmlString = document doc ->
  extractWorkshopIDsAndModifyXML c xmlString
  = match Encode c (tokensOf (kept (walkAll doc false false))) with
    | Some modified =>
        Some (foundPlaylists (walkAll doc false false),
              foundMods (walkAll doc false false), modified)
    | None => None
    end.
Proof.
  intros Hdoc. unfold extractWorkshopIDsAndModifyXML. rewrite Hdoc.
  cbn [document runEnd runTokens].
  rewrite (loop_nodes doc initialExtract) by reflexivity. reflexivity.
Qed.

(** C3, amended. For a document whose [playlists] and [mods] containers
    do not lie inside one another, the extraction pass records exactly
    the references of the elements named [path] inside a container that
    are not themselves inside a dropped element: the value of the first
    [path] attribute made of ASCII digits only (at least one), in the
    list of the container's kind, in encounter order, duplicates kept.
    It drops those elements with their content and hands every other
    node to the encoder as it is. Every recorded id is numeric, and a
    document in which no [path] element carries a numeric [path] value
    is encoded whole, with nothing recorded. *)
Theorem extraction_records_path_references
  (c : Codec) (xmlString : string) (doc : list Node) :
  Decode c xmlString = document doc ->
  forallb flatContainers doc = true ->
  extractWorkshopIDsAndModifyXML c xmlString
  = match Encode c (tokensOf (fst (extractAll reference None doc))) with
    | Some modified =>
        Some (idsOf Playlist (snd (extractAll reference None doc)),
              idsOf Mod (snd (extractAll reference None doc)), modified)
    | None => None
    end
  /\ (forall id k, In (id, k) (snd (extractAll reference None doc)) ->
        workshopIDRegex_MatchString id = true)
  /\ (forallb noReference doc = true ->
      extractAll reference None doc = (doc, [])).
Proof.
  intros Hdoc Hflat. split; [|split].
  - rewrite (extract_document c xmlString doc Hdoc).
    pose proof (walkAll_is_spec doc None Hflat) as Hw.
    unfold walkIs in Hw. cbn [flagsIn fst snd] in Hw. rewrite Hw. reflexivity.
  - intros id k Hin. rewrite numeric_regexp.
    eapply recorded_all_numeric, Hin.
  - apply noReference_all_kept.
Qed.

Import Examples.

Lemma extraction_records_path_references_witness :
  extractWorkshopIDsAndModifyXML GoXml.codec roundTripText
  = match Encode GoXml.codec
            (tokensOf (fst (extractAll reference None roundTripNodes))) with
    | Some modified =>
        Some (idsOf Playlist (snd (extractAll reference None roundTripNodes)),
              idsOf Mod (snd (extractAll reference None roundTripNodes)),
              modified)
    | None => None
    end
  /\ (forall id k,
        In (id, k) (snd (extractAll reference None roundTripNodes)) ->
        workshopIDRegex_MatchString id = true)
  /\ (forallb noReference roundTripNodes = true ->
      extractAll reference None roundTripNodes = (roundTripNodes, [])).
Proof.
  apply (extraction_records_path_references GoXml.codec roundTripText
           roundTripNodes); reflexivity.
Defined.

(** C3 as stated fails: the value [123] is numeric and sits on an element
    inside a [playlists] container, so the claim has it recorded and the
    element dropped; the element is named [item], so the pass records
    nothing and encodes the element. *)
Lemma extraction_any_element_counterexample :
  Decode GoXml.codec itemText = document itemNodes
  /\ forallb flatContainers itemNodes = true
  /\ extractAll referenceAsStated None itemNodes
     = ([el "playlists" [] []], [("123", Playlist)])
  /\ extractWorkshopIDsAndModifyXML GoXml.codec itemText
     = Some ([], [],
             ("<playlists>" ++ nl ++ "  <item path=" ++ dq ++ "123" ++ dq
              ++ "></item>" ++ nl ++ "</playlists>")%string)
  /\ extractWorkshopIDsAndModifyXML GoXml.codec itemText
     <> match Encode GoXml.codec
                (tokensOf (fst (extractAll referenceAsStated None itemNodes)))
        with
        | Some modified =>
            Some (idsOf Playlist
                    (snd (extractAll referenceAsStated None itemNodes)),
                  idsOf Mod
                    (snd (extractAll referenceAsStated None itemNodes)),
                  modified)
        | None => None
        end.
Proof.
  repeat split; try reflexivity.
  vm_compute. discriminate.
Qed.

(** ** The port rewrite *)

Import ConfigManager.

Lemma updateLoop_map s toks : forall acc,
  updateLoop s toks acc = acc ++ map (updateToken s) toks.
Proof.
  induction toks as [|t rest IH]; intros acc; cbn [updateLoop map].
  - symmetry. apply app_nil_r.
  - rewrite IH, <- app_assoc. reflexivity.
Qed.

Lemma updateAttrs_map s attrs : forall acc found,
  updateAttrs s attrs acc found
  = (acc ++ map (withPort s) attrs, found || existsb isPortAttr attrs).
Proof.
  induction attrs as [|a rest IH]; intros acc found; cbn [updateAttrs map existsb].
  - rewrite app_nil_r, orb_false_r. reflexivity.
  - assert (Hw : withPort s a
                 = if (Local (AttrName a) =? "port")%string
                   then mkAttr (mkName "" "port") s else a) by reflexivity.
    assert (Hp : isPortAttr a = (Local (AttrName a) =? "port")%string)
      by reflexivity.
    rewrite Hw, Hp.
    destruct (Local (AttrName a) =? "port")%string;
      rewrite IH, <- app_assoc; cbn [app orb].
    + rewrite orb_true_r. reflexivity.
    + reflexivity.
Qed.

Lemma others_withPort s attrs :
  List.filter (fun a => negb (isPortAttr a)) (map (withPort s) attrs)
  = List.filter (fun a => negb (isPortAttr a)) attrs.
Proof.
  induction attrs as [|a rest IH]; [reflexivity|].
  cbn [map List.filter]. unfold withPort at 1 2.
  destruct (isPortAttr a) eqn:E.
  - cbn. exact IH.
  - rewrite E. cbn. rewrite IH. reflexivity.
Qed.

Lemma ports_withPort s attrs a :
  In a (map (withPort s) attrs) -> isPortAttr a = true ->
  a = mkAttr (mkName "" "port") s.
Proof.
  intros Hin Hp. apply in_map_iff in Hin as (b & <- & _).
  unfold withPort in *. destruct (isPortAttr b) eqn:E; [reflexivity|].
  congruence.
Qed.

(** What the rewrite does to a [server_data] start tag: the name is
    kept, the other attributes are kept in order, every [port] attribute
    holds the new port, and there is one. *)
Lemma updateToken_server_data s name attr :
  (Local name =? "server_data")%string = true ->
  exists attr',
    updateToken s (StartElement name attr) = StartElement name attr'
    /\ List.filter (fun a => negb (isPortAttr a)) attr'
       = List.filter (fun a => negb (isPortAttr a)) attr
    /\ (forall a, In a attr' -> isPortAttr a = true ->
          a = mkAttr (mkName "" "port") s)
    /\ (exists a, In a attr' /\ isPortAttr a = true).
Proof.
  intros Hn. cbn [updateToken]. rewrite Hn, updateAttrs_map.
  cbn [app orb]. destruct (existsb isPortAttr attr) eqn:E; cbn [negb].
  - exists (map (withPort s) attr). split; [reflexivity|].
    split; [apply others_withPort|]. split; [apply ports_withPort|].
    apply existsb_exists in E as (a & Hin & Hp).
    exists (withPort s a). split; [apply in_map, Hin|].
    unfold withPort. rewrite Hp. reflexivity.
  - exists (map (withPort s) attr ++ [mkAttr (mkName "" "port") s]).
    split; [reflexivity|]. split; [|split].
    + rewrite List.filter_app, others_withPort. cbn. apply app_nil_r.
    + intros a Hin Hp. apply in_app_or in Hin as [Hin|[<-|[]]];
        [eapply ports_withPort; eassumption|reflexivity].
    + exists (mkAttr (mkName "" "port") s). split; [|reflexivity].
      apply in_or_app. right. left. reflexivity.
Qed.

Lemma updateToken_other s t : isServerDataStart t = false -> updateToken s t = t.
Proof.
  destruct t as [name attr| | | | |]; try reflexivity.
  cbn [isServerDataStart updateToken]. intros ->. reflexivity.
Qed.

(** C7, amended. Both passes hand the encoder, in order, every token
    they do not touch, as it was read. The port rewrite touches the
    start tags named [server_data] only: there it keeps the name and the
    other attributes in order and sets the [port] attribute. The
    extraction keeps every node outside the [playlists] and [mods]
    elements, with its name, attributes and position. The text returned
    is the encoder's rendering of those tokens. *)
Theorem passes_keep_untouched_tokens (c : Codec) (xmlString : string) :
  (forall toks newPort,
      Decode c xmlString = mkRun toks EOF ->
      updateXmlPort c xmlString newPort
      = Encode c (map (updateToken (Itoa newPort)) toks))
  /\ (forall s t, isServerDataStart t = false -> updateToken s t = t)
  /\ (forall s name attr,
        isServerDataStart (StartElement name attr) = true ->
        exists attr',
          updateToken s (StartElement name attr) = StartElement name attr'
          /\ List.filter (fun a => negb (isPortAttr a)) attr'
             = List.filter (fun a => negb (isPortAttr a)) attr
          /\ (forall a, In a attr' -> isPortAttr a = true ->
                a = mkAttr (mkName "" "port") s)
          /\ (exists a, In a attr' /\ isPortAttr a = true))
  /\ (forall doc,
        Decode c xmlString = document doc ->
        exists doc' playlistIDs modIDs,
          sameOutside doc doc'
          /\ extractWorkshopIDsAndModifyXML c xmlString
             = match Encode c (tokensOf doc') with
               | Some modified => Some (playlistIDs, modIDs, modified)
               | None => None
               end).
Proof.
  split; [|split; [|split]].
  - intros toks newPort Hdec. unfold updateXmlPort. rewrite Hdec.
    cbn [runEnd runTokens]. rewrite updateLoop_map. reflexivity.
  - apply updateToken_other.
  - intros s name attr Hn. apply updateToken_server_data, Hn.
  - intros doc Hdec.
    exists (kept (walkAll doc false false)),
           (foundPlaylists (walkAll doc false false)),
           (foundMods (walkAll doc false false)).
    split; [apply walkAll_framed|]. apply extract_document, Hdec.
Qed.

Lemma passes_keep_untouched_tokens_witness :
  updateXmlPort GoXml.codec nestedText 8000
  = Encode GoXml.codec
      (map (updateToken (Itoa 8000))
         (runTokens (Decode GoXml.codec nestedText)))
  /\ exists doc' playlistIDs modIDs,
       sameOutside roundTripNodes doc'
       /\ extractWorkshopIDsAndModifyXML GoXml.codec roundTripText
          = match Encode GoXml.codec (tokensOf doc') with
            | Some modified => Some (playlistIDs, modIDs, modified)
            | None => None
            end.
Proof.
  pose proof (passes_keep_untouched_tokens GoXml.codec nestedText)
    as (Hport & _).
  pose proof (passes_keep_untouched_tokens GoXml.codec roundTripText)
    as (_ & _ & _ & Hextract).
  split.
  - apply Hport. reflexivity.
  - apply Hextract. reflexivity.
Defined.

(** C7 as stated fails: the document has no [server_data], [playlists]
    or [mods] element, so neither pass touches anything in it, and both
    return a text that differs from it: the encoder writes an explicit
    end tag for the self-closing element and indents by two spaces. *)
Lemma passes_not_bytewise_counterexample :
  Decode GoXml.codec plainText = document plainNodes
  /\ updateXmlPort GoXml.codec plainText 8000 = Some plainEncoded
  /\ extractWorkshopIDsAndModifyXML GoXml.codec plainText
     = Some ([], [], plainEncoded)
  /\ plainEncoded <> plainText.
Proof.
  repeat split; try reflexivity. vm_compute. discriminate.
Qed.

(** ** The reinsertion pass *)

Lemma encodePaths_flat template ids : forall out,
  encodePaths template ids out
  = out ++ flat_map (fun id => pathElement (template id)) ids.
Proof.
  induction ids as [|id rest IH]; intros out; cbn [encodePaths flat_map].
  - symmetry. apply app_nil_r.
  - rewrite IH, <- app_assoc. reflexivity.
Qed.

Lemma addStep_synthesized fp sp sm dir out t :
  addStep fp sp sm dir out t = out ++ synthesized fp sp sm dir t ++ [t].
Proof.
  unfold addStep, synthesized. rewrite app_assoc. f_equal.
  destruct t as [name attr|name| | | |]; try (symmetry; apply app_nil_r).
  destruct (Local name =? "playlists")%string eqn:Ep; cbn [andb].
  - destruct sp as [|id sp].
    + apply String.eqb_eq in Ep. rewrite Ep. cbn. symmetry. apply app_nil_r.
    + change (0 <? Z.of_nat (length (id :: sp))) with true.
      apply encodePaths_flat.
  - destruct (Local name =? "mods")%string; cbn [andb];
      [|symmetry; apply app_nil_r].
    destruct sm as [|id sm]; [symmetry; apply app_nil_r|].
    change (0 <? Z.of_nat (length (id :: sm))) with true.
    apply encodePaths_flat.
Qed.

Lemma addLoop_flat fp sp sm dir toks : forall out,
  addLoop fp sp sm dir toks out
  = out ++ flat_map (fun t => synthesized fp sp sm dir t ++ [t]) toks.
Proof.
  unfold addLoop. induction toks as [|t rest IH]; intros out;
    cbn [fold_left flat_map].
  - symmetry. apply app_nil_r.
  - rewrite IH, addStep_synthesized, <- !app_assoc. reflexivity.
Qed.

Lemma slashToBackslash_no_slash s :
  GoXml.hasByte "/"%char (slashToBackslash s) = false.
Proof.
  induction s as [|c rest IH]; [reflexivity|].
  cbn [slashToBackslash GoXml.hasByte]. rewrite IH, orb_false_r.
  destruct (Ascii.eqb c "/") eqn:E; [reflexivity|exact E].
Qed.

(** C4, amended. In every reinsertion run each synthesized [path]
    element is encoded immediately before the end tag of its container,
    one per successful id and in the order of the list, and nothing else
    is added. Its [path] value is a fixed template, not the configured
    install directory: for a playlist the text
    [/rom/data/workshop_missions/] followed by the id, with slashes; for
    a mod the absolute configuration directory of the server joined with
    [rom], [data], [workshop_mods] and the id, with every slash turned
    into a backslash. *)
Theorem reinsertion_before_closing_tag
  (c : Codec) (fp : Filepath) (xmlString : string) (toks : list Token)
  (successfulPlaylistIDs successfulModIDs : list string)
  (configDirAbsPath : string) :
  Decode c xmlString = mkRun toks EOF ->
  addWorkshopPathsToXML c fp xmlString successfulPlaylistIDs successfulModIDs
    configDirAbsPath
  = Encode c
      (flat_map
         (fun t => synthesized fp successfulPlaylistIDs successfulModIDs
                     configDirAbsPath t ++ [t])
         toks)
  /\ (forall before t after,
        toks = before ++ t :: after ->
        addLoop fp successfulPlaylistIDs successfulModIDs configDirAbsPath
          toks []
        = addLoop fp successfulPlaylistIDs successfulModIDs configDirAbsPath
            before []
          ++ synthesized fp successfulPlaylistIDs successfulModIDs
               configDirAbsPath t
          ++ t :: flat_map
                    (fun t => synthesized fp successfulPlaylistIDs
                                successfulModIDs configDirAbsPath t ++ [t])
                    after)
  /\ (forall id,
        pathElement (playlistPath id)
        = [StartElement (mkName "" "path")
             [mkAttr (mkName "" "path")
                ("/rom/data/workshop_missions/" ++ id)%string];
           EndElement (mkName "" "path")])
  /\ (forall id,
        pathElement (modPathFinal fp configDirAbsPath id)
        = [StartElement (mkName "" "path")
             [mkAttr (mkName "" "path")
                (slashToBackslash
                   (Join fp [configDirAbsPath; "rom"; "data";
                             "workshop_mods"; id]))];
           EndElement (mkName "" "path")]
        /\ GoXml.hasByte "/"%char (modPathFinal fp configDirAbsPath id)
           = false).
Proof.
  intros Hdec. split; [|split; [|split]].
  - unfold addWorkshopPathsToXML. rewrite Hdec. cbn [runEnd runTokens].
    rewrite addLoop_flat. reflexivity.
  - intros before t after ->. rewrite !addLoop_flat. cbn [app].
    rewrite flat_map_app. cbn [flat_map]. rewrite <- !app_assoc. reflexivity.
  - reflexivity.
  - intros id. split; [reflexivity|]. apply slashToBackslash_no_slash.
Qed.

Lemma reinsertion_before_closing_tag_witness :
  addWorkshopPathsToXML GoXml.codec unixFilepath containersText ["123"]
    ["456"] "/srv/swsc/config/a"
  = Encode GoXml.codec
      (flat_map
         (fun t => synthesized unixFilepath ["123"] ["456"]
                     "/srv/swsc/config/a" t ++ [t])
         (runTokens (Decode GoXml.codec containersText))).
Proof.
  apply (reinsertion_before_closing_tag GoXml.codec unixFilepath
           containersText (runTokens (Decode GoXml.codec containersText))
           ["123"] ["456"] "/srv/swsc/config/a").
  reflexivity.
Defined.

(** C4 as stated fails: with the install directories of [workshop], the
    playlist path written for id 123 and the mod path written for id 456
    are not the install directory of their kind joined with the id. *)
Lemma reinsertion_path_counterexample :
  addLoop unixFilepath ["123"] ["456"] "/srv/swsc/config/a"
    (runTokens (Decode GoXml.codec containersText)) []
  = [StartElement (mkName "" "server_data") [at_ "port" "8000"];
     StartElement (mkName "" "playlists") [];
     StartElement (mkName "" "path")
       [at_ "path" "/rom/data/workshop_missions/123"];
     EndElement (mkName "" "path");
     EndElement (mkName "" "playlists");
     StartElement (mkName "" "mods") [];
     StartElement (mkName "" "path")
       [at_ "path" "\srv\swsc\config\a\rom\data\workshop_mods\456"];
     EndElement (mkName "" "path");
     EndElement (mkName "" "mods");
     EndElement (mkName "" "server_data")]
  /\ "/rom/data/workshop_missions/123"
     <> Join unixFilepath [WorkshopPlaylistsInstallDir workshop; "123"]
  /\ "\srv\swsc\config\a\rom\data\workshop_mods\456"
     <> Join unixFilepath [WorkshopModsInstallDir workshop; "456"]
  /\ "\srv\swsc\config\a\rom\data\workshop_mods\456"
     <> slashToBackslash
          (Join unixFilepath [WorkshopModsInstallDir workshop; "456"]).
Proof.
  split; [reflexivity|]. repeat split; vm_compute; discriminate.
Qed.

(** ** The failed list of the start workflow *)

Import SteamCmd.

Lemma lookupBool_insert (m : gmap string bool) x id :
  lookupBool (<[x := true]> m) id
  = (id =? x)%string || lookupBool m id.
Proof.
  unfold lookupBool. rewrite lookup_insert.
  destruct (decide (x = id)) as [->|Hne].
  - rewrite String.eqb_refl. reflexivity.
  - destruct (String.eqb_spec id x); [congruence|reflexivity].
Qed.

Lemma lookupBool_marked l : forall (m : gmap string bool) id,
  lookupBool (fold_left (fun m id => <[id := true]> m) l m) id
  = inList l id || lookupBool m id.
Proof.
  induction l as [|x rest IH]; intros m id; [reflexivity|].
  cbn [fold_left inList existsb]. rewrite IH, lookupBool_insert.
  fold (inList rest id).
  destruct (inList rest id), (id =? x)%string; reflexivity.
Qed.

Lemma keepFailed_filter (P : string -> bool) l : forall acc,
  fold_left (fun failed id => if negb (P id) then failed ++ [id] else failed)
    l acc
  = acc ++ List.filter (fun id => negb (P id)) l.
Proof.
  induction l as [|x rest IH]; intros acc; cbn [fold_left List.filter].
  - symmetry. apply app_nil_r.
  - rewrite IH. destruct (negb (P x)); [|reflexivity].
    rewrite <- app_assoc. reflexivity.
Qed.

(** [calculateFailedIDs] keeps, in order and with duplicates, the
    requested ids that are in neither success list. *)
Lemma calculateFailedIDs_filter rp rm sp sm :
  calculateFailedIDs rp rm sp sm
  = List.filter (fun id => negb (inList (sp ++ sm) id)) (rp ++ rm).
Proof.
  unfold calculateFailedIDs. cbv zeta. rewrite !keepFailed_filter.
  cbn [app]. rewrite List.filter_app.
  assert (E : forall id,
            lookupBool
              (fold_left (fun m id => <[id := true]> m) sm
                 (fold_left (fun m id => <[id := true]> m) sp ∅)) id
            = inList (sp ++ sm) id).
  { intros id. rewrite !lookupBool_marked. unfold inList.
    rewrite existsb_app. unfold lookupBool.
    rewrite lookup_empty. cbn.
    destruct (existsb (String.eqb id) sm), (existsb (String.eqb id) sp);
      reflexivity. }
  f_equal; apply List.filter_ext; intros id; rewrite E; reflexivity.
Qed.

Lemma synthesized_from_success fp sp sm dir t0 t :
  In t (synthesized fp sp sm dir t0) ->
  exists id,
    (In id sp /\ In t (pathElement (playlistPath id)))
    \/ (In id sm /\ In t (pathElement (modPathFinal fp dir id))).
Proof.
  unfold synthesized. destruct t0 as [|name| | | |]; try (intros []).
  destruct (Local name =? "playlists")%string.
  - intros Hin. apply in_flat_map in Hin as (id & Hid & Ht).
    exists id. left. split; assumption.
  - destruct (Local name =? "mods")%string; [|intros []].
    intros Hin. apply in_flat_map in Hin as (id & Hid & Ht).
    exists id. right. split; assumption.
Qed.

Lemma contentStage_result env name playlistIDs modIDs xmlWithIdsRemoved :
  (forall r, In (SendResponse r)
               (fst (contentStage env name playlistIDs modIDs
                       xmlWithIdsRemoved))
             -> Success r = false)
  /\ (forall failedItemIDs xmlToSave,
        snd (contentStage env name playlistIDs modIDs xmlWithIdsRemoved)
        = Some (failedItemIDs, xmlToSave) ->
        failedItemIDs
        = calculateFailedIDs playlistIDs modIDs
            (fst (fetched env playlistIDs modIDs))
            (snd (fetched env playlistIDs modIDs))
        /\ ((0 <? length playlistIDs)%nat || (0 <? length modIDs)%nat = false
            /\ xmlToSave = xmlWithIdsRemoved
            \/ exists configDirAbs,
                 addWorkshopPathsToXML (envCodec env) (envFilepath env)
                   xmlWithIdsRemoved (fst (fetched env playlistIDs modIDs))
                   (snd (fetched env playlistIDs modIDs)) configDirAbs
                 = Some xmlToSave)).
Proof.
  unfold contentStage, fetched.
  destruct ((0 <? length playlistIDs)%nat || (0 <? length modIDs)%nat) eqn:En.
  - destruct (envDownload env playlistIDs modIDs) as [[sp sm] err].
    cbn [fst snd].
    assert (Hsent : forall r,
              In (SendResponse r)
                ([SendStatusUpdate "workshop_download_start"]
                 ++ (if err then [SendStatusUpdate "workshop_download_error"]
                     else [])
                 ++ [SendStatusUpdate "workshop_download_complete"])
              -> Success r = false).
    { intros r. destruct err; cbn; intuition discriminate. }
    destruct (envAbs env _) as [configDirAbs|].
    + destruct (addWorkshopPathsToXML _ _ _ _ _ _) as [final|] eqn:Ea;
        cbn [fst snd].
      * split; [exact Hsent|]. intros f x [= <- <-]. split; [reflexivity|].
        right. exists configDirAbs. exact Ea.
      * split; [|discriminate]. intros r Hin.
        apply in_app_or in Hin as [Hin|[Hin|[]]]; [apply Hsent, Hin|].
        injection Hin as <-. reflexivity.
    + cbn [fst snd]. split; [|discriminate]. intros r Hin.
      apply in_app_or in Hin as [Hin|[Hin|[]]]; [apply Hsent, Hin|].
      injection Hin as <-. reflexivity.
  - cbn [fst snd]. split; [intros r []|].
    intros f x [= <- <-]. split; [|left; split; reflexivity].
    destruct playlistIDs, modIDs; try discriminate. reflexivity.
Qed.

Lemma launchStage_success cfg env name assignedPort failedItemIDs xmlToSave st r :
  In (SendResponse r)
    (snd (launchStage cfg env name assignedPort failedItemIDs xmlToSave st)) ->
  Success r = true ->
  FailedItemIDs r = failedItemIDs /\ AssignedPort r = assignedPort
  /\ In (SaveConfigFile name xmlToSave)
       (snd (launchStage cfg env name assignedPort failedItemIDs xmlToSave st)).
Proof.
  unfold launchStage. destruct (envSaved env); cbn [negb].
  2:{ cbn. intros [[= <-]|[]]. discriminate. }
  destruct (assignPort cfg assignedPort (ProcessManager.usedPorts st)) as [ok ports1].
  destruct ok; cbn [negb].
  2:{ cbn. intros [|[[= <-]|[|[]]]]; discriminate. }
  unfold stopExistingProcess. cbn [runningProcs ProcessManager.usedPorts].
  destruct (runningProcs st !! name) as [info|];
    destruct (envStarted env) as [process|]; cbn;
    intros Hin Hs; repeat (destruct Hin as [Hin|Hin]; try discriminate);
    try (injection Hin as <-; try discriminate; cbn; auto);
    try destruct Hin.
Qed.

(** C8. Whenever a start workflow reports success, the failed list of
    its response consists exactly of the extracted ids (playlist ids,
    then mod ids, in order and with duplicates) that are in neither
    success list of the fetch, the whole list being empty when no id was
    extracted; and the document it saved is the extracted document with,
    before the end tags of the containers, elements synthesized for ids
    of the success lists only. *)
Theorem start_reports_failed_ids
  (cfg : Config) (env : StartEnv) (data : StartServerPayload) (st : State)
  (r : ResponsePayload) :
  In (SendResponse r) (snd (handleStartServerProcess cfg env data st)) ->
  Success r = true ->
  exists assignedPort xmlWithPort playlistIDs modIDs xmlWithIdsRemoved
         xmlToSave,
    findAvailablePort (MinPort cfg) (MaxPort cfg) (ProcessManager.usedPorts st)
    = Some (Found assignedPort)
    /\ updateXmlPort (envCodec env) (StartConfig data) assignedPort
       = Some xmlWithPort
    /\ extractWorkshopIDsAndModifyXML (envCodec env) xmlWithPort
       = Some (playlistIDs, modIDs, xmlWithIdsRemoved)
    /\ AssignedPort r = assignedPort
    /\ FailedItemIDs r
       = List.filter
           (fun id =>
              negb (inList (fst (fetched env playlistIDs modIDs)
                            ++ snd (fetched env playlistIDs modIDs)) id))
           (playlistIDs ++ modIDs)
    /\ In (SaveConfigFile (StartName data) xmlToSave)
         (snd (handleStartServerProcess cfg env data st))
    /\ (playlistIDs ++ modIDs = [] /\ xmlToSave = xmlWithIdsRemoved
        \/ exists configDirAbs toks,
             Decode (envCodec env) xmlWithIdsRemoved = mkRun toks EOF
             /\ Encode (envCodec env)
                  (flat_map
                     (fun t =>
                        synthesized (envFilepath env)
                          (fst (fetched env playlistIDs modIDs))
                          (snd (fetched env playlistIDs modIDs))
                          configDirAbs t ++ [t])
                     toks)
                = Some xmlToSave
             /\ forall t0 t,
                  In t (synthesized (envFilepath env)
                          (fst (fetched env playlistIDs modIDs))
                          (snd (fetched env playlistIDs modIDs))
                          configDirAbs t0) ->
                  exists id,
                    (In id (fst (fetched env playlistIDs modIDs))
                     /\ In t (pathElement (playlistPath id)))
                    \/ (In id (snd (fetched env playlistIDs modIDs))
                        /\ In t (pathElement
                                   (modPathFinal (envFilepath env)
                                      configDirAbs id)))).
Proof.
  unfold handleStartServerProcess.
  destruct (findAvailablePort _ _ _) as [[assignedPort|]|] eqn:Ef.
  2:{ cbn. intros [[= <-]|[]]. discriminate. }
  2:{ intros []. }
  destruct (updateXmlPort _ _ _) as [xmlWithPort|] eqn:Eu.
  2:{ cbn. intros [[= <-]|[]]. discriminate. }
  destruct (extractWorkshopIDsAndModifyXML _ _)
    as [[[playlistIDs modIDs] xmlWithIdsRemoved]|] eqn:Ee.
  2:{ cbn. intros [[= <-]|[]]. discriminate. }
  pose proof (contentStage_result env (StartName data) playlistIDs modIDs
                xmlWithIdsRemoved) as [Hsent Hres].
  destruct (contentStage env (StartName data) playlistIDs modIDs
              xmlWithIdsRemoved) as [sent [[failedItemIDs xmlToSave]|]].
  2:{ cbn [fst snd] in *. intros Hin Hs. rewrite (Hsent r Hin) in Hs.
      discriminate. }
  cbn [fst snd] in Hsent, Hres.
  destruct (Hres failedItemIDs xmlToSave eq_refl) as [Hfailed Hsaved].
  destruct (launchStage cfg env (StartName data) assignedPort failedItemIDs
              xmlToSave st) as [st' done] eqn:El.
  cbn [snd]. intros Hin Hs.
  apply in_app_or in Hin as [Hin|Hin].
  { rewrite (Hsent r Hin) in Hs. discriminate. }
  pose proof (launchStage_success cfg env (StartName data) assignedPort
                failedItemIDs xmlToSave st r) as Hl.
  rewrite El in Hl. cbn [snd] in Hl. destruct (Hl Hin Hs) as (H1 & H2 & H3).
  exists assignedPort, xmlWithPort, playlistIDs, modIDs, xmlWithIdsRemoved,
         xmlToSave.
  repeat split; try reflexivity; try assumption.
  - rewrite H1, Hfailed. apply calculateFailedIDs_filter.
  - apply in_or_app. right. exact H3.
  - destruct Hsaved as [[Hnone ->]|[configDirAbs Ha]].
    + left. split; [|reflexivity].
      destruct playlistIDs, modIDs; try discriminate. reflexivity.
    + right. exists configDirAbs.
      destruct (Decode (envCodec env) xmlWithIdsRemoved) as [toks fin] eqn:Ed.
      destruct fin.
      * exists toks. split; [reflexivity|].
        unfold addWorkshopPathsToXML in Ha. rewrite Ed in Ha.
        cbn [runEnd runTokens] in Ha. rewrite addLoop_flat in Ha.
        split; [exact Ha|].
        intros t0 t. apply synthesized_from_success.
      * unfold addWorkshopPathsToXML in Ha. rewrite Ed in Ha. discriminate.
Qed.

Lemma start_reports_failed_ids_witness :
  exists assignedPort xmlWithPort playlistIDs modIDs xmlWithIdsRemoved
         xmlToSave,
    findAvailablePort 9000 9000 ∅
    = Some (Found assignedPort)
    /\ updateXmlPort GoXml.codec (StartConfig startData) assignedPort
       = Some xmlWithPort
    /\ extractWorkshopIDsAndModifyXML GoXml.codec xmlWithPort
       = Some (playlistIDs, modIDs, xmlWithIdsRemoved)
    /\ AssignedPort startResponse = assignedPort
    /\ FailedItemIDs startResponse
       = List.filter
           (fun id =>
              negb (inList (fst (fetched startEnv playlistIDs modIDs)
                            ++ snd (fetched startEnv playlistIDs modIDs)) id))
           (playlistIDs ++ modIDs)
    /\ In (SaveConfigFile "a" xmlToSave)
         (snd (handleStartServerProcess (mkConfig 9000 9000) startEnv startData
              InitializeProcessManager))
    /\ (playlistIDs ++ modIDs = [] /\ xmlToSave = xmlWithIdsRemoved
        \/ exists configDirAbs toks,
             Decode GoXml.codec xmlWithIdsRemoved = mkRun toks EOF
             /\ Encode GoXml.codec
                  (flat_map
                     (fun t =>
                        synthesized unixFilepath
                          (fst (fetched startEnv playlistIDs modIDs))
                          (snd (fetched startEnv playlistIDs modIDs))
                          configDirAbs t ++ [t])
                     toks)
                = Some xmlToSave
             /\ forall t0 t,
                  In t (synthesized unixFilepath
                          (fst (fetched startEnv playlistIDs modIDs))
                          (snd (fetched startEnv playlistIDs modIDs))
                          configDirAbs t0) ->
                  exists id,
                    (In id (fst (fetched startEnv playlistIDs modIDs))
                     /\ In t (pathElement (playlistPath id)))
                    \/ (In id (snd (fetched startEnv playlistIDs modIDs))
                        /\ In t (pathElement
                                   (modPathFinal unixFilepath
                                      configDirAbs id)))).
Proof.
  apply (start_reports_failed_ids (mkConfig 9000 9000) startEnv startData
           InitializeProcessManager startResponse).
  - vm_compute. right. right. right. left. reflexivity.
  - reflexivity.
Defined.

(** ** The registry under the handlers and the watch tasks *)

Import Supervisor.

Lemma spawned_app a b : spawned (a ++ b) = spawned a ++ spawned b.
Proof. unfold spawned. apply flat_map_app. Qed.

Lemma lookup_delete_weaken (procs : gmap string RunningProcessInfo) name k info :
  delete name procs !! k = Some info -> procs !! k = Some info.
Proof. intros H. apply lookup_delete_Some in H as [_ H]. exact H. Qed.

Lemma stopExistingProcess_registry cfg name st :
  (runningProcs (fst (stopExistingProcess cfg name st)) = runningProcs st
   \/ runningProcs (fst (stopExistingProcess cfg name st))
      = delete name (runningProcs st))
  /\ spawned (snd (stopExistingProcess cfg name st)) = [].
Proof.
  unfold stopExistingProcess.
  destruct (runningProcs st !! name); cbn; auto.
Qed.

Lemma launchStage_registry cfg env name port failed xml st :
  registryStep name (envStarted env) (runningProcs st)
    (runningProcs (fst (launchStage cfg env name port failed xml st)))
    (snd (launchStage cfg env name port failed xml st)).
Proof.
  unfold launchStage. destruct (envSaved env); cbn [negb];
    [|left; cbn; auto].
  destruct (assignPort cfg port (ProcessManager.usedPorts st)) as [ok ports1].
  destruct ok; cbn [negb]; [|left; cbn; auto].
  pose proof (stopExistingProcess_registry cfg name
                (mkState (runningProcs st) ports1)) as [Hprocs Hsp].
  destruct (stopExistingProcess cfg name (mkState (runningProcs st) ports1))
    as [st2 stopped].
  cbn [fst snd runningProcs] in Hprocs, Hsp.
  destruct (envStarted env) as [process|]; cbn [fst snd runningProcs].
  - right. exists process, port. split; [reflexivity|]. split.
    + rewrite !spawned_app, Hsp. reflexivity.
    + destruct Hprocs as [->| ->]; [reflexivity|apply insert_delete_eq].
  - left. split.
    + rewrite !spawned_app, Hsp. reflexivity.
    + intros k info. destruct Hprocs as [->| ->]; [auto|].
      apply lookup_delete_weaken.
Qed.

Lemma contentStage_spawns_none env name p m xml :
  spawned (fst (contentStage env name p m xml)) = [].
Proof.
  unfold contentStage.
  destruct ((0 <? length p)%nat || (0 <? length m)%nat); [|reflexivity].
  destruct (envDownload env p m) as [[sp sm] err].
  destruct (envAbs env _); [|destruct err; reflexivity].
  destruct (addWorkshopPathsToXML _ _ _ _ _ _); destruct err; reflexivity.
Qed.

Lemma handleStart_registry cfg env data st :
  registryStep (StartName data) (envStarted env) (runningProcs st)
    (runningProcs (fst (handleStartServerProcess cfg env data st)))
    (snd (handleStartServerProcess cfg env data st)).
Proof.
  unfold handleStartServerProcess.
  destruct (findAvailablePort _ _ _) as [[port|]|]; try (left; cbn; auto; fail).
  destruct (updateXmlPort _ _ _) as [xmlWithPort|]; [|left; cbn; auto].
  destruct (extractWorkshopIDsAndModifyXML _ _) as [[[p m] xml]|];
    [|left; cbn; auto].
  pose proof (contentStage_spawns_none env (StartName data) p m xml) as Hc.
  destruct (contentStage env (StartName data) p m xml)
    as [sent [[failed xmlToSave]|]]; cbn [fst snd] in *; [|left; auto].
  pose proof (launchStage_registry cfg env (StartName data) port failed
                xmlToSave st) as Hl.
  destruct (launchStage cfg env (StartName data) port failed xmlToSave st)
    as [st' done]. cbn [fst snd] in *.
  destruct Hl as [[Hs Hk]|(process & port' & He & Hs & Hp)].
  - left. rewrite spawned_app, Hc, Hs. auto.
  - right. exists process, port'. rewrite spawned_app, Hc, Hs. auto.
Qed.

Lemma handleStop_registry cfg data content st k info :
  runningProcs (fst (handleStopServerProcess cfg data content st)) !! k
  = Some info ->
  runningProcs st !! k = Some info.
Proof.
  unfold handleStopServerProcess.
  destruct (negb (Confirmed data) && (dummyPlayerCount >? 0)); [auto|].
  destruct (runningProcs st !! StopName data); cbn [fst runningProcs]; [|auto].
  apply lookup_delete_weaken.
Qed.

Lemma waitForProcessExit_registry cfg name process port waitErr started st :
  registryStep name started (runningProcs st)
    (runningProcs
       (fst (waitForProcessExit cfg name process port waitErr started st)))
    (snd (waitForProcessExit cfg name process port waitErr started st)).
Proof.
  unfold waitForProcessExit, exitCheck.
  destruct (runningProcs st !! name) as [info|]; [|left; cbn; auto].
  destruct (Pid (InfoProcess info) =? Pid process); [|left; cbn; auto].
  unfold restart. destruct started as [newProcess|]; cbn [fst snd runningProcs].
  - right. exists newProcess, port. split; [reflexivity|].
    split; [reflexivity|]. apply insert_delete_eq.
  - left. split; [reflexivity|]. intros k i. apply lookup_delete_weaken.
Qed.

Lemma watchesAgree_step name started ws ws' procs procs' effects :
  watchesAgree ws procs ->
  (forall w, In w ws' -> In w ws) ->
  freshPid started ws' = true ->
  registryStep name started procs procs' effects ->
  watchesAgree (ws' ++ spawned effects) procs'.
Proof.
  intros Hag Hsub Hfresh [[Hs Hk]|(process & port & -> & Hs & ->)];
    rewrite Hs.
  - rewrite app_nil_r. intros w info Hw Hl Hp.
    apply (Hag w info); auto.
  - intros w info Hw Hl Hp. apply in_app_or in Hw as [Hw|[<-|[]]].
    + destruct (decide (name = watchName w)) as [Heq|Hne].
      * rewrite <- Heq, lookup_insert_eq in Hl. injection Hl as <-. cbn in Hp.
        cbn [freshPid] in Hfresh.
        rewrite forallb_forall in Hfresh. specialize (Hfresh w Hw).
        apply negb_true_iff, Z.eqb_neq in Hfresh. congruence.
      * rewrite lookup_insert_ne in Hl by exact Hne.
        apply (Hag w info); auto.
    + cbn in Hl. rewrite lookup_insert_eq in Hl. injection Hl as <-.
      reflexivity.
Qed.

Lemma watchesAgree_act cfg a s s' :
  watchesAgree (watches s) (runningProcs (state s)) ->
  act cfg a s = Some s' ->
  watchesAgree (watches s') (runningProcs (state s')).
Proof.
  intros Hag. destruct a as [env data|data content|i waitErr started];
    cbn [act].
  - destruct (freshPid (envStarted env) (watches s)) eqn:Hf; [|discriminate].
    pose proof (handleStart_registry cfg env data (state s)) as Hr.
    destruct (handleStartServerProcess cfg env data (state s)) as [st' effects].
    intros [= <-]. cbn [watches state fst snd] in *.
    eapply watchesAgree_step; eauto.
  - pose proof (handleStop_registry cfg data content (state s)) as Hr.
    destruct (handleStopServerProcess cfg data content (state s))
      as [st' effects].
    intros [= <-]. cbn [watches state fst] in *.
    intros w info Hw Hl Hp. apply (Hag w info); auto.
  - destruct (watches s !! i) as [w|] eqn:Hi; [|discriminate].
    destruct (freshPid started (delete i (watches s))) eqn:Hf; [|discriminate].
    pose proof (waitForProcessExit_registry cfg (watchName w) (watchProcess w)
                  (watchPort w) waitErr started (state s)) as Hr.
    destruct (waitForProcessExit cfg (watchName w) (watchProcess w)
                (watchPort w) waitErr started (state s)) as [st' effects].
    intros [= <-]. cbn [watches state fst snd] in *.
    eapply watchesAgree_step; eauto.
    intros w' Hw'. apply list_elem_of_In. apply list_elem_of_In in Hw'.
    eapply list_elem_of_delete_inv, Hw'.
Qed.

Lemma watchesAgree_reachable cfg s :
  reachable cfg s -> watchesAgree (watches s) (runningProcs (state s)).
Proof.
  intros [actions Hrun].
  assert (Hgen : forall s0,
            watchesAgree (watches s0) (runningProcs (state s0)) ->
            runActions cfg actions s0 = Some s ->
            watchesAgree (watches s) (runningProcs (state s))).
  { clear Hrun. induction actions as [|a rest IH]; intros s0 H0; cbn [runActions].
    - intros [= <-]. exact H0.
    - destruct (act cfg a s0) as [s1|] eqn:Ea; [|discriminate].
      apply IH. eapply watchesAgree_act; eassumption. }
  apply (Hgen initial); [|exact Hrun].
  intros w info [].
Qed.

(** C6. In every state the supervisor reaches, when the process of a
    watch task exits while its record is still registered and the
    restart succeeds, the record of that name is replaced in place: the
    registry afterwards is the registry before with, under the same
    name, the new process and the port the crashed process held. No
    other name and no port mark changes, and the new watch task is
    spawned for that record. *)
Theorem restart_keeps_port
  (cfg : Config) (s : Supervisor.Sys) (i : nat) (w : Watch)
  (info : RunningProcessInfo) (waitErr : string) (newProcess : Process) :
  reachable cfg s ->
  watches s !! i = Some w ->
  runningProcs (state s) !! watchName w = Some info ->
  Pid (InfoProcess info) = Pid (watchProcess w) ->
  runningProcs
    (fst (waitForProcessExit cfg (watchName w) (watchProcess w) (watchPort w)
            waitErr (Some newProcess) (state s)))
  = <[watchName w := mkInfo newProcess (Port info)]> (runningProcs (state s))
  /\ runningProcs
       (fst (waitForProcessExit cfg (watchName w) (watchProcess w)
               (watchPort w) waitErr (Some newProcess) (state s)))
     !! watchName w
     = Some (mkInfo newProcess (Port info))
  /\ (forall other, other <> watchName w ->
        runningProcs
          (fst (waitForProcessExit cfg (watchName w) (watchProcess w)
                  (watchPort w) waitErr (Some newProcess) (state s)))
        !! other
        = runningProcs (state s) !! other)
  /\ ProcessManager.usedPorts
       (fst (waitForProcessExit cfg (watchName w) (watchProcess w)
               (watchPort w) waitErr (Some newProcess) (state s)))
     = ProcessManager.usedPorts (state s)
  /\ spawned
       (snd (waitForProcessExit cfg (watchName w) (watchProcess w)
               (watchPort w) waitErr (Some newProcess) (state s)))
     = [mkWatch (watchName w) newProcess (Port info)].
Proof.
  intros Hreach Hi Hinfo Hpid.
  assert (Hport : Port info = watchPort w).
  { apply (watchesAgree_reachable cfg s Hreach w info); auto.
    apply list_elem_of_In. eapply list_elem_of_lookup_2, Hi. }
  unfold waitForProcessExit, exitCheck. rewrite Hinfo.
  apply Z.eqb_eq in Hpid. rewrite Hpid.
  unfold restart. cbn [fst snd runningProcs ProcessManager.usedPorts spawned flat_map app].
  rewrite insert_delete_eq, Hport.
  split; [reflexivity|]. split; [apply lookup_insert_eq|].
  split; [|split; reflexivity].
  intros other Hne. apply lookup_insert_ne. congruence.
Qed.

Lemma restart_keeps_port_witness :
  runningProcs
    (fst (waitForProcessExit (mkConfig 9000 9000) "a" (mkProcess 4242) 9000
            "exit status 1" (Some (mkProcess 4343)) (state afterStart)))
  = <["a" := mkInfo (mkProcess 4343) 9000]> (runningProcs (state afterStart)).
Proof.
  apply (restart_keeps_port (mkConfig 9000 9000) afterStart 0
           (mkWatch "a" (mkProcess 4242) 9000)
           (mkInfo (mkProcess 4242) 9000) "exit status 1" (mkProcess 4343)).
  - exists [Start startEnv startData]. vm_compute. reflexivity.
  - reflexivity.
  - reflexivity.
  - reflexivity.
Defined.

(** ** The content fetcher *)

Section FetchFacts.
Context {W : Type} (host : Host W) (fp : Filepath).

(** The ids on record after the output was read are the ids of the
    success markers, each recorded as [true]. *)
Lemma scan_marked lines : forall m0,
  allTrue m0 ->
  allTrue (fold_left (scanLine host) lines m0)
  /\ forall id,
       is_Some (fold_left (scanLine host) lines m0 !! id)
       <-> is_Some (m0 !! id)
           \/ exists line, In line lines /\ FindSuccessID host line = Some id.
Proof.
  induction lines as [|line rest IH]; intros m0 H0; cbn [fold_left].
  - split; [exact H0|]. intros id. split; [auto|].
    intros [H|(line & [] & _)]. exact H.
  - assert (H1 : allTrue (scanLine host m0 line)).
    { unfold scanLine. destruct (FindSuccessID host line) as [sid|]; [|exact H0].
      destruct (m0 !! sid) eqn:E; [exact H0|].
      intros id b. rewrite lookup_insert.
      destruct (decide (sid = id)); [intros [= <-]; reflexivity|apply H0]. }
    destruct (IH _ H1) as [Ht Hl]. split; [exact Ht|].
    intros id. rewrite Hl. unfold scanLine.
    destruct (FindSuccessID host line) as [sid|] eqn:Ef.
    + destruct (m0 !! sid) as [b|] eqn:E.
      * split.
        -- intros [H|(l & Hin & Hf)]; [auto|]. right. exists l. cbn. auto.
        -- intros [H|(l & [<-|Hin] & Hf)]; [auto| |right; exists l; auto].
           left. rewrite Ef in Hf. injection Hf as <-. rewrite E. eauto.
      * rewrite lookup_insert. destruct (decide (sid = id)) as [->|Hne].
        -- split; [|intros _; left; eauto].
           intros _. right. exists line. cbn. auto.
        -- split.
           ++ intros [H|(l & Hin & Hf)]; [auto|]. right. exists l. cbn. auto.
           ++ intros [H|(l & [<-|Hin] & Hf)]; [auto| |right; exists l; auto].
              congruence.
    + split.
      * intros [H|(l & Hin & Hf)]; [auto|]. right. exists l. cbn. auto.
      * intros [H|(l & [<-|Hin] & Hf)]; [auto|congruence|].
        right. exists l. auto.
Qed.

Lemma markItems_lookup kind ids : forall (m : gmap string string) id,
  markItems kind ids m !! id
  = if inList ids id then Some kind else m !! id.
Proof.
  unfold markItems. induction ids as [|x rest IH]; intros m id;
    cbn [fold_left]; [reflexivity|].
  rewrite IH. unfold inList. cbn [existsb]. fold (inList rest id).
  destruct (inList rest id); [rewrite orb_true_r; reflexivity|].
  rewrite orb_false_r, lookup_insert.
  destruct (decide (x = id)) as [->|Hne].
  - rewrite String.eqb_refl. reflexivity.
  - destruct (String.eqb_spec id x); [congruence|reflexivity].
Qed.

Lemma inList_In l id : inList l id = true <-> In id l.
Proof.
  unfold inList. rewrite existsb_exists. split.
  - intros (x & Hin & E). apply String.eqb_eq in E. subst. exact Hin.
  - intros Hin. exists id. split; [exact Hin|apply String.eqb_refl].
Qed.

(** The type [allItems] holds for an id: [mod] for a requested mod,
    [playlist] for a requested playlist that is not also a requested
    mod, none for an id that was not requested. *)
Lemma buildAllItems_lookup playlistIDs modIDs id itemType :
  buildAllItems playlistIDs modIDs !! id = Some itemType
  <-> (itemType = "mod" /\ In id modIDs)
      \/ (itemType = "playlist" /\ In id playlistIDs /\ ~ In id modIDs).
Proof.
  unfold buildAllItems. rewrite !markItems_lookup, lookup_empty.
  destruct (inList modIDs id) eqn:Em.
  - apply inList_In in Em. split.
    + intros [= <-]. left. auto.
    + intros [[-> _]|(_ & _ & Hn)]; [reflexivity|contradiction].
  - assert (Hn : ~ In id modIDs).
    { intros H. apply inList_In in H. congruence. }
    destruct (inList playlistIDs id) eqn:Ep.
    + apply inList_In in Ep. split.
      * intros [= <-]. right. auto.
      * intros [[_ H]|(-> & _)]; [contradiction|reflexivity].
    + split; [discriminate|].
      intros [[_ H]|(_ & H & _)]; [contradiction|].
      apply inList_In in H. congruence.
Qed.

End FetchFacts.

Section MaterializeFacts.
Context {W : Type} (host : Host W) (fp : Filepath).
Context (base playlistDir modDir : string).
Context (marked : gmap string bool) (allItems : gmap string string).

Let step := materializeStep host fp base playlistDir modDir marked allItems.

Local Abbreviation handledOK :=
  (SteamCmd.handledOK host fp base playlistDir modDir marked allItems).

Lemma step_final w (fm : gmap string bool) id :
  (handledOK w id /\ snd (step (w, fm) id) = <[id := true]> fm)
  \/ (~ handledOK w id /\ snd (step (w, fm) id) = fm).
Proof.
  unfold step, materializeStep, handledOK.
  destruct (lookupBool marked id); cbn [negb];
    [|right; split; [intros [H _]; discriminate|reflexivity]].
  destruct (allItems !! id) as [itemType|];
    [|right; split; [intros (_ & t & H & _); discriminate|reflexivity]].
  destruct ((itemType =? "playlist")%string || (itemType =? "mod")%string)
    eqn:Et;
    [|right; split; [|reflexivity]].
  2:{ intros (_ & t & [= <-] & H & _). congruence. }
  destruct (materialize host fp base playlistDir modDir w itemType id)
    as [w' ok] eqn:Em.
  destruct ok; cbn [snd].
  - left. split; [|reflexivity]. split; [reflexivity|].
    exists itemType. rewrite Em. auto.
  - right. split; [|reflexivity].
    intros (_ & t & [= <-] & _ & H). rewrite Em in H. discriminate.
Qed.

Lemma step_world w (fm1 fm2 : gmap string bool) id :
  fst (step (w, fm1) id) = fst (step (w, fm2) id).
Proof.
  unfold step, materializeStep.
  destruct (lookupBool marked id); cbn [negb]; [|reflexivity].
  destruct (allItems !! id) as [itemType|]; [|reflexivity].
  destruct (_ || _); [|reflexivity].
  destruct (materialize _ _ _ _ _ _ _ _) as [w' ok].
  destruct ok; reflexivity.
Qed.

Lemma fold_world l : forall w (fm1 fm2 : gmap string bool),
  fst (fold_left step l (w, fm1)) = fst (fold_left step l (w, fm2)).
Proof.
  induction l as [|x rest IH]; intros w fm1 fm2; [reflexivity|].
  cbn [fold_left]. pose proof (step_world w fm1 fm2 x) as Hw.
  destruct (step (w, fm1) x) as [w1 f1], (step (w, fm2) x) as [w2 f2].
  cbn [fst] in Hw. subst w2. apply IH.
Qed.

(** After the loop, [finalSuccessMap] holds as [true] exactly the ids
    it held before and the ids the loop handled without error. *)
Lemma loop_final l : forall w (fm : gmap string bool) id,
  snd (fold_left step l (w, fm)) !! id = Some true
  <-> fm !! id = Some true
      \/ exists before after,
           l = before ++ id :: after
           /\ handledOK (fst (fold_left step before (w, ∅))) id.
Proof.
  induction l as [|x rest IH]; intros w fm id.
  - cbn. split; [auto|]. intros [H|(b & a & H & _)]; [exact H|].
    destruct b; discriminate.
  - cbn [fold_left]. destruct (step (w, fm) x) as [w1 fm1] eqn:Es.
    rewrite IH.
    assert (Hw1 : forall b (f : gmap string bool),
              fst (fold_left step (x :: b) (w, f))
              = fst (fold_left step b (w1, ∅))).
    { intros b f. cbn [fold_left].
      pose proof (step_world w f fm x) as Hw. rewrite Es in Hw.
      destruct (step (w, f) x) as [w2 f2]. cbn [fst] in Hw. subst w2.
      apply fold_world. }
    pose proof (step_final w fm x) as Hx. rewrite Es in Hx. cbn [snd] in Hx.
    split.
    + intros [H|(b & a & -> & Hok)].
      * destruct Hx as [[Hok ->]|[_ ->]]; [|auto].
        rewrite lookup_insert in H.
        destruct (decide (x = id)) as [->|_]; [|auto].
        right. exists [], rest. split; [reflexivity|exact Hok].
      * right. exists (x :: b), a. split; [reflexivity|].
        rewrite Hw1. exact Hok.
    + intros [H|(b & a & Hl & Hok)].
      * left. destruct Hx as [[_ ->]|[_ ->]]; [|exact H].
        rewrite lookup_insert. destruct (decide (x = id)); [reflexivity|exact H].
      * destruct b as [|y b]; cbn [app] in Hl; injection Hl as <- ->.
        -- left. cbn in Hok. destruct Hx as [[_ ->]|[Hno _]];
             [apply lookup_insert_eq|contradiction].
        -- right. exists b, a. split; [reflexivity|].
           rewrite Hw1 in Hok. exact Hok.
Qed.

(** The last loop sorts the ids of [finalSuccessMap] by their type. *)
Lemma collect_filter (final : gmap string bool) l : forall p0 m0,
  fold_left (collectStep final allItems) l (p0, m0)
  = (p0 ++ List.filter
             (fun id => lookupBool final id
                        && (default EmptyString (allItems !! id)
                            =? "playlist")%string) l,
     m0 ++ List.filter
             (fun id => lookupBool final id
                        && negb (default EmptyString (allItems !! id)
                                 =? "playlist")%string
                        && (default EmptyString (allItems !! id)
                            =? "mod")%string) l).
Proof.
  induction l as [|x rest IH]; intros p0 m0; cbn [fold_left List.filter].
  - rewrite !app_nil_r. reflexivity.
  - unfold collectStep at 2. destruct (lookupBool final x); cbn [andb].
    + destruct (default EmptyString (allItems !! x) =? "playlist")%string;
        cbn [negb andb].
      * rewrite IH, <- app_assoc. reflexivity.
      * destruct (default EmptyString (allItems !! x) =? "mod")%string;
          rewrite IH, <- ?app_assoc; reflexivity.
    + apply IH.
Qed.

End MaterializeFacts.

Lemma NoDup_two_filters (f g : string -> bool) (l : list string) :
  NoDup l -> (forall x, f x = true -> g x = false) ->
  NoDup (List.filter f l ++ List.filter g l).
Proof.
  intros Hnd Hfg. apply NoDup_app. split; [|split].
  - apply NoDup_ListNoDup, List.NoDup_filter, NoDup_ListNoDup, Hnd.
  - intros x Hx Hx'. apply list_elem_of_In, filter_In in Hx as [_ Hf].
    apply list_elem_of_In, filter_In in Hx' as [_ Hg].
    rewrite (Hfg x Hf) in Hg. discriminate.
  - apply NoDup_ListNoDup, List.NoDup_filter, NoDup_ListNoDup, Hnd.
Qed.

Lemma rangeOrder_keys {W : Type} (host : Host W) (m : gmap string bool) :
  (forall m : gmap string bool,
      Permutation (rangeOrder host m) (map fst (map_to_list m))) ->
  NoDup (rangeOrder host m)
  /\ forall id, In id (rangeOrder host m) <-> is_Some (m !! id).
Proof.
  intros Hperm. split.
  - rewrite (Hperm m). apply NoDup_fst_map_to_list.
  - intros id. rewrite <- list_elem_of_In, (Hperm m).
    change (map fst (map_to_list m)) with ((map_to_list m).*1).
    rewrite list_elem_of_fmap. split.
    + intros ([k b] & -> & Hin). apply elem_of_map_to_list in Hin.
      cbn. eauto.
    + intros [b Hb]. exists (id, b). split; [reflexivity|].
      apply elem_of_map_to_list, Hb.
Qed.

Lemma materialize_ok {W : Type} (host : Host W) fp base playlistDir modDir
  (w : W) itemType id :
  snd (materialize host fp base playlistDir modDir w itemType id) = true
  <-> Stat host w (sourcePath fp base itemType id) = StatOk
      /\ snd (RemoveAll host w (targetPath fp playlistDir modDir itemType id))
         <> RemoveOtherError
      /\ snd (copyDir host
                (fst (RemoveAll host w
                        (targetPath fp playlistDir modDir itemType id)))
                (sourcePath fp base itemType id)
                (targetPath fp playlistDir modDir itemType id))
         = false.
Proof.
  unfold materialize.
  destruct (Stat host w _); cbn [snd];
    try (split; [discriminate|intros [H _]; discriminate]).
  destruct (RemoveAll host w _) as [w1 r]. cbn [fst snd].
  destruct (copyDir host w1 _ _) as [w2 e]. cbn [snd].
  destruct r, e; cbn [snd]; split; try discriminate; try tauto;
    try (intros (_ & H & _); congruence);
    try (intros (_ & _ & H); congruence);
    intros _; repeat split; discriminate.
Qed.

(** The file system [materialize] leaves: untouched when the source is
    missing or cannot be examined, what the removal left when the
    removal failed, and what the copy left otherwise. *)
Lemma materialize_world {W : Type} (host : Host W) fp base playlistDir modDir
  (w : W) itemType id :
  fst (materialize host fp base playlistDir modDir w itemType id)
  = match Stat host w (sourcePath fp base itemType id) with
    | StatOk =>
        match snd (RemoveAll host w
                     (targetPath fp playlistDir modDir itemType id)) with
        | RemoveOtherError =>
            fst (RemoveAll host w
                   (targetPath fp playlistDir modDir itemType id))
        | _ =>
            fst (copyDir host
                   (fst (RemoveAll host w
                           (targetPath fp playlistDir modDir itemType id)))
                   (sourcePath fp base itemType id)
                   (targetPath fp playlistDir modDir itemType id))
        end
    | _ => w
    end.
Proof.
  unfold materialize.
  destruct (Stat host w _); try reflexivity.
  destruct (RemoveAll host w _) as [w1 r]. cbn [fst snd].
  destruct (copyDir host w1 _ _) as [w2 e]. cbn [fst].
  destruct r, e; reflexivity.
Qed.

(** The file system after one more id of the loop. *)
Lemma worldAfter_snoc {W : Type} (host : Host W) fp base playlistDir modDir
  (marked : gmap string bool) (allItems : gmap string string)
  (before : list string) (id : string) (w0 : W) :
  (forall x t, allItems !! x = Some t ->
     (t =? "playlist")%string || (t =? "mod")%string = true) ->
  worldAfter host fp base playlistDir modDir marked allItems
    (before ++ [id]) w0
  = if lookupBool marked id then
      match allItems !! id with
      | Some itemType =>
          fst (materialize host fp base playlistDir modDir
                 (worldAfter host fp base playlistDir modDir marked allItems
                    before w0)
                 itemType id)
      | None =>
          worldAfter host fp base playlistDir modDir marked allItems before w0
      end
    else worldAfter host fp base playlistDir modDir marked allItems before w0.
Proof.
  intros Htype. unfold worldAfter. rewrite fold_left_app. cbn [fold_left].
  destruct (fold_left
              (materializeStep host fp base playlistDir modDir marked allItems)
              before (w0, ∅)) as [w fm].
  cbn [fst]. unfold materializeStep.
  destruct (lookupBool marked id); cbn [negb]; [|reflexivity].
  destruct (allItems !! id) as [itemType|] eqn:Et; [|reflexivity].
  rewrite (Htype id itemType Et).
  destruct (materialize host fp base playlistDir modDir w itemType id)
    as [w' ok].
  destruct ok; reflexivity.
Qed.



(** * Further properties of the port table, the handlers and the passes *)

(** ** The port table under its three calls *)

Import PortTable.

Lemma isUsed_delete (used : gmap Z bool) p q :
  isUsed (delete p used) q = if decide (p = q) then false else isUsed used q.
Proof.
  unfold isUsed. rewrite lookup_delete. destruct (decide (p = q)); reflexivity.
Qed.

Lemma isUsed_assignPort cfg p (used : gmap Z bool) q :
  isUsed (snd (assignPort cfg p used)) q
  = isUsed used q
    || ((q =? p) && (MinPort cfg <=? p) && (p <=? MaxPort cfg)).
Proof.
  unfold assignPort.
  destruct (Z.ltb_spec p (MinPort cfg)); cbn [orb snd].
  { replace (MinPort cfg <=? p) with false by (symmetry; apply Z.leb_gt; lia).
    rewrite andb_false_r, orb_false_r. reflexivity. }
  destruct (Z.gtb_spec p (MaxPort cfg)); cbn [snd].
  { replace (p <=? MaxPort cfg) with false by (symmetry; apply Z.leb_gt; lia).
    rewrite andb_false_r, orb_false_r. reflexivity. }
  replace (MinPort cfg <=? p) with true by (symmetry; apply Z.leb_le; lia).
  replace (p <=? MaxPort cfg) with true by (symmetry; apply Z.leb_le; lia).
  rewrite !andb_true_r.
  destruct (isUsed used p) eqn:E; cbn [snd].
  - destruct (Z.eqb_spec q p) as [->|]; [rewrite E|rewrite orb_false_r];
      reflexivity.
  - rewrite isUsed_insert. destruct (decide (p = q)) as [->|Hne].
    + rewrite Z.eqb_refl, orb_true_r. reflexivity.
    + replace (q =? p) with false by (symmetry; apply Z.eqb_neq; congruence).
      rewrite orb_false_r. reflexivity.
Qed.

Lemma isUsed_releasePort cfg p (used : gmap Z bool) q :
  isUsed (releasePort cfg p used) q
  = isUsed used q
    && negb ((q =? p) && (MinPort cfg <=? p) && (p <=? MaxPort cfg)).
Proof.
  unfold releasePort.
  destruct (Z.ltb_spec p (MinPort cfg)); cbn [orb].
  { replace (MinPort cfg <=? p) with false by (symmetry; apply Z.leb_gt; lia).
    rewrite andb_false_r, andb_true_r. reflexivity. }
  destruct (Z.gtb_spec p (MaxPort cfg)).
  { replace (p <=? MaxPort cfg) with false by (symmetry; apply Z.leb_gt; lia).
    rewrite andb_false_r, andb_true_r. reflexivity. }
  replace (MinPort cfg <=? p) with true by (symmetry; apply Z.leb_le; lia).
  replace (p <=? MaxPort cfg) with true by (symmetry; apply Z.leb_le; lia).
  rewrite !andb_true_r.
  destruct (isUsed used p) eqn:E; cbn [negb].
  - rewrite isUsed_delete. destruct (decide (p = q)) as [->|Hne].
    + rewrite Z.eqb_refl, andb_false_r. reflexivity.
    + replace (q =? p) with false by (symmetry; apply Z.eqb_neq; congruence).
      rewrite andb_true_r. reflexivity.
  - destruct (Z.eqb_spec q p) as [->|]; [rewrite E|rewrite andb_true_r];
      reflexivity.
Qed.

(** X1. A port that [findAvailablePort] returned for the configured
    range is accepted by [assignPort] when no other call came between,
    and the next search then returns the next free port above it: the
    ports between the two are used, and when no port above is free the
    search reports that no port is available. *)
Theorem find_assign_find_next (cfg : Config) (used : gmap Z bool) (p : Z) :
  MinPort cfg <= MaxPort cfg ->
  GoInt.int_min <= MinPort cfg -> MaxPort cfg < GoInt.int_max ->
  findAvailablePort (MinPort cfg) (MaxPort cfg) used = Some (Found p) ->
  fst (assignPort cfg p used) = true
  /\ match findAvailablePort (MinPort cfg) (MaxPort cfg)
             (snd (assignPort cfg p used)) with
     | Some (Found q) =>
         p < q <= MaxPort cfg /\ isUsed used q = false
         /\ forall r, p < r < q -> isUsed used r = true
     | Some NoPortAvailable =>
         forall r, p < r <= MaxPort cfg -> isUsed used r = true
     | None => False
     end.
Proof.
  intros Hle Hlo Hhi Hfind.
  destruct (findAvailablePort_result (MinPort cfg) (MaxPort cfg) used
              Hle Hlo Hhi) as [(p0 & E & Hp & Hfree & Hbelow)|[E _]];
    [|congruence].
  rewrite E in Hfind. injection Hfind as ->.
  assert (Hassign : assignPort cfg p used = (true, <[p := true]> used)).
  { unfold assignPort.
    replace (p <? MinPort cfg) with false by (symmetry; apply Z.ltb_ge; lia).
    replace (p >? MaxPort cfg) with false
      by (symmetry; rewrite Z.gtb_ltb; apply Z.ltb_ge; lia).
    cbn [orb]. rewrite Hfree. reflexivity. }
  rewrite Hassign. cbn [fst snd]. split; [reflexivity|].
  destruct (findAvailablePort_result (MinPort cfg) (MaxPort cfg)
              (<[p := true]> used) Hle Hlo Hhi)
    as [(q & E' & Hq & Hqfree & Hqbelow)|[E' Hall]]; rewrite E'.
  - rewrite isUsed_insert in Hqfree.
    destruct (decide (p = q)) as [|Hne]; [discriminate|].
    assert (Hpq : p < q).
    { destruct (Z.lt_ge_cases p q) as [|Hge]; [assumption|].
      assert (q < p) by lia.
      rewrite (Hbelow q) in Hqfree by lia. discriminate. }
    repeat split; try lia; [exact Hqfree|].
    intros r Hr. specialize (Hqbelow r ltac:(lia)).
    rewrite isUsed_insert in Hqbelow.
    destruct (decide (p = r)); [lia|exact Hqbelow].
  - intros r Hr. specialize (Hall r ltac:(lia)).
    rewrite isUsed_insert in Hall.
    destruct (decide (p = r)); [lia|exact Hall].
Qed.

Lemma find_assign_find_next_witness :
  fst (assignPort (mkConfig 9000 9002) 9000 (<[9001 := true]> ∅)) = true
  /\ findAvailablePort 9000 9002
       (snd (assignPort (mkConfig 9000 9002) 9000 (<[9001 := true]> ∅)))
     = Some (Found 9002).
Proof.
  pose proof (find_assign_find_next (mkConfig 9000 9002) (<[9001 := true]> ∅)
                9000) as H.
  cbn [MinPort MaxPort] in H.
  destruct H as [H1 H2];
    [lia|unfold GoInt.int_min; lia|unfold GoInt.int_max; lia|reflexivity|].
  split; [exact H1|]. reflexivity.
Defined.

(** X2. [releasePort] undoes [assignPort]: after a successful
    [assignPort] of a port and a [releasePort] of the same port every
    port reads as it did before, and the port can be assigned again. *)
Theorem assign_release_round_trip (cfg : Config) (used : gmap Z bool) (p : Z) :
  fst (assignPort cfg p used) = true ->
  (forall q,
      isUsed (releasePort cfg p (snd (assignPort cfg p used))) q
      = isUsed used q)
  /\ fst (assignPort cfg p
            (releasePort cfg p (snd (assignPort cfg p used)))) = true.
Proof.
  intros Hok.
  destruct (assignPort cfg p used) as [ok used'] eqn:E. cbn [fst snd] in *.
  subst ok. apply assignPort_true in E as (Hp & Hfree & ->).
  assert (Hq : forall q,
            isUsed (releasePort cfg p (<[p := true]> used)) q = isUsed used q).
  { intros q. rewrite isUsed_releasePort, isUsed_insert.
    replace (MinPort cfg <=? p) with true by (symmetry; apply Z.leb_le; lia).
    replace (p <=? MaxPort cfg) with true by (symmetry; apply Z.leb_le; lia).
    rewrite !andb_true_r.
    destruct (decide (p = q)) as [->|Hne].
    - rewrite Z.eqb_refl, Hfree. reflexivity.
    - replace (q =? p) with false by (symmetry; apply Z.eqb_neq; congruence).
      apply andb_true_r. }
  split; [exact Hq|].
  unfold assignPort at 1.
  replace (p <? MinPort cfg) with false by (symmetry; apply Z.ltb_ge; lia).
  replace (p >? MaxPort cfg) with false
    by (symmetry; rewrite Z.gtb_ltb; apply Z.ltb_ge; lia).
  cbn [orb]. rewrite Hq, Hfree. reflexivity.
Qed.

Lemma assign_release_round_trip_witness :
  (forall q,
      isUsed (releasePort (mkConfig 9000 9002) 9001
                (snd (assignPort (mkConfig 9000 9002) 9001
                        (<[9000 := true]> ∅))))
        q
      = isUsed (<[9000 := true]> ∅) q)
  /\ fst (assignPort (mkConfig 9000 9002) 9001
            (releasePort (mkConfig 9000 9002) 9001
               (snd (assignPort (mkConfig 9000 9002) 9001
                       (<[9000 := true]> ∅)))))
     = true.
Proof.
  apply (assign_release_round_trip (mkConfig 9000 9002) (<[9000 := true]> ∅)
           9001).
  reflexivity.
Defined.

(** X3. After [releasePort] of a port of the range the search finds a
    port again, and never one above the released port: it returns the
    released port unless a lower port was free already, which it then
    returns as it did before the release. *)
Theorem release_then_find (cfg : Config) (used : gmap Z bool) (p : Z) :
  GoInt.int_min <= MinPort cfg -> MaxPort cfg < GoInt.int_max ->
  MinPort cfg <= p <= MaxPort cfg ->
  exists q,
    findAvailablePort (MinPort cfg) (MaxPort cfg) (releasePort cfg p used)
    = Some (Found q)
    /\ MinPort cfg <= q <= p
    /\ (q < p ->
        findAvailablePort (MinPort cfg) (MaxPort cfg) used = Some (Found q)).
Proof.
  intros Hlo Hhi Hp.
  assert (Hle : MinPort cfg <= MaxPort cfg) by lia.
  assert (Hrel : forall q,
            isUsed (releasePort cfg p used) q
            = isUsed used q && negb (q =? p)).
  { intros q. rewrite isUsed_releasePort.
    replace (MinPort cfg <=? p) with true by (symmetry; apply Z.leb_le; lia).
    replace (p <=? MaxPort cfg) with true by (symmetry; apply Z.leb_le; lia).
    rewrite !andb_true_r. reflexivity. }
  assert (Hfreed : isUsed (releasePort cfg p used) p = false).
  { rewrite Hrel, Z.eqb_refl. apply andb_false_r. }
  destruct (findAvailablePort_result (MinPort cfg) (MaxPort cfg)
              (releasePort cfg p used) Hle Hlo Hhi)
    as [(q & E & Hq & Hfree & Hbelow)|[_ Hall]].
  - exists q. split; [exact E|].
    assert (Hqp : q <= p).
    { destruct (Z.le_gt_cases q p) as [|Hgt]; [assumption|].
      rewrite (Hbelow p) in Hfreed by lia. discriminate. }
    split; [lia|]. intros Hlt.
    assert (Hsame : forall r, r < p ->
              isUsed (releasePort cfg p used) r = isUsed used r).
    { intros r Hr. rewrite Hrel.
      replace (r =? p) with false by (symmetry; apply Z.eqb_neq; lia).
      apply andb_true_r. }
    destruct (findAvailablePort_result (MinPort cfg) (MaxPort cfg) used
                Hle Hlo Hhi)
      as [(q' & E' & Hq' & Hfree' & Hbelow')|[_ Hall']].
    + rewrite E'. do 2 f_equal.
      rewrite Hsame in Hfree by lia.
      destruct (Z.lt_trichotomy q' q) as [Hlt'|[->|Hgt]]; [|reflexivity|].
      * specialize (Hbelow q' ltac:(lia)). rewrite Hsame in Hbelow by lia.
        congruence.
      * specialize (Hbelow' q ltac:(lia)). congruence.
    + specialize (Hall' q ltac:(lia)). rewrite Hsame in Hfree by lia.
      congruence.
  - rewrite (Hall p) in Hfreed by lia. discriminate.
Qed.

Lemma release_then_find_witness :
  exists q,
    findAvailablePort 9000 9002
      (releasePort (mkConfig 9000 9002) 9001
         (<[9001 := true]> (<[9000 := true]> ∅)))
    = Some (Found q)
    /\ 9000 <= q <= 9001
    /\ (q < 9001 ->
        findAvailablePort 9000 9002 (<[9001 := true]> (<[9000 := true]> ∅))
        = Some (Found q)).
Proof.
  apply (release_then_find (mkConfig 9000 9002)
           (<[9001 := true]> (<[9000 := true]> ∅)) 9001);
    cbn [MinPort MaxPort]; unfold GoInt.int_min, GoInt.int_max; lia.
Defined.

(** The entries of a table written by the three calls only: every
    stored value is [true] and every key lies in the range. *)
Lemma calls_entries cfg cs : forall (used : gmap Z bool),
  (forall k b, used !! k = Some b ->
     b = true /\ MinPort cfg <= k <= MaxPort cfg) ->
  forall k b, fold_left (call cfg) cs used !! k = Some b ->
    b = true /\ MinPort cfg <= k <= MaxPort cfg.
Proof.
  induction cs as [|c rest IH]; intros used Hinv; cbn [fold_left];
    [exact Hinv|].
  apply IH. intros k b. destruct c as [p|p]; cbn [call].
  - destruct (assignPort cfg p used) as [[] used'] eqn:E; cbn [snd].
    + apply assignPort_true in E as (Hp & _ & ->).
      rewrite lookup_insert. destruct (decide (p = k)) as [<-|].
      * intros [= <-]. split; [reflexivity|exact Hp].
      * apply Hinv.
    + apply assignPort_false in E as ->. apply Hinv.
  - unfold releasePort.
    destruct ((p <? MinPort cfg) || (p >? MaxPort cfg)); [apply Hinv|].
    destruct (negb (isUsed used p)); [apply Hinv|].
    intros H. apply lookup_delete_Some in H as [_ H]. exact (Hinv k b H).
Qed.

(** X4. Whatever sequence of [assignPort] and [releasePort] calls
    follows [initializePortManager], the table marks ports of the
    configured range only, and [getCurrentlyUsedPorts] lists exactly the
    marked ports, each once, so never more than the range has. *)
Theorem used_ports_stay_in_range (cfg : Config) (cs : list Call) :
  (forall p, isUsed (calls cfg cs) p = true ->
     MinPort cfg <= p <= MaxPort cfg)
  /\ (forall p, In p (getCurrentlyUsedPorts (calls cfg cs))
                <-> isUsed (calls cfg cs) p = true)
  /\ NoDup (getCurrentlyUsedPorts (calls cfg cs))
  /\ (length (getCurrentlyUsedPorts (calls cfg cs))
      <= Z.to_nat (MaxPort cfg - MinPort cfg + 1))%nat.
Proof.
  assert (Hinv : forall k b, calls cfg cs !! k = Some b ->
            b = true /\ MinPort cfg <= k <= MaxPort cfg).
  { apply calls_entries. intros k b. unfold initializePortManager.
    rewrite lookup_empty. discriminate. }
  assert (Hkeys : forall p, In p (getCurrentlyUsedPorts (calls cfg cs))
                            <-> isUsed (calls cfg cs) p = true).
  { intros p. unfold getCurrentlyUsedPorts, isUsed.
    rewrite <- list_elem_of_In, list_elem_of_fmap. split.
    - intros ([k b] & -> & Hin). apply elem_of_map_to_list in Hin.
      cbn [fst]. rewrite Hin. cbn. apply (Hinv k b Hin).
    - intros H. destruct (calls cfg cs !! p) as [b|] eqn:E; [|discriminate].
      exists (p, b). split; [reflexivity|]. apply elem_of_map_to_list, E. }
  assert (Hrange : forall p, isUsed (calls cfg cs) p = true ->
            MinPort cfg <= p <= MaxPort cfg).
  { intros p H. unfold isUsed in H.
    destruct (calls cfg cs !! p) as [b|] eqn:E; [|discriminate].
    apply (Hinv p b E). }
  assert (Hnd : NoDup (getCurrentlyUsedPorts (calls cfg cs))).
  { unfold getCurrentlyUsedPorts. apply NoDup_fst_map_to_list. }
  repeat split; try assumption; try apply Hkeys; try (apply Hrange; assumption).
  rewrite <- (length_seqZ (MinPort cfg) (MaxPort cfg - MinPort cfg + 1)).
  apply submseteq_length, NoDup_submseteq; [exact Hnd|].
  intros p Hp. apply list_elem_of_In, Hkeys, Hrange in Hp.
  apply elem_of_seqZ. lia.
Qed.

(** ** The handlers on a state in which table and registry agree *)

Import Registry.

Lemma accepted_range cfg :
  LoadConfig_accepts cfg = true ->
  1024 <= MinPort cfg /\ MinPort cfg <= MaxPort cfg /\ MaxPort cfg <= 65535.
Proof.
  unfold LoadConfig_accepts. intros H.
  apply andb_true_iff in H as [H1 H2].
  apply negb_true_iff in H1, H2. apply orb_false_iff in H2 as [H2 H3].
  rewrite Z.gtb_ltb in H1, H3.
  apply Z.ltb_ge in H1, H2, H3. lia.
Qed.

Lemma accepted_find cfg (used : gmap Z bool) :
  LoadConfig_accepts cfg = true ->
  (exists p, findAvailablePort (MinPort cfg) (MaxPort cfg) used
             = Some (Found p)
             /\ MinPort cfg <= p <= MaxPort cfg /\ isUsed used p = false
             /\ forall q, MinPort cfg <= q < p -> isUsed used q = true)
  \/ (findAvailablePort (MinPort cfg) (MaxPort cfg) used
      = Some NoPortAvailable
      /\ forall q, MinPort cfg <= q <= MaxPort cfg -> isUsed used q = true).
Proof.
  intros H. apply accepted_range in H as (H1 & H2 & H3).
  apply findAvailablePort_result;
    [lia|unfold GoInt.int_min; lia|unfold GoInt.int_max; lia].
Qed.

Lemma assignPort_free cfg p (used : gmap Z bool) :
  MinPort cfg <= p <= MaxPort cfg -> isUsed used p = false ->
  assignPort cfg p used = (true, <[p := true]> used).
Proof.
  intros Hp Hfree. unfold assignPort.
  replace (p <? MinPort cfg) with false by (symmetry; apply Z.ltb_ge; lia).
  replace (p >? MaxPort cfg) with false
    by (symmetry; rewrite Z.gtb_ltb; apply Z.ltb_ge; lia).
  cbn [orb]. rewrite Hfree. reflexivity.
Qed.

Lemma isUsed_release_in_range cfg p (used : gmap Z bool) q :
  MinPort cfg <= p <= MaxPort cfg ->
  isUsed (releasePort cfg p used) q = isUsed used q && negb (q =? p).
Proof.
  intros Hp. rewrite isUsed_releasePort.
  replace (MinPort cfg <=? p) with true by (symmetry; apply Z.leb_le; lia).
  replace (p <=? MaxPort cfg) with true by (symmetry; apply Z.leb_le; lia).
  rewrite !andb_true_r. reflexivity.
Qed.

Lemma responses_app a b : responses (a ++ b) = responses a ++ responses b.
Proof. unfold responses. apply flat_map_app. Qed.

Lemma killed_app a b : killed (a ++ b) = killed a ++ killed b.
Proof. unfold killed. apply flat_map_app. Qed.

(** [stopExistingProcess] on a state whose records hold ports of the
    range. *)
Lemma stopExistingProcess_state cfg name procs (ports : gmap Z bool) :
  LoadConfig_accepts cfg = true ->
  (forall info, procs !! name = Some info ->
     MinPort cfg <= Port info <= MaxPort cfg) ->
  runningProcs (fst (stopExistingProcess cfg name (mkState procs ports)))
  = delete name procs
  /\ (forall q,
        isUsed (ProcessManager.usedPorts
                  (fst (stopExistingProcess cfg name (mkState procs ports)))) q
        = isUsed ports q && negb (vacated (procs !! name) q))
  /\ killed (snd (stopExistingProcess cfg name (mkState procs ports)))
     = stopped (procs !! name)
  /\ responses (snd (stopExistingProcess cfg name (mkState procs ports))) = []
  /\ spawned (snd (stopExistingProcess cfg name (mkState procs ports))) = [].
Proof.
  intros Hcfg Hrange. apply accepted_range in Hcfg as (Hmin & _ & _).
  unfold stopExistingProcess. cbn [runningProcs ProcessManager.usedPorts].
  destruct (procs !! name) as [info|] eqn:E; cbn [fst snd vacated stopped].
  - specialize (Hrange info eq_refl).
    replace (Port info =? -1) with false by (symmetry; apply Z.eqb_neq; lia).
    cbn [negb runningProcs ProcessManager.usedPorts].
    repeat split; try reflexivity.
    intros q. apply isUsed_release_in_range, Hrange.
  - cbn [runningProcs ProcessManager.usedPorts].
    repeat split; try reflexivity.
    + symmetry. apply delete_id, E.
    + intros q. symmetry. apply andb_true_r.
Qed.

Lemma contentStage_effects env name playlistIDs modIDs xml :
  spawned (fst (contentStage env name playlistIDs modIDs xml)) = []
  /\ killed (fst (contentStage env name playlistIDs modIDs xml)) = []
  /\ match snd (contentStage env name playlistIDs modIDs xml) with
     | Some _ =>
         responses (fst (contentStage env name playlistIDs modIDs xml)) = []
     | None =>
         exists r,
           responses (fst (contentStage env name playlistIDs modIDs xml)) = [r]
           /\ Success r = false
     end.
Proof.
  unfold contentStage.
  destruct ((0 <? length playlistIDs)%nat || (0 <? length modIDs)%nat);
    [|cbn; auto].
  destruct (envDownload env playlistIDs modIDs) as [[sp sm] err].
  destruct (envAbs env _) as [dir|].
  - destruct (addWorkshopPathsToXML _ _ _ _ _ _) as [final|];
      destruct err; cbn; repeat split; eauto.
  - destruct err; cbn; repeat split; eauto.
Qed.

Ltac finish_effects :=
  cbn; rewrite ?app_nil_r; repeat split; try reflexivity;
  eexists; repeat split; reflexivity.

Ltac refused :=
  left; cbn; repeat split; try reflexivity; eexists; split; reflexivity.

(** The two ways a start request ends: refused with the state as it
    was, or carried through the launch, where the record of the name is
    stopped and, when the process started, the new record written. *)
Lemma handleStart_cases cfg env data st :
  LoadConfig_accepts cfg = true ->
  (forall info, runningProcs st !! StartName data = Some info ->
     MinPort cfg <= Port info <= MaxPort cfg
     /\ isUsed (ProcessManager.usedPorts st) (Port info) = true) ->
  (fst (handleStartServerProcess cfg env data st) = st
   /\ spawned (snd (handleStartServerProcess cfg env data st)) = []
   /\ killed (snd (handleStartServerProcess cfg env data st)) = []
   /\ exists r,
        responses (snd (handleStartServerProcess cfg env data st)) = [r]
        /\ Success r = false)
  \/ (exists p,
        findAvailablePort (MinPort cfg) (MaxPort cfg)
          (ProcessManager.usedPorts st) = Some (Found p)
        /\ runningProcs (fst (handleStartServerProcess cfg env data st))
           = match envStarted env with
             | Some process =>
                 <[StartName data := mkInfo process p]> (runningProcs st)
             | None => delete (StartName data) (runningProcs st)
             end
        /\ (forall q,
              isUsed (ProcessManager.usedPorts
                        (fst (handleStartServerProcess cfg env data st))) q
              = isUsed (ProcessManager.usedPorts st) q
                && negb (vacated (runningProcs st !! StartName data) q)
                || match envStarted env with
                   | Some _ => q =? p
                   | None => false
                   end)
        /\ killed (snd (handleStartServerProcess cfg env data st))
           = stopped (runningProcs st !! StartName data)
        /\ spawned (snd (handleStartServerProcess cfg env data st))
           = match envStarted env with
             | Some process => [mkWatch (StartName data) process p]
             | None => []
             end
        /\ exists r,
             responses (snd (handleStartServerProcess cfg env data st)) = [r]
             /\ Success r = match envStarted env with
                            | Some _ => true
                            | None => false
                            end
             /\ AssignedPort r = match envStarted env with
                                 | Some _ => p
                                 | None => 0
                                 end).
Proof.
  intros Hcfg Hold. unfold handleStartServerProcess.
  destruct (accepted_find cfg (ProcessManager.usedPorts st) Hcfg)
    as [(p & E & Hp & Hfree & _)|[E _]]; rewrite E.
  2: { refused. }
  destruct (ConfigManager.updateXmlPort _ _ _) as [xmlWithPort|];
    [|refused].
  destruct (extractWorkshopIDsAndModifyXML _ _)
    as [[[playlistIDs modIDs] xmlWithIdsRemoved]|]; [|refused].
  pose proof (contentStage_effects env (StartName data) playlistIDs modIDs
                xmlWithIdsRemoved) as (Hsp & Hk & Hr).
  destruct (contentStage env (StartName data) playlistIDs modIDs
              xmlWithIdsRemoved) as [sent [[failedItemIDs xmlToSave]|]];
    cbn [fst snd] in *.
  2: { left. repeat split; try assumption. }
  unfold launchStage.
  destruct (envSaved env); cbn [negb].
  2: { left. cbn [fst snd]. rewrite spawned_app, killed_app, responses_app.
       rewrite Hsp, Hk, Hr. cbn. repeat split; try reflexivity.
       eexists; split; reflexivity. }
  rewrite (assignPort_free cfg p _ Hp Hfree). cbn [negb].
  destruct st as [procs ports].
  cbn [runningProcs ProcessManager.usedPorts] in *.
  pose proof (stopExistingProcess_state cfg (StartName data) procs
                (<[p := true]> ports) Hcfg
                (fun info H => proj1 (Hold info H)))
    as (Hprocs & Hports & Hkilled & Hresp & Hspawn).
  destruct (stopExistingProcess cfg (StartName data)
              (mkState procs (<[p := true]> ports))) as [st2 stopEffects].
  cbn [fst snd] in *.
  assert (Hdiff : forall q, vacated (procs !! StartName data) q = true ->
            isUsed ports q = true /\ q <> p).
  { intros q Hv. destruct (procs !! StartName data) as [info|];
      [|discriminate].
    cbn [vacated] in Hv. apply Z.eqb_eq in Hv. subst q.
    destruct (Hold info eq_refl) as [_ Hused]. split; [exact Hused|].
    intros Heq. rewrite Heq in Hused. congruence. }
  right. exists p. split; [reflexivity|].
  destruct (envStarted env) as [process|];
    cbn [fst snd runningProcs ProcessManager.usedPorts];
    rewrite !spawned_app, !killed_app, !responses_app, Hsp, Hk, Hr, Hkilled,
      Hresp, Hspawn; cbn [app].
  - rewrite Hprocs, insert_delete_eq.
    split; [reflexivity|]. split; [|finish_effects].
    intros q. rewrite Hports, isUsed_insert.
    destruct (decide (p = q)) as [<-|Hne].
    + rewrite Z.eqb_refl, orb_true_r.
      destruct (vacated (procs !! StartName data) p) eqn:Ev;
        [|reflexivity].
      apply Hdiff in Ev as [_ []]. reflexivity.
    + replace (q =? p) with false by (symmetry; apply Z.eqb_neq; congruence).
      rewrite orb_false_r. reflexivity.
  - rewrite Hprocs. split; [reflexivity|]. split; [|finish_effects].
    intros q. rewrite isUsed_release_in_range by exact Hp.
    rewrite Hports, isUsed_insert, orb_false_r.
    destruct (decide (p = q)) as [<-|Hne].
    + rewrite Z.eqb_refl, andb_false_r.
      rewrite Hfree. reflexivity.
    + replace (q =? p) with false by (symmetry; apply Z.eqb_neq; congruence).
      rewrite andb_true_r. reflexivity.
Qed.

Lemma handleStop_cases cfg data content st :
  LoadConfig_accepts cfg = true ->
  (forall info, runningProcs st !! StopName data = Some info ->
     MinPort cfg <= Port info <= MaxPort cfg) ->
  match runningProcs st !! StopName data with
  | None =>
      handleStopServerProcess cfg data content st
      = (st, [failure (TextNotRunning (StopName data))])
  | Some info =>
      runningProcs (fst (handleStopServerProcess cfg data content st))
      = delete (StopName data) (runningProcs st)
      /\ (forall q,
            isUsed (ProcessManager.usedPorts
                      (fst (handleStopServerProcess cfg data content st))) q
            = isUsed (ProcessManager.usedPorts st) q
              && negb (q =? Port info))
      /\ killed (snd (handleStopServerProcess cfg data content st))
         = [Pid (InfoProcess info)]
      /\ spawned (snd (handleStopServerProcess cfg data content st)) = []
      /\ exists r,
           responses (snd (handleStopServerProcess cfg data content st)) = [r]
           /\ Success r = true
           /\ RespConfig r = default EmptyString content
  end.
Proof.
  intros Hcfg Hrange. unfold handleStopServerProcess.
  replace (negb (Confirmed data) && (dummyPlayerCount >? 0)) with false
    by (symmetry; apply andb_false_r).
  destruct (runningProcs st !! StopName data) as [info|]; [|reflexivity].
  specialize (Hrange info eq_refl).
  apply accepted_range in Hcfg as (Hmin & _ & _).
  replace (Port info =? -1) with false by (symmetry; apply Z.eqb_neq; lia).
  cbn [negb fst snd runningProcs ProcessManager.usedPorts].
  split; [reflexivity|]. split.
  { intros q. apply isUsed_release_in_range, Hrange. }
  destruct content; cbn; repeat split; eexists; repeat split; reflexivity.
Qed.

Lemma waitForProcessExit_cases cfg name process port waitErr started st :
  match runningProcs st !! name with
  | Some info =>
      if Pid (InfoProcess info) =? Pid process then
        match started with
        | Some newProcess =>
            fst (waitForProcessExit cfg name process port waitErr started st)
            = mkState (<[name := mkInfo newProcess port]> (runningProcs st))
                (ProcessManager.usedPorts st)
            /\ spawned (snd (waitForProcessExit cfg name process port waitErr
                               started st))
               = [mkWatch name newProcess port]
            /\ events (snd (waitForProcessExit cfg name process port waitErr
                              started st))
               = [ServerCrashDetected name (Pid process) waitErr;
                  ServerRestartResult name true
                    (TextRestarted name (Pid newProcess))]
        | None =>
            fst (waitForProcessExit cfg name process port waitErr started st)
            = mkState (delete name (runningProcs st))
                (releasePort cfg port (ProcessManager.usedPorts st))
            /\ spawned (snd (waitForProcessExit cfg name process port waitErr
                               started st)) = []
            /\ events (snd (waitForProcessExit cfg name process port waitErr
                              started st))
               = [ServerCrashDetected name (Pid process) waitErr;
                  ServerRestartResult name false (TextRestartFailed name)]
        end
      else waitForProcessExit cfg name process port waitErr started st
           = (st, [])
  | None =>
      waitForProcessExit cfg name process port waitErr started st = (st, [])
  end.
Proof.
  unfold waitForProcessExit, exitCheck.
  destruct (runningProcs st !! name) as [info|]; [|reflexivity].
  destruct (Pid (InfoProcess info) =? Pid process); [|reflexivity].
  unfold restart. cbn [runningProcs ProcessManager.usedPorts].
  destruct started as [newProcess|]; cbn [fst snd].
  - rewrite insert_delete_eq. repeat split; reflexivity.
  - repeat split; reflexivity.
Qed.

(** One record leaves, one may enter: the agreement of table and
    registry is kept when the record under [name] is removed with its
    port and a record with a port that is free, or was the port just
    vacated, is written under the same name. *)
Lemma portsMatch_step cfg name (added : option (Process * Z)) st st' :
  portsMatch cfg st ->
  runningProcs st'
  = match added with
    | Some (process, p) => <[name := mkInfo process p]> (runningProcs st)
    | None => delete name (runningProcs st)
    end ->
  (forall q,
      isUsed (ProcessManager.usedPorts st') q
      = isUsed (ProcessManager.usedPorts st) q
        && negb (vacated (runningProcs st !! name) q)
        || match added with
           | Some (_, p) => q =? p
           | None => false
           end) ->
  (forall process p, added = Some (process, p) ->
     MinPort cfg <= p <= MaxPort cfg
     /\ (isUsed (ProcessManager.usedPorts st) p = false
         \/ vacated (runningProcs st !! name) p = true)) ->
  portsMatch cfg st'.
Proof.
  intros (Ha & Hb & Hc) Hprocs Hports Hadd.
  assert (Hother : forall n i, n <> name ->
            runningProcs st' !! n = Some i <-> runningProcs st !! n = Some i).
  { intros n i Hn. rewrite Hprocs. destruct added as [[process p]|].
    - rewrite lookup_insert_ne by congruence. reflexivity.
    - rewrite lookup_delete_ne by congruence. reflexivity. }
  assert (Hkept : forall n i, n <> name -> runningProcs st !! n = Some i ->
            vacated (runningProcs st !! name) (Port i) = false).
  { intros n i Hn Hi.
    destruct (runningProcs st !! name) as [i0|] eqn:E0; [|reflexivity].
    cbn [vacated]. apply Z.eqb_neq. intros Heq.
    apply Hn. exact (Hc n name i i0 Hi E0 Heq). }
  assert (Hname : forall i, runningProcs st' !! name = Some i ->
            exists process p, added = Some (process, p)
                              /\ i = mkInfo process p).
  { intros i. rewrite Hprocs. destruct added as [[process p]|].
    - rewrite lookup_insert_eq. intros [= <-]. eauto.
    - rewrite lookup_delete_eq. discriminate. }
  split; [|split].
  - intros n i Hi. destruct (decide (n = name)) as [->|Hn].
    + apply Hname in Hi as (process & p & -> & ->). cbn [Port].
      split; [apply (Hadd process p eq_refl)|].
      rewrite Hports, Z.eqb_refl. apply orb_true_r.
    + apply Hother in Hi; [|exact Hn].
      destruct (Ha n i Hi) as [Hr Hu]. split; [exact Hr|].
      rewrite Hports, Hu, (Hkept n i Hn Hi). reflexivity.
  - intros q Hq. rewrite Hports in Hq. apply orb_true_iff in Hq as [Hq|Hq].
    + apply andb_true_iff in Hq as [Hu Hv]. apply negb_true_iff in Hv.
      destruct (Hb q Hu) as (n & i & Hi & <-).
      assert (Hn : n <> name).
      { intros ->. rewrite Hi in Hv. cbn [vacated] in Hv.
        rewrite Z.eqb_refl in Hv. discriminate. }
      exists n, i. split; [apply Hother; assumption|reflexivity].
    + destruct added as [[process p]|]; [|discriminate].
      apply Z.eqb_eq in Hq as ->.
      exists name, (mkInfo process p). split; [|reflexivity].
      rewrite Hprocs. apply lookup_insert_eq.
  - intros n1 n2 i1 i2 H1 H2 Heq.
    destruct (decide (n1 = name)) as [->|Hn1];
      destruct (decide (n2 = name)) as [->|Hn2]; [reflexivity| | |].
    + apply Hname in H1 as (process & p & Hadded & ->). cbn [Port] in Heq.
      apply Hother in H2; [|exact Hn2].
      destruct (Hadd process p Hadded) as [_ [Hfree|Hv]].
      * destruct (Ha n2 i2 H2) as [_ Hu]. congruence.
      * rewrite Heq, (Hkept n2 i2 Hn2 H2) in Hv. discriminate.
    + apply Hname in H2 as (process & p & Hadded & ->). cbn [Port] in Heq.
      apply Hother in H1; [|exact Hn1].
      destruct (Hadd process p Hadded) as [_ [Hfree|Hv]].
      * destruct (Ha n1 i1 H1) as [_ Hu]. congruence.
      * rewrite <- Heq, (Hkept n1 i1 Hn1 H1) in Hv. discriminate.
    + apply Hother in H1; [|exact Hn1]. apply Hother in H2; [|exact Hn2].
      exact (Hc n1 n2 i1 i2 H1 H2 Heq).
Qed.

Lemma portsMatch_records cfg st name info :
  portsMatch cfg st -> runningProcs st !! name = Some info ->
  MinPort cfg <= Port info <= MaxPort cfg
  /\ isUsed (ProcessManager.usedPorts st) (Port info) = true.
Proof. intros (Ha & _) H. exact (Ha name info H). Qed.

Lemma portsMatch_start cfg env data st :
  LoadConfig_accepts cfg = true -> portsMatch cfg st ->
  portsMatch cfg (fst (handleStartServerProcess cfg env data st)).
Proof.
  intros Hcfg Hm.
  destruct (handleStart_cases cfg env data st Hcfg
              (fun info H => portsMatch_records cfg st _ info Hm H))
    as [(-> & _)|(p & E & Hprocs & Hports & _)]; [exact Hm|].
  destruct (accepted_find cfg (ProcessManager.usedPorts st) Hcfg)
    as [(p0 & E0 & Hp & Hfree & _)|[E0 _]]; [|congruence].
  assert (p0 = p) as -> by congruence.
  apply (portsMatch_step cfg (StartName data)
           (option_map (fun process => (process, p)) (envStarted env)) st);
    [exact Hm| | |].
  - rewrite Hprocs. destruct (envStarted env); reflexivity.
  - intros q. rewrite Hports. destruct (envStarted env); reflexivity.
  - intros process p' Hadded. destruct (envStarted env); [|discriminate].
    injection Hadded as _ <-. auto.
Qed.

Lemma portsMatch_stop cfg data content st :
  LoadConfig_accepts cfg = true -> portsMatch cfg st ->
  portsMatch cfg (fst (handleStopServerProcess cfg data content st)).
Proof.
  intros Hcfg Hm.
  pose proof (handleStop_cases cfg data content st Hcfg
                (fun info H => proj1 (portsMatch_records cfg st _ info Hm H)))
    as H.
  destruct (runningProcs st !! StopName data) as [info|] eqn:E.
  - destruct H as (Hprocs & Hports & _).
    apply (portsMatch_step cfg (StopName data) None st); [exact Hm| | |].
    + exact Hprocs.
    + intros q. rewrite Hports, E. cbn [vacated]. symmetry. apply orb_false_r.
    + discriminate.
  - rewrite H. exact Hm.
Qed.

Lemma portsMatch_exit cfg name process port waitErr started st :
  LoadConfig_accepts cfg = true -> portsMatch cfg st ->
  (forall info, runningProcs st !! name = Some info ->
     Pid (InfoProcess info) = Pid process -> Port info = port) ->
  portsMatch cfg
    (fst (waitForProcessExit cfg name process port waitErr started st)).
Proof.
  intros Hcfg Hm Hport.
  pose proof (waitForProcessExit_cases cfg name process port waitErr started
                st) as H.
  destruct (runningProcs st !! name) as [info|] eqn:E; [|rewrite H; exact Hm].
  destruct (Z.eqb_spec (Pid (InfoProcess info)) (Pid process)) as [Hpid|];
    [|rewrite H; exact Hm].
  specialize (Hport info eq_refl Hpid). subst port.
  destruct (portsMatch_records cfg st name info Hm E) as [Hrange Hused].
  destruct started as [newProcess|]; destruct H as (-> & _).
  - apply (portsMatch_step cfg name (Some (newProcess, Port info)) st);
      [exact Hm|reflexivity| |].
    + intros q. cbn [ProcessManager.usedPorts]. rewrite E. cbn [vacated].
      destruct (Z.eqb_spec q (Port info)) as [->|].
      * rewrite Hused. reflexivity.
      * rewrite andb_true_r, orb_false_r. reflexivity.
    + intros process' p [= _ <-]. split; [exact Hrange|].
      right. rewrite E. cbn [vacated]. apply Z.eqb_refl.
  - apply (portsMatch_step cfg name None st); [exact Hm|reflexivity| |].
    + intros q. cbn [ProcessManager.usedPorts].
      rewrite isUsed_release_in_range by exact Hrange.
      rewrite E. cbn [vacated]. symmetry. apply orb_false_r.
    + discriminate.
Qed.

Lemma In_delete_other {A} (l : list A) i w x :
  l !! i = Some w -> In x l -> x <> w -> In x (delete i l).
Proof.
  intros Hi Hin Hne. rewrite delete_take_drop.
  rewrite <- (take_drop_middle l i w Hi) in Hin.
  apply in_app_iff in Hin as [Hin|[Heq|Hin]].
  - apply in_app_iff. left. exact Hin.
  - congruence.
  - apply in_app_iff. right. exact Hin.
Qed.

(** The three properties of a supervisor state that hold together. *)
Lemma supervised_act cfg a s s' :
  LoadConfig_accepts cfg = true ->
  watchesAgree (watches s) (runningProcs (state s)) ->
  portsMatch cfg (state s) -> watched s ->
  act cfg a s = Some s' ->
  portsMatch cfg (state s') /\ watched s'.
Proof.
  intros Hcfg Hagree Hm Hw Hact.
  destruct a as [env data|data content|i waitErr started];
    cbn [act] in Hact.
  - destruct (freshPid (envStarted env) (watches s)); [|discriminate].
    pose proof (portsMatch_start cfg env data (state s) Hcfg Hm) as Hm'.
    destruct (handleStart_cases cfg env data (state s) Hcfg
                (fun info H => portsMatch_records cfg _ _ info Hm H))
      as [(Hst & Hsp & _)|(p & _ & Hprocs & _ & _ & Hsp & _)];
      destruct (handleStartServerProcess cfg env data (state s))
        as [st' effects]; cbn [fst snd] in *; injection Hact as <-;
      cbn [state watches]; (split; [exact Hm'|]).
    + subst st'. intros name info H. cbn [state watches].
      apply in_app_iff. left. exact (Hw name info H).
    + intros name info H. cbn [state watches] in *. rewrite Hprocs in H.
      apply in_app_iff. rewrite Hsp.
      destruct (envStarted env) as [process|].
      * destruct (decide (name = StartName data)) as [->|Hn].
        -- rewrite lookup_insert_eq in H. injection H as <-.
           right. left. reflexivity.
        -- rewrite lookup_insert_ne in H by congruence. left. exact (Hw _ _ H).
      * apply lookup_delete_Some in H as [_ H]. left. exact (Hw _ _ H).
  - pose proof (portsMatch_stop cfg data content (state s) Hcfg Hm) as Hm'.
    pose proof (handleStop_registry cfg data content (state s)) as Hsub.
    destruct (handleStopServerProcess cfg data content (state s))
      as [st' effects]; cbn [fst snd] in *. injection Hact as <-.
    cbn [state watches]. split; [exact Hm'|].
    intros name info H. exact (Hw name info (Hsub name info H)).
  - destruct (watches s !! i) as [w|] eqn:Ei; [|discriminate].
    destruct (freshPid started (delete i (watches s))); [|discriminate].
    assert (Hport : forall info,
              runningProcs (state s) !! watchName w = Some info ->
              Pid (InfoProcess info) = Pid (watchProcess w) ->
              Port info = watchPort w).
    { intros info H1 H2. apply (Hagree w info); [|exact H1|exact H2].
      apply list_elem_of_In. eapply list_elem_of_lookup_2, Ei. }
    pose proof (portsMatch_exit cfg (watchName w) (watchProcess w)
                  (watchPort w) waitErr started (state s) Hcfg Hm Hport)
      as Hm'.
    pose proof (waitForProcessExit_cases cfg (watchName w) (watchProcess w)
                  (watchPort w) waitErr started (state s)) as Hcases.
    destruct (waitForProcessExit cfg (watchName w) (watchProcess w)
                (watchPort w) waitErr started (state s)) as [st' effects].
    cbn [fst snd] in *. injection Hact as <-. cbn [state watches].
    split; [exact Hm'|].
    assert (Hkeep : forall name info,
              runningProcs (state s) !! name = Some info ->
              (name <> watchName w
               \/ Pid (InfoProcess info) <> Pid (watchProcess w)) ->
              In (mkWatch name (InfoProcess info) (Port info))
                (delete i (watches s))).
    { intros name info H Hdiff.
      apply (In_delete_other _ i w); [exact Ei|exact (Hw name info H)|].
      intros <-. cbn in Hdiff. destruct Hdiff as [[]|[]]; reflexivity. }
    intros name info H. cbn [state watches] in H. apply in_app_iff.
    destruct (runningProcs (state s) !! watchName w) as [info0|] eqn:E0.
    + destruct (Z.eqb_spec (Pid (InfoProcess info0)) (Pid (watchProcess w)))
        as [Hpid|Hpid].
      * destruct started as [newProcess|];
          destruct Hcases as (-> & Hsp & _); rewrite Hsp;
          cbn [runningProcs] in H.
        -- destruct (decide (name = watchName w)) as [->|Hn].
           ++ rewrite lookup_insert_eq in H. injection H as <-.
              right. left. reflexivity.
           ++ rewrite lookup_insert_ne in H by congruence.
              left. apply Hkeep; [exact H|left; exact Hn].
        -- apply lookup_delete_Some in H as [Hn H].
           left. apply Hkeep; [exact H|left; congruence].
      * injection Hcases as -> ->. left. apply Hkeep; [exact H|].
        destruct (decide (name = watchName w)) as [->|Hn]; [|left; exact Hn].
        right. rewrite E0 in H. injection H as <-. exact Hpid.
    + injection Hcases as -> ->. left. apply Hkeep; [exact H|].
      left. intros ->. congruence.
Qed.

Lemma supervised_run cfg actions : forall s s',
  LoadConfig_accepts cfg = true ->
  watchesAgree (watches s) (runningProcs (state s)) ->
  portsMatch cfg (state s) -> watched s ->
  runActions cfg actions s = Some s' ->
  portsMatch cfg (state s') /\ watched s'.
Proof.
  induction actions as [|a rest IH]; intros s s' Hcfg Hagree Hm Hw Hrun;
    cbn [runActions] in Hrun.
  - injection Hrun as <-. auto.
  - destruct (act cfg a s) as [s1|] eqn:Ea; [|discriminate].
    destruct (supervised_act cfg a s s1 Hcfg Hagree Hm Hw Ea) as [Hm1 Hw1].
    apply (IH s1 s' Hcfg); try assumption.
    exact (watchesAgree_act cfg a s s1 Hagree Ea).
Qed.

Lemma supervised_reachable cfg s :
  LoadConfig_accepts cfg = true -> reachable cfg s ->
  portsMatch cfg (state s) /\ watched s.
Proof.
  intros Hcfg [actions Hrun].
  apply (supervised_run cfg actions initial s Hcfg); [| | |exact Hrun].
  - intros w info [].
  - unfold portsMatch, initial, InitializeProcessManager,
      initializePortManager, isUsed.
    cbn [state runningProcs ProcessManager.usedPorts]. split; [|split].
    + intros name info H. rewrite lookup_empty in H. discriminate.
    + intros port H. rewrite lookup_empty in H. discriminate.
    + intros n1 n2 i1 i2 H. rewrite lookup_empty in H. discriminate.
  - intros name info H. cbn in H. rewrite lookup_empty in H. discriminate.
Qed.

(** ** What holds in every state the supervisor reaches *)

(** X5. Under a configuration [LoadConfig] accepts, in every state
    reached by start requests, stop requests and watch tasks the port
    table marks exactly the ports of the registered servers: every
    record holds a marked port of the range, every marked port belongs
    to a record, and no two records hold the same port. *)
Theorem records_hold_distinct_marked_ports (cfg : Config) (s : Supervisor.Sys) :
  LoadConfig_accepts cfg = true -> reachable cfg s ->
  (forall name info,
      runningProcs (state s) !! name = Some info ->
      MinPort cfg <= Port info <= MaxPort cfg
      /\ isUsed (ProcessManager.usedPorts (state s)) (Port info) = true)
  /\ (forall port,
        isUsed (ProcessManager.usedPorts (state s)) port = true ->
        exists name info,
          runningProcs (state s) !! name = Some info /\ Port info = port)
  /\ (forall name1 name2 info1 info2,
        runningProcs (state s) !! name1 = Some info1 ->
        runningProcs (state s) !! name2 = Some info2 ->
        Port info1 = Port info2 -> name1 = name2).
Proof.
  intros Hcfg Hreach. exact (proj1 (supervised_reachable cfg s Hcfg Hreach)).
Qed.

Lemma records_hold_distinct_marked_ports_witness :
  exists name info,
    runningProcs (state afterStart) !! name = Some info /\ Port info = 9000.
Proof.
  destruct (records_hold_distinct_marked_ports (mkConfig 9000 9000)
              afterStart) as (_ & Hmarked & _).
  - reflexivity.
  - exists [Start startEnv startData]. vm_compute. reflexivity.
  - apply (Hmarked 9000). reflexivity.
Defined.

Lemma records_ports_NoDup cfg st :
  portsMatch cfg st ->
  NoDup ((fun entry => Port (snd entry)) <$> map_to_list (runningProcs st)).
Proof.
  intros (_ & _ & Hc). apply NoDup_fmap_2_strong; [|apply NoDup_map_to_list].
  intros [n1 i1] [n2 i2] H1 H2 Heq. cbn [snd] in Heq.
  apply elem_of_map_to_list in H1, H2.
  pose proof (Hc n1 n2 i1 i2 H1 H2 Heq) as ->. congruence.
Qed.

(** X6. Under an accepted configuration the names
    [getRunningServerNames] returns in a reachable state are the
    registered names, each once, and there are never more of them than
    the range has ports: the [syncStatus] payload built from them lists
    at most [MaxServers + 1] running servers. *)
Theorem running_servers_within_capacity (cfg : Config) (s : Supervisor.Sys) :
  LoadConfig_accepts cfg = true -> reachable cfg s ->
  NoDup (getRunningServerNames (state s))
  /\ (forall name, In name (getRunningServerNames (state s))
                   <-> is_Some (runningProcs (state s) !! name))
  /\ Z.of_nat (length (getRunningServerNames (state s)))
     <= MaxPort cfg - MinPort cfg + 1
  /\ Z.of_nat
       (length (RunningServers
                  (sendSyncStatus cfg (getRunningServerNames (state s)))))
     <= MaxServers (sendSyncStatus cfg (getRunningServerNames (state s))) + 1.
Proof.
  intros Hcfg Hreach.
  destruct (supervised_reachable cfg s Hcfg Hreach) as [Hm _].
  pose proof (accepted_range cfg Hcfg) as (Hmin & Hle & Hmax).
  assert (Hlen : Z.of_nat (length (getRunningServerNames (state s)))
                 <= MaxPort cfg - MinPort cfg + 1).
  { unfold getRunningServerNames. rewrite length_fmap.
    rewrite <- (length_fmap (fun entry => Port (snd entry))).
    assert (Hsub : (length ((fun entry => Port (snd entry))
                              <$> map_to_list (runningProcs (state s)))
                    <= length (seqZ (MinPort cfg)
                                 (MaxPort cfg - MinPort cfg + 1)))%nat).
    { apply submseteq_length, NoDup_submseteq;
        [exact (records_ports_NoDup cfg _ Hm)|].
      intros p Hp. apply list_elem_of_fmap in Hp as ([n i] & -> & Hin).
      apply elem_of_map_to_list in Hin. cbn [snd].
      destruct (portsMatch_records cfg _ n i Hm Hin) as [Hr _].
      apply elem_of_seqZ. lia. }
    rewrite length_seqZ in Hsub. lia. }
  split; [apply NoDup_fst_map_to_list|]. split; [|split; [exact Hlen|]].
  - intros name. unfold getRunningServerNames.
    rewrite <- list_elem_of_In, list_elem_of_fmap. split.
    + intros ([n i] & -> & Hin). apply elem_of_map_to_list in Hin.
      cbn [fst]. eauto.
    + intros [i Hi]. exists (name, i). split; [reflexivity|].
      apply elem_of_map_to_list, Hi.
  - unfold sendSyncStatus. cbn [RunningServers MaxServers].
    replace (MaxPort cfg >=? MinPort cfg) with true
      by (symmetry; rewrite Z.geb_leb; apply Z.leb_le; lia).
    unfold GoInt.sub. rewrite wrap_in_range; [lia|].
    unfold GoInt.in_range, GoInt.int_min, GoInt.int_max. lia.
Qed.

Lemma running_servers_within_capacity_witness :
  Z.of_nat (length (getRunningServerNames (state afterStart)))
  <= MaxPort (mkConfig 9000 9000) - MinPort (mkConfig 9000 9000) + 1.
Proof.
  apply (running_servers_within_capacity (mkConfig 9000 9000) afterStart).
  - reflexivity.
  - exists [Start startEnv startData]. vm_compute. reflexivity.
Defined.

(** X7. Under an accepted configuration every registered server of a
    reachable state is watched: a watch task started with the name, the
    process and the port of its record is still waiting for it. *)
Theorem every_record_is_watched (cfg : Config) (s : Supervisor.Sys) :
  LoadConfig_accepts cfg = true -> reachable cfg s ->
  forall name info,
    runningProcs (state s) !! name = Some info ->
    In (mkWatch name (InfoProcess info) (Port info)) (watches s).
Proof.
  intros Hcfg Hreach. exact (proj2 (supervised_reachable cfg s Hcfg Hreach)).
Qed.

Lemma every_record_is_watched_witness :
  In (mkWatch "a" (mkProcess 4242) 9000) (watches afterStart).
Proof.
  apply (every_record_is_watched (mkConfig 9000 9000) afterStart
           ltac:(reflexivity)
           (ex_intro _ [Start startEnv startData] eq_refl)
           "a" (mkInfo (mkProcess 4242) 9000)).
  reflexivity.
Defined.

(** ** The answers of the handlers and the state they leave *)

(** X8. Under an accepted configuration a start request on a reachable
    state is answered by exactly one response. If it reports success,
    the process that started is registered under the requested name
    with the port of the response, which is the port the search
    returned and is now marked, and one watch task was started for it.
    If it reports failure, no watch task was started, no port is marked
    that was not marked before, and no record was added or changed. *)
Theorem start_answers_once (cfg : Config) (env : StartEnv)
  (data : StartServerPayload) (s : Supervisor.Sys) :
  LoadConfig_accepts cfg = true -> reachable cfg s ->
  exists r,
    responses (snd (handleStartServerProcess cfg env data (state s))) = [r]
    /\ (Success r = true ->
        exists process,
          envStarted env = Some process
          /\ findAvailablePort (MinPort cfg) (MaxPort cfg)
               (ProcessManager.usedPorts (state s))
             = Some (Found (AssignedPort r))
          /\ runningProcs
               (fst (handleStartServerProcess cfg env data (state s)))
             !! StartName data
             = Some (mkInfo process (AssignedPort r))
          /\ isUsed (ProcessManager.usedPorts
                       (fst (handleStartServerProcess cfg env data (state s))))
               (AssignedPort r) = true
          /\ spawned (snd (handleStartServerProcess cfg env data (state s)))
             = [mkWatch (StartName data) process (AssignedPort r)])
    /\ (Success r = false ->
        spawned (snd (handleStartServerProcess cfg env data (state s))) = []
        /\ (forall q,
              isUsed (ProcessManager.usedPorts
                        (fst (handleStartServerProcess cfg env data (state s))))
                q = true ->
              isUsed (ProcessManager.usedPorts (state s)) q = true)
        /\ (forall name info,
              runningProcs
                (fst (handleStartServerProcess cfg env data (state s)))
              !! name = Some info ->
              runningProcs (state s) !! name = Some info)).
Proof.
  intros Hcfg Hreach.
  destruct (supervised_reachable cfg s Hcfg Hreach) as [Hm _].
  destruct (handleStart_cases cfg env data (state s) Hcfg
              (fun info H => portsMatch_records cfg _ _ info Hm H))
    as [(Hst & Hsp & _ & r & Hr & Hfail)
       |(p & E & Hprocs & Hports & _ & Hsp & r & Hr & Hsucc & Hport)];
    exists r; (split; [exact Hr|]).
  - split; [congruence|]. intros _. rewrite Hst. auto.
  - destruct (envStarted env) as [process|]; split; try congruence.
    + intros _. exists process. subst p. rewrite Hprocs, Hports.
      repeat split; try assumption.
      * apply lookup_insert_eq.
      * rewrite Z.eqb_refl. apply orb_true_r.
    + intros _. split; [exact Hsp|]. split.
      * intros q. rewrite Hports, orb_false_r. intros H.
        apply andb_true_iff in H as [H _]. exact H.
      * intros name info. rewrite Hprocs. apply lookup_delete_weaken.
Qed.

Lemma start_answers_once_witness :
  exists r,
    responses (snd (handleStartServerProcess (mkConfig 9000 9000) startEnv
                      startData (state Supervisor.initial))) = [r]
    /\ (Success r = true ->
        exists process,
          envStarted startEnv = Some process
          /\ findAvailablePort 9000 9000
               (ProcessManager.usedPorts (state Supervisor.initial))
             = Some (Found (AssignedPort r))
          /\ runningProcs
               (fst (handleStartServerProcess (mkConfig 9000 9000) startEnv
                       startData (state Supervisor.initial)))
             !! StartName startData
             = Some (mkInfo process (AssignedPort r))
          /\ isUsed (ProcessManager.usedPorts
                       (fst (handleStartServerProcess (mkConfig 9000 9000)
                               startEnv startData (state Supervisor.initial))))
               (AssignedPort r) = true
          /\ spawned (snd (handleStartServerProcess (mkConfig 9000 9000)
                             startEnv startData (state Supervisor.initial)))
             = [mkWatch (StartName startData) process (AssignedPort r)]).
Proof.
  destruct (start_answers_once (mkConfig 9000 9000) startEnv startData
              Supervisor.initial) as (r & Hr & Hs & _).
  - reflexivity.
  - exists []. reflexivity.
  - exists r. split; [exact Hr|exact Hs].
Defined.

(** X9. Under an accepted configuration a start request for a name
    that is already registered in a reachable state either is refused
    with the state as it was and nothing killed, or kills the registered
    process and frees its port, whether or not the new process starts:
    afterwards the name holds the new process on a port different from
    the old one, or no record when the process did not start. *)
Theorem start_replaces_running_server (cfg : Config) (env : StartEnv)
  (data : StartServerPayload) (s : Supervisor.Sys)
  (info : RunningProcessInfo) :
  LoadConfig_accepts cfg = true -> reachable cfg s ->
  runningProcs (state s) !! StartName data = Some info ->
  (fst (handleStartServerProcess cfg env data (state s)) = state s
   /\ killed (snd (handleStartServerProcess cfg env data (state s))) = [])
  \/ (exists p,
        p <> Port info
        /\ killed (snd (handleStartServerProcess cfg env data (state s)))
           = [Pid (InfoProcess info)]
        /\ isUsed (ProcessManager.usedPorts
                     (fst (handleStartServerProcess cfg env data (state s))))
             (Port info) = false
        /\ runningProcs (fst (handleStartServerProcess cfg env data (state s)))
           !! StartName data
           = option_map (fun process => mkInfo process p) (envStarted env)).
Proof.
  intros Hcfg Hreach Hinfo.
  destruct (supervised_reachable cfg s Hcfg Hreach) as [Hm _].
  destruct (portsMatch_records cfg _ _ info Hm Hinfo) as [_ Hused].
  destruct (handleStart_cases cfg env data (state s) Hcfg
              (fun info H => portsMatch_records cfg _ _ info Hm H))
    as [(Hst & _ & Hk & _)|(p & E & Hprocs & Hports & Hk & _)];
    [left; auto|].
  right. exists p.
  destruct (accepted_find cfg (ProcessManager.usedPorts (state s)) Hcfg)
    as [(p0 & E0 & _ & Hfree & _)|[E0 _]]; [|congruence].
  assert (p0 = p) as -> by congruence.
  assert (Hne : p <> Port info) by (intros ->; congruence).
  split; [exact Hne|]. rewrite Hk, Hports, Hprocs, Hinfo.
  cbn [stopped vacated]. split; [reflexivity|]. split.
  - rewrite Z.eqb_refl, andb_false_r.
    destruct (envStarted env); [|reflexivity].
    apply Z.eqb_neq. congruence.
  - destruct (envStarted env); cbn [option_map].
    + apply lookup_insert_eq.
    + apply lookup_delete_eq.
Qed.

Lemma start_replaces_running_server_witness :
  (fst (handleStartServerProcess (mkConfig 9000 9001) startEnv startData
          (state afterStart)) = state afterStart
   /\ killed (snd (handleStartServerProcess (mkConfig 9000 9001) startEnv
                     startData (state afterStart))) = [])
  \/ (exists p,
        p <> 9000
        /\ killed (snd (handleStartServerProcess (mkConfig 9000 9001) startEnv
                          startData (state afterStart)))
           = [4242]
        /\ isUsed (ProcessManager.usedPorts
                     (fst (handleStartServerProcess (mkConfig 9000 9001)
                             startEnv startData (state afterStart))))
             9000 = false
        /\ runningProcs (fst (handleStartServerProcess (mkConfig 9000 9001)
                                startEnv startData (state afterStart)))
           !! "a"
           = option_map (fun process => mkInfo process p)
               (envStarted startEnv)).
Proof.
  apply (start_replaces_running_server (mkConfig 9000 9001) startEnv startData
           afterStart (mkInfo (mkProcess 4242) 9000)).
  - reflexivity.
  - exists [Start startEnv startData]. vm_compute. reflexivity.
  - reflexivity.
Defined.

(** X10. Under an accepted configuration a stop request for a server
    registered in a reachable state kills its process, removes its
    record and no other, frees its port and no other, and answers once
    with success and the content of the saved configuration file (empty
    when it could not be read); the next search for a port then returns
    a port not above the freed one. *)
Theorem stop_frees_the_port (cfg : Config) (data : StopServerPayload)
  (content : option string) (s : Supervisor.Sys) (info : RunningProcessInfo) :
  LoadConfig_accepts cfg = true -> reachable cfg s ->
  runningProcs (state s) !! StopName data = Some info ->
  runningProcs (fst (handleStopServerProcess cfg data content (state s)))
  = delete (StopName data) (runningProcs (state s))
  /\ (forall q,
        isUsed (ProcessManager.usedPorts
                  (fst (handleStopServerProcess cfg data content (state s)))) q
        = if decide (q = Port info) then false
          else isUsed (ProcessManager.usedPorts (state s)) q)
  /\ killed (snd (handleStopServerProcess cfg data content (state s)))
     = [Pid (InfoProcess info)]
  /\ (exists r,
        responses (snd (handleStopServerProcess cfg data content (state s)))
        = [r]
        /\ Success r = true /\ RespConfig r = default EmptyString content)
  /\ exists q,
       findAvailablePort (MinPort cfg) (MaxPort cfg)
         (ProcessManager.usedPorts
            (fst (handleStopServerProcess cfg data content (state s))))
       = Some (Found q)
       /\ q <= Port info.
Proof.
  intros Hcfg Hreach Hinfo.
  destruct (supervised_reachable cfg s Hcfg Hreach) as [Hm _].
  destruct (portsMatch_records cfg _ _ info Hm Hinfo) as [Hrange _].
  pose proof (handleStop_cases cfg data content (state s) Hcfg
                (fun info H => proj1 (portsMatch_records cfg _ _ info Hm H)))
    as H.
  rewrite Hinfo in H. destruct H as (Hprocs & Hports & Hk & _ & Hr).
  assert (Hports' : forall q,
            isUsed (ProcessManager.usedPorts
                      (fst (handleStopServerProcess cfg data content
                              (state s)))) q
            = if decide (q = Port info) then false
              else isUsed (ProcessManager.usedPorts (state s)) q).
  { intros q. rewrite Hports. destruct (decide (q = Port info)) as [->|Hne].
    - rewrite Z.eqb_refl. apply andb_false_r.
    - replace (q =? Port info) with false by (symmetry; apply Z.eqb_neq, Hne).
      apply andb_true_r. }
  repeat split; try assumption.
  destruct (accepted_find cfg
              (ProcessManager.usedPorts
                 (fst (handleStopServerProcess cfg data content (state s))))
              Hcfg) as [(q & E & Hq & _ & Hbelow)|[_ Hall]].
  - exists q. split; [exact E|].
    destruct (Z.le_gt_cases q (Port info)) as [|Hgt]; [assumption|].
    specialize (Hbelow (Port info) ltac:(lia)). rewrite Hports' in Hbelow.
    destruct (decide (Port info = Port info)); [discriminate|congruence].
  - specialize (Hall (Port info) Hrange). rewrite Hports' in Hall.
    destruct (decide (Port info = Port info)); [discriminate|congruence].
Qed.

Lemma stop_frees_the_port_witness :
  runningProcs
    (fst (handleStopServerProcess (mkConfig 9000 9000)
            (mkStopPayload "a" true) (Some "<server_data/>")
            (state afterStart)))
  = delete "a" (runningProcs (state afterStart))
  /\ exists q,
       findAvailablePort 9000 9000
         (ProcessManager.usedPorts
            (fst (handleStopServerProcess (mkConfig 9000 9000)
                    (mkStopPayload "a" true) (Some "<server_data/>")
                    (state afterStart))))
       = Some (Found q)
       /\ q <= 9000.
Proof.
  destruct (stop_frees_the_port (mkConfig 9000 9000) (mkStopPayload "a" true)
              (Some "<server_data/>") afterStart
              (mkInfo (mkProcess 4242) 9000))
    as (H1 & _ & _ & _ & H5).
  - reflexivity.
  - exists [Start startEnv startData]. vm_compute. reflexivity.
  - reflexivity.
  - split; [exact H1|exact H5].
Defined.

(** X11. Every stop request is answered by exactly one response, which
    reports success exactly when the name is registered. A stop request
    for a name that is not registered changes neither the registry nor
    the port table and kills no process. *)
Theorem stop_answers_once (cfg : Config) (data : StopServerPayload)
  (content : option string) (st : State) :
  (exists r,
      responses (snd (handleStopServerProcess cfg data content st)) = [r]
      /\ (Success r = true <-> is_Some (runningProcs st !! StopName data)))
  /\ (runningProcs st !! StopName data = None ->
      fst (handleStopServerProcess cfg data content st) = st
      /\ killed (snd (handleStopServerProcess cfg data content st)) = []).
Proof.
  unfold handleStopServerProcess.
  replace (negb (Confirmed data) && (dummyPlayerCount >? 0)) with false
    by (symmetry; apply andb_false_r).
  destruct (runningProcs st !! StopName data) as [info|].
  - split; [|discriminate]. destruct content; cbn; eexists;
      (split; [reflexivity|]); cbn; split; eauto.
  - split; [|auto]. cbn. eexists. split; [reflexivity|]. cbn.
    split; [discriminate|]. intros [x Hx]. discriminate.
Qed.

(** X12. Under an accepted configuration, when the process of a
    registered server of a reachable state exits and the restart fails,
    the watch task removes the record, frees the port of the record and
    no other, starts no new watch task and sends the crash event and a
    restart result that reports the failure. *)
Theorem failed_restart_frees_the_port (cfg : Config) (s : Supervisor.Sys)
  (i : nat) (w : Watch) (info : RunningProcessInfo) (waitErr : string) :
  LoadConfig_accepts cfg = true -> reachable cfg s ->
  watches s !! i = Some w ->
  runningProcs (state s) !! watchName w = Some info ->
  Pid (InfoProcess info) = Pid (watchProcess w) ->
  runningProcs
    (fst (waitForProcessExit cfg (watchName w) (watchProcess w) (watchPort w)
            waitErr None (state s)))
  = delete (watchName w) (runningProcs (state s))
  /\ (forall q,
        isUsed (ProcessManager.usedPorts
                  (fst (waitForProcessExit cfg (watchName w) (watchProcess w)
                          (watchPort w) waitErr None (state s)))) q
        = if decide (q = Port info) then false
          else isUsed (ProcessManager.usedPorts (state s)) q)
  /\ spawned
       (snd (waitForProcessExit cfg (watchName w) (watchProcess w)
               (watchPort w) waitErr None (state s))) = []
  /\ events
       (snd (waitForProcessExit cfg (watchName w) (watchProcess w)
               (watchPort w) waitErr None (state s)))
     = [ServerCrashDetected (watchName w) (Pid (watchProcess w)) waitErr;
        ServerRestartResult (watchName w) false
          (TextRestartFailed (watchName w))].
Proof.
  intros Hcfg Hreach Hi Hinfo Hpid.
  destruct (supervised_reachable cfg s Hcfg Hreach) as [Hm _].
  destruct (portsMatch_records cfg _ _ info Hm Hinfo) as [Hrange _].
  assert (Hport : Port info = watchPort w).
  { apply (watchesAgree_reachable cfg s Hreach w info);
      [|exact Hinfo|exact Hpid].
    apply list_elem_of_In. eapply list_elem_of_lookup_2, Hi. }
  pose proof (waitForProcessExit_cases cfg (watchName w) (watchProcess w)
                (watchPort w) waitErr None (state s)) as H.
  rewrite Hinfo, Hpid, Z.eqb_refl in H. destruct H as (-> & Hsp & Hev).
  cbn [runningProcs ProcessManager.usedPorts].
  repeat split; try assumption.
  intros q. rewrite <- Hport, isUsed_release_in_range by exact Hrange.
  destruct (decide (q = Port info)) as [->|Hne].
  - rewrite Z.eqb_refl. apply andb_false_r.
  - replace (q =? Port info) with false by (symmetry; apply Z.eqb_neq, Hne).
    apply andb_true_r.
Qed.

Lemma failed_restart_frees_the_port_witness :
  runningProcs
    (fst (waitForProcessExit (mkConfig 9000 9000) "a" (mkProcess 4242) 9000
            "exit status 1" None (state afterStart)))
  = delete "a" (runningProcs (state afterStart)).
Proof.
  apply (failed_restart_frees_the_port (mkConfig 9000 9000) afterStart 0
           (mkWatch "a" (mkProcess 4242) 9000)
           (mkInfo (mkProcess 4242) 9000) "exit status 1").
  - reflexivity.
  - exists [Start startEnv startData]. vm_compute. reflexivity.
  - reflexivity.
  - reflexivity.
  - reflexivity.
Defined.

(** X13. A server stopped by a stop request is not restarted: when the
    watch task of the stopped process sees it exit, it finds no record
    under the name, leaves registry and port table as the stop handler
    left them, starts nothing and sends no event. The same holds when
    the name is registered again with a process of another pid. *)
Theorem stopped_server_is_not_restarted (cfg : Config)
  (data : StopServerPayload) (content : option string) (st : State)
  (info : RunningProcessInfo) (process : Process) (port : Z)
  (waitErr : string) (started : option Process) :
  runningProcs st !! StopName data = Some info ->
  waitForProcessExit cfg (StopName data) process port waitErr started
    (fst (handleStopServerProcess cfg data content st))
  = (fst (handleStopServerProcess cfg data content st), [])
  /\ forall st' other,
       runningProcs st' !! StopName data = Some other ->
       Pid (InfoProcess other) <> Pid process ->
       waitForProcessExit cfg (StopName data) process port waitErr started st'
       = (st', []).
Proof.
  intros Hinfo. split.
  - pose proof (waitForProcessExit_cases cfg (StopName data) process port
                  waitErr started
                  (fst (handleStopServerProcess cfg data content st))) as H.
    replace (runningProcs (fst (handleStopServerProcess cfg data content st))
             !! StopName data) with (@None RunningProcessInfo) in H;
      [exact H|].
    unfold handleStopServerProcess.
    replace (negb (Confirmed data) && (dummyPlayerCount >? 0)) with false
      by (symmetry; apply andb_false_r).
    rewrite Hinfo. cbn [fst runningProcs]. symmetry. apply lookup_delete_eq.
  - intros st' other Hother Hpid.
    pose proof (waitForProcessExit_cases cfg (StopName data) process port
                  waitErr started st') as H.
    rewrite Hother in H.
    replace (Pid (InfoProcess other) =? Pid process) with false in H
      by (symmetry; apply Z.eqb_neq, Hpid).
    exact H.
Qed.

Lemma stopped_server_is_not_restarted_witness :
  waitForProcessExit (mkConfig 9000 9000) "a" (mkProcess 4242) 9000
    "signal: killed" (Some (mkProcess 4343))
    (fst (handleStopServerProcess (mkConfig 9000 9000)
            (mkStopPayload "a" true) None (state afterStart)))
  = (fst (handleStopServerProcess (mkConfig 9000 9000)
            (mkStopPayload "a" true) None (state afterStart)), []).
Proof.
  apply (stopped_server_is_not_restarted (mkConfig 9000 9000)
           (mkStopPayload "a" true) None (state afterStart)
           (mkInfo (mkProcess 4242) 9000) (mkProcess 4242) 9000
           "signal: killed" (Some (mkProcess 4343))).
  reflexivity.
Defined.

(** ** The port rewrite run twice, and before or after the extraction *)

Import Passes.

Lemma updateToken_attrs s name attr :
  (Local name =? "server_data")%string = true ->
  updateToken s (StartElement name attr)
  = StartElement name
      (map (withPort s) attr
       ++ if existsb isPortAttr attr then []
          else [mkAttr (mkName "" "port") s]).
Proof.
  intros H. unfold updateToken. rewrite H, updateAttrs_map.
  cbn [app orb]. destruct (existsb isPortAttr attr); cbn [negb];
    [rewrite app_nil_r|]; reflexivity.
Qed.

Lemma withPort_twice s1 s2 a : withPort s2 (withPort s1 a) = withPort s2 a.
Proof.
  unfold withPort. destruct (isPortAttr a) eqn:E; [reflexivity|].
  rewrite E. reflexivity.
Qed.

Lemma existsb_withPort s attr :
  existsb isPortAttr (map (withPort s) attr) = existsb isPortAttr attr.
Proof.
  induction attr as [|a rest IH]; [reflexivity|]. cbn [map existsb].
  rewrite IH. f_equal. unfold withPort.
  destruct (isPortAttr a) eqn:E; [reflexivity|exact E].
Qed.

Lemma updateToken_twice s1 s2 t :
  updateToken s2 (updateToken s1 t) = updateToken s2 t.
Proof.
  destruct (isServerDataStart t) eqn:E.
  - destruct t as [name attr| | | | |]; try discriminate. cbn in E.
    rewrite (updateToken_attrs s1 name attr E).
    rewrite !(updateToken_attrs s2 name _ E). f_equal.
    rewrite map_app, map_map, existsb_app, existsb_withPort.
    rewrite (map_ext _ _ (withPort_twice s1 s2)).
    destruct (existsb isPortAttr attr); cbn; rewrite ?app_nil_r; reflexivity.
  - rewrite (updateToken_other s1 t E). reflexivity.
Qed.

(** X14. The port rewrite run again overwrites the port it wrote: on
    the tokens of any document, a rewrite to a second port after a
    rewrite to a first one gives the tokens of the rewrite to the second
    port alone, so a rewrite to the same port twice changes nothing the
    second time. The rewrite hands on as many tokens as it read. *)
Theorem port_rewrite_last_wins (first second : Z) (toks : list Token) :
  updateLoop (Itoa second) (updateLoop (Itoa first) toks []) []
  = updateLoop (Itoa second) toks []
  /\ updateLoop (Itoa first) (updateLoop (Itoa first) toks []) []
     = updateLoop (Itoa first) toks []
  /\ length (updateLoop (Itoa first) toks []) = length toks.
Proof.
  rewrite !updateLoop_map. cbn [app]. rewrite !map_map.
  repeat split.
  - apply map_ext. intros t. apply updateToken_twice.
  - apply map_ext. intros t. apply updateToken_twice.
  - apply length_map.
Qed.

Lemma extractStep_rewritten s st t :
  extractStep (rewriteOutput (updateToken s) st) (updateToken s t)
  = rewriteOutput (updateToken s) (extractStep st t).
Proof.
  destruct st as [p m sk d pl md out].
  destruct (isServerDataStart t) eqn:E.
  - destruct t as [[space local] attr| | | | |]; try discriminate.
    cbn in E. rewrite (updateToken_attrs s (mkName space local) attr E).
    apply String.eqb_eq in E. subst local.
    unfold extractStep, rewriteOutput, encode, setSkip.
    cbn [skipElement depth inPlaylists inMods playlistIDs modIDs output Local].
    destruct sk.
    + destruct (d + 1 =? 0); reflexivity.
    + cbn [String.eqb Ascii.eqb Bool.eqb andb]. rewrite andb_false_r.
      cbn [skipElement depth inPlaylists inMods playlistIDs modIDs output].
      rewrite map_app. cbn [map].
      rewrite (updateToken_attrs s (mkName space "server_data") attr eq_refl).
      reflexivity.
  - rewrite (updateToken_other s t E).
    assert (Hout : map (updateToken s) (out ++ [t])
                   = map (updateToken s) out ++ [t]).
    { rewrite map_app. cbn [map]. rewrite (updateToken_other s t E).
      reflexivity. }
    unfold extractStep, rewriteOutput, encode, setSkip, setFlags, recordID.
    cbn [skipElement depth inPlaylists inMods playlistIDs modIDs output].
    destruct sk.
    + destruct t; cbn;
        match goal with
        | |- context [if ?b then _ else _] => destruct b
        end; reflexivity.
    + destruct t as [name attr|name| | | |]; cbn;
        repeat match goal with
               | |- context [if ?b then _ else _] => destruct b
               | |- context [match ?o with Some _ => _ | None => _ end] =>
                   destruct o
               end;
        cbn; rewrite <- ?Hout; reflexivity.
Qed.

Lemma extractLoop_rewritten s toks : forall st,
  extractLoop (map (updateToken s) toks) (rewriteOutput (updateToken s) st)
  = rewriteOutput (updateToken s) (extractLoop toks st).
Proof.
  induction toks as [|t rest IH]; intros st; [reflexivity|].
  unfold extractLoop in *. cbn [map fold_left].
  rewrite extractStep_rewritten. apply IH.
Qed.

(** X15. The port rewrite and the extraction can be run in either
    order: on the tokens of any document, extracting from the rewritten
    tokens records the same playlist ids and mod ids as extracting from
    the tokens as received, and hands on the tokens that the rewrite
    makes of the extraction's output. *)
Theorem port_rewrite_commutes_with_extraction (newPort : Z)
  (toks : list Token) :
  playlistIDs
    (extractLoop (updateLoop (Itoa newPort) toks []) initialExtract)
  = playlistIDs (extractLoop toks initialExtract)
  /\ modIDs (extractLoop (updateLoop (Itoa newPort) toks []) initialExtract)
     = modIDs (extractLoop toks initialExtract)
  /\ output (extractLoop (updateLoop (Itoa newPort) toks []) initialExtract)
     = updateLoop (Itoa newPort) (output (extractLoop toks initialExtract))
         [].
Proof.
  rewrite !updateLoop_map. cbn [app].
  change initialExtract
    with (rewriteOutput (updateToken (Itoa newPort)) initialExtract) at 1 3 5.
  rewrite extractLoop_rewritten. repeat split; reflexivity.
Qed.

(** ** The extraction run on its own output *)

Lemma walkAll_app a : forall b p m,
  walkAll (a ++ b) p m
  = seqWalk (walkAll a p m)
      (walkAll b (flagPlaylists (walkAll a p m)) (flagMods (walkAll a p m))).
Proof.
  induction a as [|c cs IH]; intros b p m.
  - cbn. destruct (walkAll b p m). reflexivity.
  - cbn [app walkAll]. rewrite IH. unfold seqWalk.
    cbn [flagPlaylists flagMods kept foundPlaylists foundMods].
    rewrite !app_assoc. reflexivity.
Qed.

Lemma walk_again_all children :
  Forall (fun c => forall p m,
            walkAll (kept (walkNode p m c)) p m
            = mkWalk (flagPlaylists (walkNode p m c))
                (flagMods (walkNode p m c)) (kept (walkNode p m c)) [] [])
    children ->
  forall p m,
    walkAll (kept (walkAll children p m)) p m
    = mkWalk (flagPlaylists (walkAll children p m))
        (flagMods (walkAll children p m)) (kept (walkAll children p m)) [] [].
Proof.
  induction 1 as [|c cs Hc _ IH]; intros p m; [reflexivity|].
  cbn [walkAll]. unfold seqWalk at 1.
  cbn [kept flagPlaylists flagMods].
  rewrite walkAll_app, Hc. cbn [flagPlaylists flagMods].
  rewrite IH. reflexivity.
Qed.

Lemma walk_again n : forall p m,
  walkAll (kept (walkNode p m n)) p m
  = mkWalk (flagPlaylists (walkNode p m n)) (flagMods (walkNode p m n))
      (kept (walkNode p m n)) [] [].
Proof.
  induction n as [name attr children IH| | | |] using Node_forest_ind;
    intros p m; try reflexivity.
  pose proof (walk_again_all children IH) as Hall.
  rewrite walkNode_Elem. cbv zeta.
  destruct (Local name =? "playlists")%string eqn:Ep.
  { cbn [kept flagPlaylists flagMods walkAll].
    rewrite walkNode_Elem. cbv zeta. rewrite Ep, Hall. reflexivity. }
  destruct (Local name =? "mods")%string eqn:Em.
  { cbn [kept flagPlaylists flagMods walkAll].
    rewrite walkNode_Elem. cbv zeta. rewrite Ep, Em, Hall. reflexivity. }
  destruct (if (p || m) && (Local name =? "path")%string
            then findWorkshopID attr else None) as [id|] eqn:Ef.
  { reflexivity. }
  cbn [kept flagPlaylists flagMods walkAll].
  rewrite walkNode_Elem. cbv zeta. rewrite Ep, Em, Ef, Hall. reflexivity.
Qed.

Lemma walkAll_again ns p m :
  walkAll (kept (walkAll ns p m)) p m
  = mkWalk (flagPlaylists (walkAll ns p m)) (flagMods (walkAll ns p m))
      (kept (walkAll ns p m)) [] [].
Proof.
  apply walk_again_all. apply Forall_forall. intros c _. apply walk_again.
Qed.

(** X16. The extraction leaves nothing to extract: run again on the
    tokens it handed to the encoder for a well-formed document, the
    loop records no playlist id and no mod id and hands on the same
    tokens. *)
Theorem extraction_leaves_nothing_to_extract (doc : list Node) :
  playlistIDs
    (extractLoop (output (extractLoop (tokensOf doc) initialExtract))
       initialExtract) = []
  /\ modIDs
       (extractLoop (output (extractLoop (tokensOf doc) initialExtract))
          initialExtract) = []
  /\ output
       (extractLoop (output (extractLoop (tokensOf doc) initialExtract))
          initialExtract)
     = output (extractLoop (tokensOf doc) initialExtract).
Proof.
  rewrite (loop_nodes doc initialExtract eq_refl eq_refl).
  cbn [after initialExtract output inPlaylists inMods app].
  rewrite (loop_nodes _ initialExtract eq_refl eq_refl).
  cbn [initialExtract inPlaylists inMods]. rewrite walkAll_again.
  repeat split; reflexivity.
Qed.

Lemma findWorkshopID_matches attr id :
  findWorkshopID attr = Some id -> workshopIDRegex_MatchString id = true.
Proof.
  induction attr as [|a rest IH]; [discriminate|]. cbn [findWorkshopID].
  destruct ((Local (AttrName a) =? "path")%string
            && workshopIDRegex_MatchString (Value a)) eqn:E; [|exact IH].
  intros [= <-]. apply andb_true_iff in E as [_ E]. exact E.
Qed.

(** One iteration hands the token on, or drops it, or drops it and
    records one id that the regexp matches. *)
Lemma extractStep_shape st t :
  (output (extractStep st t) = output st ++ [t]
   /\ playlistIDs (extractStep st t) = playlistIDs st
   /\ modIDs (extractStep st t) = modIDs st)
  \/ (output (extractStep st t) = output st
      /\ playlistIDs (extractStep st t) = playlistIDs st
      /\ modIDs (extractStep st t) = modIDs st)
  \/ (output (extractStep st t) = output st
      /\ exists id,
           workshopIDRegex_MatchString id = true
           /\ (playlistIDs (extractStep st t) = playlistIDs st ++ [id]
               /\ modIDs (extractStep st t) = modIDs st
               \/ playlistIDs (extractStep st t) = playlistIDs st
                  /\ modIDs (extractStep st t) = modIDs st ++ [id])).
Proof.
  destruct st as [p m sk d pl md out].
  unfold extractStep, encode, setSkip, setFlags, recordID.
  cbn [skipElement depth inPlaylists inMods playlistIDs modIDs output].
  destruct sk.
  { right. left.
    match goal with
    | |- context [if ?b then _ else _] => destruct b
    end; cbn; auto. }
  destruct t as [name attr|name| | | |]; try solve [left; cbn; auto].
  - destruct (Local name =? "playlists")%string; [solve [left; cbn; auto]|].
    destruct (Local name =? "mods")%string; [solve [left; cbn; auto]|].
    destruct ((p || m) && (Local name =? "path")%string);
      [|solve [left; cbn; auto]].
    destruct (findWorkshopID attr) as [id|] eqn:Ef; [|solve [left; cbn; auto]].
    right. right. apply findWorkshopID_matches in Ef.
    destruct p; cbn; (split; [reflexivity|]); exists id; auto.
  - left. destruct (Local name =? "playlists")%string; [cbn; auto|].
    destruct (Local name =? "mods")%string; cbn; auto.
Qed.

Lemma extractLoop_shape toks : forall st,
  exists handed found,
    output (extractLoop toks st) = output st ++ handed
    /\ handed `sublist_of` toks
    /\ Permutation (playlistIDs (extractLoop toks st)
                    ++ modIDs (extractLoop toks st))
         (playlistIDs st ++ modIDs st ++ found)
    /\ Forall (fun id => workshopIDRegex_MatchString id = true) found
    /\ (length handed + length found <= length toks)%nat.
Proof.
  induction toks as [|t rest IH]; intros st.
  - exists [], []. cbn. rewrite !app_nil_r.
    repeat split; auto using sublist_nil.
  - unfold extractLoop in *. cbn [fold_left].
    destruct (IH (extractStep st t))
      as (handed & found & Ho & Hs & Hp & Hf & Hl).
    destruct (extractStep_shape st t)
      as [(E1 & E2 & E3)|[(E1 & E2 & E3)|(E1 & id & Hid & E)]].
    + exists (t :: handed), found.
      split; [rewrite Ho, E1, <- app_assoc; reflexivity|].
      split; [apply sublist_skip, Hs|].
      split; [rewrite Hp, E2, E3; reflexivity|].
      split; [exact Hf|cbn [length]; lia].
    + exists handed, found.
      split; [rewrite Ho, E1; reflexivity|].
      split; [apply sublist_cons, Hs|].
      split; [rewrite Hp, E2, E3; reflexivity|].
      split; [exact Hf|cbn [length]; lia].
    + exists handed, (id :: found).
      split; [rewrite Ho, E1; reflexivity|].
      split; [apply sublist_cons, Hs|].
      split; [|split; [constructor; assumption|cbn [length]; lia]].
      rewrite Hp. destruct E as [[-> ->]|[-> ->]].
      * rewrite <- !app_assoc. cbn [app].
        apply Permutation_app_head. apply Permutation_middle.
      * rewrite <- !app_assoc. cbn [app]. reflexivity.
Qed.

(** X17. Whatever tokens the extraction reads, well formed or not, it
    adds none and reorders none: the tokens it hands to the encoder are
    a subsequence of the tokens read. Every id it records is matched by
    the id pattern, and each recorded id costs at least one token that
    is not handed on. *)
Theorem extraction_only_drops (toks : list Token) :
  output (extractLoop toks initialExtract) `sublist_of` toks
  /\ (forall id,
        In id (playlistIDs (extractLoop toks initialExtract)
               ++ modIDs (extractLoop toks initialExtract)) ->
        workshopIDRegex_MatchString id = true)
  /\ (length (output (extractLoop toks initialExtract))
      + length (playlistIDs (extractLoop toks initialExtract))
      + length (modIDs (extractLoop toks initialExtract))
      <= length toks)%nat.
Proof.
  destruct (extractLoop_shape toks initialExtract)
    as (handed & found & Ho & Hs & Hp & Hf & Hl).
  cbn [initialExtract output playlistIDs modIDs app] in Ho, Hp.
  rewrite Ho. split; [exact Hs|]. split.
  - intros id Hin. rewrite Forall_forall in Hf. apply Hf.
    apply list_elem_of_In in Hin. rewrite <- Hp. exact Hin.
  - rewrite <- Nat.add_assoc, <- length_app.
    rewrite (Permutation_length Hp). exact Hl.
Qed.

(** ** What the reinsertion adds and what it leaves *)

Lemma synthesized_length fp sp sm dir t :
  length (synthesized fp sp sm dir t)
  = (2 * (length sp * closings "playlists" [t]
          + length sm * closings "mods" [t]))%nat.
Proof.
  assert (Hlen : forall (f : string -> string) ids,
            length (flat_map (fun id => pathElement (f id)) ids)
            = (2 * length ids)%nat).
  { intros f ids. induction ids as [|id rest IH]; [reflexivity|].
    cbn [flat_map pathElement app length]. rewrite IH. lia. }
  unfold synthesized, closings.
  destruct t as [|name| | | |]; cbn [List.filter length]; try lia.
  destruct (Local name =? "playlists")%string eqn:Ep.
  - apply String.eqb_eq in Ep. rewrite Ep. cbn. rewrite Hlen. lia.
  - destruct (Local name =? "mods")%string; cbn; [rewrite Hlen|]; lia.
Qed.

Lemma closings_cons local t toks :
  closings local (t :: toks)
  = (closings local [t] + closings local toks)%nat.
Proof.
  unfold closings. cbn [List.filter].
  destruct t as [|name| | | |]; try reflexivity.
  destruct (Local name =? local)%string; reflexivity.
Qed.

(** X18. The reinsertion removes and reorders nothing: the tokens it
    read are a subsequence of the tokens it hands to the encoder, and
    it adds two tokens for every successful playlist id before every
    end tag named playlists and two for every successful mod id before
    every end tag named mods. So with no successful id, or with no such
    end tag in the document, it hands on the tokens as read and the ids
    are written nowhere. *)
Theorem reinsertion_only_adds (fp : Filepath)
  (successfulPlaylistIDs successfulModIDs : list string)
  (configDirAbsPath : string) (toks : list Token) :
  toks `sublist_of`
    addLoop fp successfulPlaylistIDs successfulModIDs configDirAbsPath toks []
  /\ length
       (addLoop fp successfulPlaylistIDs successfulModIDs configDirAbsPath
          toks [])
     = (length toks
        + 2 * (length successfulPlaylistIDs * closings "playlists" toks
               + length successfulModIDs * closings "mods" toks))%nat
  /\ ((successfulPlaylistIDs = [] \/ closings "playlists" toks = 0%nat) ->
      (successfulModIDs = [] \/ closings "mods" toks = 0%nat) ->
      addLoop fp successfulPlaylistIDs successfulModIDs configDirAbsPath
        toks []
      = toks).
Proof.
  rewrite addLoop_flat. cbn [app].
  assert (Hsub : toks `sublist_of`
            flat_map
              (fun t => synthesized fp successfulPlaylistIDs successfulModIDs
                          configDirAbsPath t ++ [t]) toks).
  { induction toks as [|t rest IH]; [apply sublist_nil|].
    cbn [flat_map]. rewrite <- app_assoc. apply sublist_inserts_l.
    cbn [app]. apply sublist_skip, IH. }
  assert (Hlen : length
            (flat_map
               (fun t => synthesized fp successfulPlaylistIDs successfulModIDs
                           configDirAbsPath t ++ [t]) toks)
          = (length toks
             + 2 * (length successfulPlaylistIDs * closings "playlists" toks
                    + length successfulModIDs * closings "mods" toks))%nat).
  { clear Hsub. induction toks as [|t rest IH]; [cbn; lia|].
    cbn [flat_map]. rewrite !length_app, IH, synthesized_length.
    rewrite (closings_cons "playlists" t rest), (closings_cons "mods" t rest).
    cbn [length]. lia. }
  split; [exact Hsub|]. split; [exact Hlen|].
  clear Hsub Hlen. induction toks as [|t rest IH]; intros Hp Hm;
    [reflexivity|].
  rewrite (closings_cons "playlists" t rest) in Hp.
  rewrite (closings_cons "mods" t rest) in Hm.
  cbn [flat_map].
  assert (Hnone : synthesized fp successfulPlaylistIDs successfulModIDs
                    configDirAbsPath t = []).
  { apply length_zero_iff_nil. rewrite synthesized_length.
    destruct Hp as [->|Hp], Hm as [->|Hm]; cbn [length]; lia. }
  rewrite Hnone. cbn [app]. f_equal. apply IH.
  - destruct Hp as [Hp|Hp]; [left; exact Hp|right; lia].
  - destruct Hm as [Hm|Hm]; [left; exact Hm|right; lia].
Qed.

(** ** The success marker and the failed list *)

Lemma takeDigits_allDigits s : allDigits (takeDigits s) = true.
Proof.
  induction s as [|c rest IH]; [reflexivity|]. cbn [takeDigits].
  destruct (isDigit c) eqn:E; [|reflexivity].
  cbn [allDigits]. rewrite E, IH. reflexivity.
Qed.

Lemma matchHere_matches s id :
  matchHere s = Some id -> workshopIDRegex_MatchString id = true.
Proof.
  unfold matchHere. destruct (stripPrefix "Success" s) as [[|c rest]|];
    try discriminate.
  destruct (Ascii.eqb c "010"%char); [discriminate|].
  destruct (stripPrefix " Downloaded item " rest) as [tail|]; [|discriminate].
  pose proof (takeDigits_allDigits tail) as H.
  destruct (takeDigits tail) as [|d digits]; [discriminate|].
  intros [= <-]. exact H.
Qed.

Lemma takeDigits_app id rest :
  allDigits id = true ->
  match rest with
  | String c _ => isDigit c = false
  | EmptyString => True
  end ->
  takeDigits (id ++ rest) = id.
Proof.
  intros Hid Hrest. induction id as [|c id' IH].
  - destruct rest as [|c rest']; [reflexivity|].
    change (takeDigits (String c rest') = EmptyString).
    cbn [takeDigits]. rewrite Hrest. reflexivity.
  - cbn [allDigits] in Hid. apply andb_true_iff in Hid as [Hc Hid].
    change (takeDigits (String c (id' ++ rest)) = String c id').
    cbn [takeDigits]. rewrite Hc, (IH Hid). reflexivity.
Qed.

Lemma stripPrefix_app prefix s :
  stripPrefix prefix (prefix ++ s) = Some s.
Proof.
  induction prefix as [|c prefix' IH]; [destruct s; reflexivity|].
  change (stripPrefix (String c prefix') (String c (prefix' ++ s)) = Some s).
  cbn [stripPrefix]. rewrite Ascii.eqb_refl. exact IH.
Qed.

(** X19. The marker pattern reads back the id of a success line: on a
    line that starts with the marker text followed by an id of digits
    and then no further digit, it captures exactly that id; and on any
    line, whatever it captures is a non-empty string of digits, which
    the id pattern of the extraction matches. *)
Theorem success_marker_round_trip (id rest : string) :
  workshopIDRegex_MatchString id = true ->
  match rest with
  | String c _ => isDigit c = false
  | EmptyString => True
  end ->
  findSuccessID ("Success. Downloaded item " ++ id ++ rest) = Some id
  /\ forall line captured,
       findSuccessID line = Some captured ->
       workshopIDRegex_MatchString captured = true.
Proof.
  intros Hid Hrest. split.
  - assert (Hm : matchHere ("Success. Downloaded item " ++ id ++ rest)
                 = Some id).
    { unfold matchHere.
      change ("Success. Downloaded item " ++ id ++ rest)%string
        with ("Success"
              ++ String "."%char (" Downloaded item " ++ (id ++ rest)))%string.
      rewrite stripPrefix_app.
      replace (Ascii.eqb "."%char "010"%char) with false by reflexivity.
      rewrite stripPrefix_app.
      destruct id as [|c id']; [discriminate|].
      cbn [workshopIDRegex_MatchString] in Hid.
      rewrite (takeDigits_app (String c id') rest Hid Hrest). reflexivity. }
    destruct ("Success. Downloaded item " ++ id ++ rest)%string eqn:E;
      cbn [findSuccessID]; rewrite Hm; reflexivity.
  - intros line. induction line as [|c line' IH]; intros captured;
      cbn [findSuccessID].
    + destruct (matchHere "") eqn:E; [|discriminate].
      intros [= <-]. exact (matchHere_matches _ _ E).
    + destruct (matchHere (String c line')) eqn:E; [|apply IH].
      intros [= <-]. exact (matchHere_matches _ _ E).
Qed.

Lemma success_marker_round_trip_witness :
  findSuccessID ("Success. Downloaded item " ++ "123" ++ " to folder")
  = Some "123".
Proof.
  apply (success_marker_round_trip "123" " to folder"); reflexivity.
Defined.

(** X20. The failed list holds exactly the requested ids that are in
    neither success list, in the order of the request, playlists first,
    with their repetitions. With empty success lists it is the whole
    request; when every requested id succeeded it is empty. *)
Theorem failed_ids_are_the_rest
  (requestedPlaylists requestedMods successfulPlaylists successfulMods
     : list string) :
  (forall id,
      In id (calculateFailedIDs requestedPlaylists requestedMods
               successfulPlaylists successfulMods)
      <-> In id (requestedPlaylists ++ requestedMods)
          /\ ~ In id (successfulPlaylists ++ successfulMods))
  /\ calculateFailedIDs requestedPlaylists requestedMods
       successfulPlaylists successfulMods
     `sublist_of` requestedPlaylists ++ requestedMods
  /\ calculateFailedIDs requestedPlaylists requestedMods [] []
     = requestedPlaylists ++ requestedMods
  /\ ((forall id, In id (requestedPlaylists ++ requestedMods) ->
         In id (successfulPlaylists ++ successfulMods)) ->
      calculateFailedIDs requestedPlaylists requestedMods
        successfulPlaylists successfulMods = []).
Proof.
  rewrite !calculateFailedIDs_filter.
  assert (Hin : forall l id, inList l id = true <-> In id l).
  { intros l id. unfold inList. rewrite existsb_exists. split.
    - intros (x & Hx & E). apply String.eqb_eq in E. subst x. exact Hx.
    - intros H. exists id. split; [exact H|apply String.eqb_refl]. }
  split; [|split; [|split]].
  - intros id. rewrite filter_In, negb_true_iff, <- not_true_iff_false, Hin.
    reflexivity.
  - induction (requestedPlaylists ++ requestedMods) as [|x l IH];
      [apply sublist_nil|].
    cbn [List.filter]. destruct (negb _);
      [apply sublist_skip, IH|apply sublist_cons, IH].
  - cbn [app inList existsb negb].
    induction (requestedPlaylists ++ requestedMods) as [|x l IH];
      [reflexivity|].
    cbn [List.filter]. rewrite IH. reflexivity.
  - intros Hall.
    induction (requestedPlaylists ++ requestedMods) as [|x l IH];
      [reflexivity|].
    cbn [List.filter].
    replace (inList (successfulPlaylists ++ successfulMods) x) with true
      by (symmetry; apply Hin, Hall; left; reflexivity).
    cbn [negb]. apply IH. intros id H. apply Hall. right. exact H.
Qed.

(** ** A fetch whose output names no requested id *)

(** X21. When the output of the tool has no success marker for a
    requested id, because it has no marker at all or markers of other
    ids only, the fetch removes nothing and copies nothing: the file
    system is as the tool left it, both success lists are empty and no
    error is returned. *)
Theorem unrequested_markers_touch_nothing {W : Type} (host : Host W)
  (fp : Filepath) (playlistIDs modIDs : list string)
  (playlistDir modDir gameAppID steamCmdPath : string) (w w0 : W)
  (lines : list string) (waitErr : bool) :
  (forall m : gmap string bool,
      Permutation (rangeOrder host m) (map fst (map_to_list m))) ->
  playlistIDs ++ modIDs <> [] ->
  runSteamCmd host w steamCmdPath (steamCmdArgs gameAppID playlistIDs modIDs)
  = (w0, Ran lines false waitErr) ->
  (forall line id,
      In line lines -> FindSuccessID host line = Some id ->
      ~ In id (playlistIDs ++ modIDs)) ->
  DownloadWorkshopItems host fp playlistIDs modIDs playlistDir modDir
    gameAppID steamCmdPath w
  = (w0, ([], [], false)).
Proof.
  intros Hperm Hreq Hrun Hother.
  destruct (scan_marked host lines ∅) as [_ Hseen].
  { intros id b. rewrite lookup_empty. discriminate. }
  destruct (rangeOrder_keys host (scanStdout host lines) Hperm) as [_ Hkeys].
  unfold DownloadWorkshopItems.
  replace ((length playlistIDs =? 0)%nat && (length modIDs =? 0)%nat)
    with false
    by (destruct playlistIDs, modIDs; try reflexivity; contradiction).
  rewrite Hrun. cbv zeta.
  assert (Hskip : forall l acc,
            (forall id, In id l ->
               In id (rangeOrder host (scanStdout host lines))) ->
            fold_left
              (materializeStep host fp (contentBase fp gameAppID steamCmdPath)
                 playlistDir modDir (scanStdout host lines)
                 (buildAllItems playlistIDs modIDs))
              l acc = acc).
  { induction l as [|id rest IH]; intros acc Hl; [reflexivity|].
    cbn [fold_left].
    assert (Hnone : buildAllItems playlistIDs modIDs !! id = None).
    { destruct (buildAllItems playlistIDs modIDs !! id) as [t|] eqn:Et;
        [|reflexivity].
      exfalso. specialize (Hl id (or_introl eq_refl)).
      apply Hkeys in Hl. unfold scanStdout in Hl. apply Hseen in Hl.
      destruct Hl as [[x Hx]|(line & Hline & Hfind)].
      { rewrite lookup_empty in Hx. discriminate. }
      apply (Hother line id Hline Hfind). apply in_app_iff.
      apply buildAllItems_lookup in Et as [[_ H]|(_ & H & _)]; auto. }
    replace (materializeStep host fp (contentBase fp gameAppID steamCmdPath)
               playlistDir modDir (scanStdout host lines)
               (buildAllItems playlistIDs modIDs) acc id) with acc.
    - apply IH. intros x Hx. apply Hl. right. exact Hx.
    - unfold materializeStep. destruct acc as [wa fm].
      destruct (negb (lookupBool (scanStdout host lines) id)); [reflexivity|].
      rewrite Hnone. reflexivity. }
  rewrite (Hskip _ (w0, ∅) (fun id H => H)).
  assert (Hempty : rangeOrder host ∅ = []).
  { apply Permutation_nil. rewrite (Hperm ∅), map_to_list_empty.
    reflexivity. }
  rewrite Hempty. reflexivity.
Qed.

Lemma unrequested_markers_touch_nothing_witness :
  DownloadWorkshopItems fetchHost unixFilepath ["77"] []
    (WorkshopPlaylistsInstallDir workshop) (WorkshopModsInstallDir workshop)
    (GameAppID workshop) (SteamCmdPath workshop) []
  = (fetchCache ++ [], ([], [], false)).
Proof.
  apply (unrequested_markers_touch_nothing fetchHost unixFilepath ["77"] []
           (WorkshopPlaylistsInstallDir workshop)
           (WorkshopModsInstallDir workshop) (GameAppID workshop)
           (SteamCmdPath workshop) [] (fetchCache ++ []) fetchLines false).
  - intros m. reflexivity.
  - discriminate.
  - reflexivity.
  - intros line id Hline Hfind [Hid|[]]. subst id.
    cbn [fetchLines In] in Hline.
    destruct Hline as [<-|[<-|[<-|[<-|[]]]]]; vm_compute in Hfind;
      discriminate.
Defined.

(** ** The configuration directory of a start request that fails *)

Lemma contentStage_sends env name playlistIDs modIDs xml e :
  In e (fst (contentStage env name playlistIDs modIDs xml)) ->
  (exists status, e = SendStatusUpdate status)
  \/ (exists r, e = SendResponse r /\ Success r = false).
Proof.
  unfold contentStage.
  destruct ((0 <? length playlistIDs)%nat || (0 <? length modIDs)%nat);
    [|intros []].
  destruct (envDownload env playlistIDs modIDs) as [[sp sm] err].
  destruct (envAbs env _) as [dir|];
    [destruct (addWorkshopPathsToXML _ _ _ _ _ _) as [final|]|];
    destruct err; cbn;
    intuition (subst; eauto).
Qed.

Lemma stopExistingProcess_kills cfg name st e :
  In e (snd (stopExistingProcess cfg name st)) ->
  exists pid, e = Kill pid \/ e = Wait pid.
Proof.
  unfold stopExistingProcess. destruct (runningProcs st !! name) as [info|];
    cbn; intuition (subst; eauto).
Qed.

Lemma In_responses effects r :
  In (SendResponse r) effects <-> In r (responses effects).
Proof.
  unfold responses. rewrite in_flat_map. split.
  - intros H. exists (SendResponse r). split; [exact H|left; reflexivity].
  - intros (e & He & Hr). destruct e; cbn in Hr; try contradiction.
    destruct Hr as [->|[]]. exact He.
Qed.

(** X22. A start request that fails after the configuration file was
    saved removes the configuration directory again, and a start request
    that succeeds has saved the file and does not remove the directory:
    a failure response never leaves a saved configuration behind. *)
Theorem failed_start_removes_saved_config (cfg : Config) (env : StartEnv)
  (data : StartServerPayload) (st : State) (r : ResponsePayload) :
  In (SendResponse r) (snd (handleStartServerProcess cfg env data st)) ->
  (Success r = false ->
   (exists xml,
       In (SaveConfigFile (StartName data) xml)
         (snd (handleStartServerProcess cfg env data st))) ->
   In (RemoveConfigDir (StartName data))
     (snd (handleStartServerProcess cfg env data st)))
  /\ (Success r = true ->
      (exists xml,
          In (SaveConfigFile (StartName data) xml)
            (snd (handleStartServerProcess cfg env data st)))
      /\ ~ In (RemoveConfigDir (StartName data))
             (snd (handleStartServerProcess cfg env data st))).
Proof.
  unfold handleStartServerProcess.
  destruct (findAvailablePort _ _ _) as [[p|]|]; [| |intros []].
  2: { cbn. intros [[= <-]|[]]. split; [intros _ [xml [H|[]]]|]; discriminate. }
  destruct (ConfigManager.updateXmlPort _ _ _) as [xmlWithPort|].
  2: { cbn. intros [[= <-]|[]]. split; [intros _ [xml [H|[]]]|]; discriminate. }
  destruct (extractWorkshopIDsAndModifyXML _ _)
    as [[[playlistIDs modIDs] xmlWithIdsRemoved]|].
  2: { cbn. intros [[= <-]|[]]. split; [intros _ [xml [H|[]]]|]; discriminate. }
  pose proof (contentStage_sends env (StartName data) playlistIDs modIDs
                xmlWithIdsRemoved) as Hsent.
  pose proof (contentStage_effects env (StartName data) playlistIDs modIDs
                xmlWithIdsRemoved) as (_ & _ & Hresp).
  destruct (contentStage env (StartName data) playlistIDs modIDs
              xmlWithIdsRemoved) as [sent [[failedItemIDs xmlToSave]|]];
    cbn [fst snd] in *.
  2: { intros Hr. split.
       - intros _ [xml Hx]. apply Hsent in Hx as [[? H]|(? & H & _)];
           discriminate.
       - intros Hs. apply Hsent in Hr as [[? H]|(? & [= <-] & H)];
           [discriminate|congruence]. }
  assert (Hfiles : forall e, In e sent ->
            (forall xml, e <> SaveConfigFile (StartName data) xml)
            /\ e <> RemoveConfigDir (StartName data)).
  { intros e He. apply Hsent in He as [[? ->]|(r' & -> & _)];
      split; discriminate. }
  assert (Hquiet : ~ In (SendResponse r) sent).
  { intros H. apply In_responses in H. rewrite Hresp in H. destruct H. }
  unfold launchStage. destruct (envSaved env); cbn [negb].
  2: { cbn [fst snd]. intros Hr. split.
       - intros _ [xml Hx]. apply in_app_iff in Hx as [Hx|[Hx|[]]];
           [|discriminate].
         destruct (Hfiles _ Hx) as [H _]. destruct (H xml eq_refl).
       - intros Hs. apply in_app_iff in Hr as [Hr|[[= <-]|[]]];
           [contradiction|discriminate]. }
  destruct (assignPort cfg p (ProcessManager.usedPorts st)) as [[] ports1];
    cbn [negb].
  2: { cbn [fst snd]. intros Hr. split.
       - intros _ _. apply in_app_iff. right. cbn. auto.
       - intros Hs. apply in_app_iff in Hr as [Hr|Hr]; [contradiction|].
         cbn in Hr. destruct Hr as [|[[= <-]|[|[]]]]; discriminate. }
  pose proof (stopExistingProcess_kills cfg (StartName data)
                (mkState (runningProcs st) ports1)) as Hkills.
  destruct (stopExistingProcess cfg (StartName data)
              (mkState (runningProcs st) ports1)) as [st2 stopEffects].
  cbn [snd] in Hkills.
  assert (Hstop : forall e, In e stopEffects ->
            (forall xml, e <> SaveConfigFile (StartName data) xml)
            /\ e <> RemoveConfigDir (StartName data)
            /\ e <> SendResponse r).
  { intros e He. apply Hkills in He as [pid [->| ->]];
      repeat split; discriminate. }
  destruct (envStarted env) as [process|]; cbn [fst snd]; intros Hr;
    apply in_app_iff in Hr as [Hr|Hr]; try contradiction;
    cbn [app In] in Hr; destruct Hr as [Hr|Hr]; try discriminate;
    apply in_app_iff in Hr as [Hr|Hr];
    try (destruct (Hstop _ Hr) as (_ & _ & []); reflexivity);
    cbn [In] in Hr.
  - destruct Hr as [[= <-]|[Hr|[]]]; [|discriminate]. split; [discriminate|].
    intros _. split.
    + exists xmlToSave. apply in_app_iff. right. left. reflexivity.
    + intros H. apply in_app_iff in H as [H|H].
      { destruct (Hfiles _ H) as [_ []]. reflexivity. }
      cbn [app In] in H. destruct H as [H|H]; [discriminate|].
      apply in_app_iff in H as [H|H].
      { destruct (Hstop _ H) as (_ & [] & _). reflexivity. }
      cbn [In] in H. destruct H as [H|[H|[]]]; discriminate.
  - destruct Hr as [Hr|[[= <-]|[]]]; [discriminate|].
    split; [|discriminate]. intros _ _.
    apply in_app_iff. right. cbn [app In]. right.
    apply in_app_iff. right. left. reflexivity.
Qed.

Lemma failed_start_removes_saved_config_witness :
  (exists xml,
      In (SaveConfigFile (StartName startData) xml)
        (snd (handleStartServerProcess (mkConfig 9000 9000) startEnv startData
                InitializeProcessManager)))
  /\ ~ In (RemoveConfigDir (StartName startData))
         (snd (handleStartServerProcess (mkConfig 9000 9000) startEnv
                 startData InitializeProcessManager)).
Proof.
  apply (failed_start_removes_saved_config (mkConfig 9000 9000) startEnv
           startData InitializeProcessManager startResponse).
  - vm_compute. right. right. right. left. reflexivity.
  - reflexivity.
Defined.

(** ** The configurations [LoadConfig] lets through *)

Import ConfigLoad.

(** X23. [LoadConfig] returns exactly when every required variable is
    set, MIN_PORT, MAX_PORT and GAME_APPID are numbers and
    1024 <= MIN_PORT <= MAX_PORT <= 65535; the settings then hold the
    values of the environment, and the port range passes the range test
    the port table relies on, so it has at least one port. *)
Theorem LoadConfig_returns_valid_range (Getenv : string -> string)
  (Atoi : string -> option Z) (settings : Settings) :
  LoadConfig Getenv Atoi = inr settings
  <-> (forall key, In key required -> Getenv key <> EmptyString)
      /\ Atoi (Getenv minPortEnvKey) = Some (MinPort (Ports settings))
      /\ Atoi (Getenv maxPortEnvKey) = Some (MaxPort (Ports settings))
      /\ is_Some (Atoi (Getenv gameAppIDEnvKey))
      /\ LoadConfig_accepts (Ports settings) = true
      /\ 1024 <= MinPort (Ports settings) <= MaxPort (Ports settings)
      /\ MaxPort (Ports settings) <= 65535
      /\ (0 < length (portsInRange (Ports settings)))%nat
      /\ settings
         = mkSettings (Getenv wsURLEnvKey) (Getenv serverExePathEnvKey)
             (Getenv tokenEnvKey) (Ports settings)
             (mkWorkshop (Getenv workshopPlaylistsInstallDirEnvKey)
                (Getenv workshopModsInstallDirEnvKey)
                (Getenv steamCmdPathEnvKey) (Getenv gameAppIDEnvKey)).
Proof.
  unfold LoadConfig. split.
  - repeat match goal with
           | |- context [(?s =? "")%string] =>
               destruct (String.eqb_spec s ""); [discriminate|]
           | |- context [match Atoi ?s with Some _ => _ | None => _ end] =>
               let E := fresh "E" in
               destruct (Atoi s) eqn:E; [|discriminate]
           end.
    match goal with
    | |- context [?lo >? ?hi] => destruct (lo >? hi) eqn:E2; [discriminate|]
    end.
    match goal with
    | |- context [?a || ?b] => destruct (a || b) eqn:E3; [discriminate|]
    end.
    intros [= <-]. cbn [Ports MinPort MaxPort].
    match goal with
    | |- context [mkConfig ?lo ?hi] =>
        assert (Hacc : LoadConfig_accepts (mkConfig lo hi) = true)
    end.
    { unfold LoadConfig_accepts. cbn [MinPort MaxPort]. rewrite E2, E3.
      reflexivity. }
    pose proof (accepted_range _ Hacc) as (H1 & H2 & H3).
    cbn [MinPort MaxPort] in *.
    split.
    { intros key Hkey. unfold required in Hkey. cbn [In] in Hkey.
      repeat (destruct Hkey as [<-|Hkey]; [assumption|]). destruct Hkey. }
    repeat split; try reflexivity; try assumption; try lia; eauto.
    unfold portsInRange. cbn [MinPort MaxPort]. rewrite length_seqZ. lia.
  - intros (Hset & Hlo & Hhi & [app Happ] & Hacc & _ & _ & _ & Heq).
    repeat match goal with
           | |- context [(Getenv ?k =? "")%string] =>
               destruct (String.eqb_spec (Getenv k) "") as [E|_];
                 [exfalso; apply (Hset k);
                  [unfold required; cbn; tauto|exact E]|]
           | |- context [match Atoi ?s with Some _ => _ | None => _ end] =>
               first [rewrite Hlo|rewrite Hhi|rewrite Happ]
           end.
    unfold LoadConfig_accepts in Hacc.
    apply andb_true_iff in Hacc as [H1 H2]. apply negb_true_iff in H1, H2.
    rewrite H1, H2. f_equal. rewrite Heq at 3.
    destruct (Ports settings). reflexivity.
Qed.

(** ** The extraction run on a document the reinsertion has written *)

Section Reinserted.
Variables (fp : Filepath) (sp sm : list string) (dir : string).
Hypothesis mod_paths :
  forall id, In id sm ->
    workshopIDRegex_MatchString (modPathFinal fp dir id) = false.

Lemma playlistPath_not_id id :
  workshopIDRegex_MatchString (playlistPath id) = false.
Proof. reflexivity. Qed.

(** A synthesized element passes the extraction loop untouched, and is
    dropped with everything else inside a dropped element. *)
Lemma extract_pathElement value st :
  workshopIDRegex_MatchString value = false ->
  (skipElement st = true -> 1 <= depth st) ->
  extractLoop (pathElement value) st
  = if skipElement st then st
    else mkExtract (inPlaylists st) (inMods st) false (depth st)
           (playlistIDs st) (modIDs st) (output st ++ pathElement value).
Proof.
  intros Hvalue Hdepth. destruct st as [p m sk d pl md out].
  cbn [skipElement depth] in Hdepth.
  unfold extractLoop, pathElement. cbn [fold_left].
  unfold extractStep at 2.
  cbn [skipElement depth inPlaylists inMods playlistIDs modIDs output].
  destruct sk.
  - specialize (Hdepth eq_refl).
    replace (d + 1 =? 0) with false by (symmetry; apply Z.eqb_neq; lia).
    unfold extractStep, setSkip.
    cbn [skipElement depth inPlaylists inMods playlistIDs modIDs output].
    replace (d + 1 - 1 =? 0) with false by (symmetry; apply Z.eqb_neq; lia).
    f_equal. lia.
  - unfold extractStep, encode, setSkip, setFlags, recordID.
    cbn. rewrite Hvalue.
    destruct p, m; cbn; rewrite <- app_assoc; reflexivity.
Qed.

Lemma extract_paths (template : string -> string) ids : forall st,
  (forall id, In id ids -> workshopIDRegex_MatchString (template id) = false) ->
  (skipElement st = true -> 1 <= depth st) ->
  extractLoop (flat_map (fun id => pathElement (template id)) ids) st
  = if skipElement st then st
    else mkExtract (inPlaylists st) (inMods st) false (depth st)
           (playlistIDs st) (modIDs st)
           (output st ++ flat_map (fun id => pathElement (template id)) ids).
Proof.
  induction ids as [|id rest IH]; intros st Hids Hdepth.
  - cbn [flat_map]. unfold extractLoop. cbn [fold_left].
    destruct st as [p m [] d pl md out]; cbn; rewrite ?app_nil_r; reflexivity.
  - cbn [flat_map]. rewrite extractLoop_app.
    rewrite (extract_pathElement _ st (Hids id (or_introl eq_refl)) Hdepth).
    destruct (skipElement st) eqn:Esk.
    + rewrite IH;
        [rewrite Esk; reflexivity| |intros _; exact (Hdepth eq_refl)].
      intros x Hx. apply Hids. right. exact Hx.
    + rewrite IH; cbn [skipElement depth inPlaylists inMods playlistIDs
                         modIDs output]; [|intros x Hx; apply Hids; right;
                                            exact Hx|discriminate].
      rewrite <- app_assoc. reflexivity.
Qed.

Lemma extract_synthesized t st :
  (skipElement st = true -> 1 <= depth st) ->
  extractLoop (synthesized fp sp sm dir t) st
  = if skipElement st then st
    else mkExtract (inPlaylists st) (inMods st) false (depth st)
           (playlistIDs st) (modIDs st)
           (output st ++ synthesized fp sp sm dir t).
Proof.
  intros Hdepth. unfold synthesized.
  assert (Hnil : extractLoop [] st
                 = if skipElement st then st
                   else mkExtract (inPlaylists st) (inMods st) false (depth st)
                          (playlistIDs st) (modIDs st) (output st ++ [])).
  { destruct st as [p m [] d pl md out]; cbn; rewrite ?app_nil_r;
      reflexivity. }
  destruct t as [|name| | | |]; try exact Hnil.
  destruct (Local name =? "playlists")%string.
  { apply extract_paths; [|exact Hdepth]. intros id _.
    apply playlistPath_not_id. }
  destruct (Local name =? "mods")%string; [|exact Hnil].
  apply extract_paths; [exact mod_paths|exact Hdepth].
Qed.

Lemma skip_keeps_depth st t :
  (skipElement st = true -> 1 <= depth st) ->
  skipElement (extractStep st t) = true -> 1 <= depth (extractStep st t).
Proof.
  destruct st as [p m sk d pl md out].
  unfold extractStep, encode, setSkip, setFlags, recordID.
  cbn [skipElement depth inPlaylists inMods playlistIDs modIDs output].
  intros Hdepth. destruct sk.
  - specialize (Hdepth eq_refl).
    destruct t; cbn;
      match goal with
      | |- context [?a =? 0] => destruct (Z.eqb_spec a 0)
      end; cbn; intros; try discriminate; lia.
  - destruct t as [name attr|name| | | |]; cbn;
      repeat match goal with
             | |- context [if ?b then _ else _] => destruct b
             | |- context [match ?o with Some _ => _ | None => _ end] =>
                 destruct o
             end; cbn; intros; try discriminate; lia.
Qed.

Lemma reinserted_step st t :
  (skipElement st = true -> 1 <= depth st) ->
  extractLoop (synthesized fp sp sm dir t ++ [t])
    (reinsertOutput fp sp sm dir st)
  = reinsertOutput fp sp sm dir (extractStep st t).
Proof.
  intros Hdepth. rewrite extractLoop_app, extract_synthesized;
    [|exact Hdepth].
  destruct st as [p m sk d pl md out].
  unfold reinsertOutput.
  cbn [skipElement depth inPlaylists inMods playlistIDs modIDs output]
    in *.
  rewrite !addLoop_flat. cbn [app].
  unfold extractLoop. cbn [fold_left].
  destruct sk.
  - unfold extractStep, setSkip.
    cbn [skipElement depth inPlaylists inMods playlistIDs modIDs output].
    destruct t; cbn;
      match goal with
      | |- context [if ?b then _ else _] => destruct b
      end; reflexivity.
  - assert (Hout : forall l,
              flat_map (fun t0 => synthesized fp sp sm dir t0 ++ [t0]) l
              ++ synthesized fp sp sm dir t ++ [t]
              = flat_map (fun t0 => synthesized fp sp sm dir t0 ++ [t0])
                  (l ++ [t])).
    { intros l. rewrite flat_map_app. cbn [flat_map].
      rewrite app_nil_r. reflexivity. }
    destruct t as [name attr|name| | | |];
      unfold extractStep, encode, setSkip, setFlags, recordID;
      cbn [skipElement depth inPlaylists inMods playlistIDs modIDs output];
      try (rewrite <- Hout, <- app_assoc; reflexivity).
    + cbn [synthesized app]. rewrite app_nil_r.
      repeat match goal with
             | |- context [if ?b then _ else _] => destruct b
             | |- context [match ?o with Some _ => _ | None => _ end] =>
                 destruct o
             end;
        cbn [skipElement depth inPlaylists inMods playlistIDs modIDs output];
        rewrite ?flat_map_app; cbn [flat_map synthesized app];
        rewrite ?app_nil_r; reflexivity.
    + rewrite <- app_assoc, Hout.
      destruct (Local name =? "playlists")%string; [reflexivity|].
      destruct (Local name =? "mods")%string; reflexivity.
Qed.

Lemma reinserted_loop toks : forall st,
  (skipElement st = true -> 1 <= depth st) ->
  extractLoop (flat_map (fun t => synthesized fp sp sm dir t ++ [t]) toks)
    (reinsertOutput fp sp sm dir st)
  = reinsertOutput fp sp sm dir (extractLoop toks st).
Proof.
  induction toks as [|t rest IH]; intros st Hdepth; [reflexivity|].
  cbn [flat_map]. rewrite extractLoop_app, reinserted_step by exact Hdepth.
  rewrite IH; [reflexivity|]. apply skip_keeps_depth, Hdepth.
Qed.

End Reinserted.

(** X24. The elements the reinsertion writes are not taken for
    references by a later extraction. When no mod path it writes is a
    string of digits, extracting from the tokens the reinsertion handed
    on, for any tokens read, records the ids that extracting from the
    tokens read records, and hands on what the reinsertion makes of the
    extraction's output: the two passes can be run in either order. *)
Theorem reinserted_paths_are_not_extracted (fp : Filepath)
  (successfulPlaylistIDs successfulModIDs : list string)
  (configDirAbsPath : string) (toks : list Token) :
  (forall id, In id successfulModIDs ->
     workshopIDRegex_MatchString (modPathFinal fp configDirAbsPath id)
     = false) ->
  playlistIDs
    (extractLoop
       (addLoop fp successfulPlaylistIDs successfulModIDs configDirAbsPath
          toks [])
       initialExtract)
  = playlistIDs (extractLoop toks initialExtract)
  /\ modIDs
       (extractLoop
          (addLoop fp successfulPlaylistIDs successfulModIDs configDirAbsPath
             toks [])
          initialExtract)
     = modIDs (extractLoop toks initialExtract)
  /\ output
       (extractLoop
          (addLoop fp successfulPlaylistIDs successfulModIDs configDirAbsPath
             toks [])
          initialExtract)
     = addLoop fp successfulPlaylistIDs successfulModIDs configDirAbsPath
         (output (extractLoop toks initialExtract)) [].
Proof.
  intros Hmods. rewrite (addLoop_flat _ _ _ _ toks). cbn [app].
  change initialExtract
    with (reinsertOutput fp successfulPlaylistIDs successfulModIDs
            configDirAbsPath initialExtract) at 1 3 5.
  rewrite (reinserted_loop fp successfulPlaylistIDs successfulModIDs
             configDirAbsPath Hmods toks initialExtract) by discriminate.
  repeat split; reflexivity.
Qed.

Lemma reinserted_paths_are_not_extracted_witness :
  playlistIDs
    (extractLoop
       (addLoop unixFilepath ["123"] ["456"] "/srv/swsc/config/a"
          (runTokens (Decode GoXml.codec containersText)) [])
       initialExtract)
  = playlistIDs
      (extractLoop (runTokens (Decode GoXml.codec containersText))
         initialExtract).
Proof.
  apply (reinserted_paths_are_not_extracted unixFilepath ["123"] ["456"]
           "/srv/swsc/config/a"
           (runTokens (Decode GoXml.codec containersText))).
  intros id [<-|[]]. reflexivity.
Defined.

(** ** The status updates of a start request *)

Lemma statuses_app a b : statuses (a ++ b) = statuses a ++ statuses b.
Proof. unfold statuses. apply flat_map_app. Qed.

Lemma contentStage_statuses env name playlistIDs modIDs xml :
  statuses (fst (contentStage env name playlistIDs modIDs xml))
  = if (0 <? length playlistIDs)%nat || (0 <? length modIDs)%nat then
      "workshop_download_start"
      :: (if snd (envDownload env playlistIDs modIDs)
          then ["workshop_download_error"] else [])
      ++ ["workshop_download_complete"]
    else [].
Proof.
  unfold contentStage.
  destruct ((0 <? length playlistIDs)%nat || (0 <? length modIDs)%nat);
    [|reflexivity].
  destruct (envDownload env playlistIDs modIDs) as [[sp sm] err].
  cbn [snd].
  destruct (envAbs env _) as [dir|];
    [destruct (addWorkshopPathsToXML _ _ _ _ _ _) as [final|]|];
    destruct err; reflexivity.
Qed.

(** A content stage that ends the request sends its response last. *)
Lemma contentStage_ends env name playlistIDs modIDs xml :
  snd (contentStage env name playlistIDs modIDs xml) = None ->
  exists pre r,
    fst (contentStage env name playlistIDs modIDs xml)
    = pre ++ [SendResponse r]
    /\ responses pre = [].
Proof.
  unfold contentStage.
  destruct ((0 <? length playlistIDs)%nat || (0 <? length modIDs)%nat);
    [|discriminate].
  destruct (envDownload env playlistIDs modIDs) as [[sp sm] err].
  destruct (envAbs env _) as [dir|];
    [destruct (addWorkshopPathsToXML _ _ _ _ _ _) as [final|];
     [discriminate|]|];
    intros _; cbn [fst]; eexists; eexists; (split; [reflexivity|]);
    destruct err; reflexivity.
Qed.

Lemma launchStage_statuses cfg env name port failed xml st :
  statuses (snd (launchStage cfg env name port failed xml st)) = [].
Proof.
  unfold launchStage. destruct (envSaved env); [|reflexivity]. cbn [negb].
  destruct (assignPort cfg port (ProcessManager.usedPorts st)) as [[] ports1];
    [|reflexivity].
  cbn [negb]. unfold stopExistingProcess.
  cbn [runningProcs ProcessManager.usedPorts].
  destruct (runningProcs st !! name) as [info|];
    destruct (envStarted env); reflexivity.
Qed.

(** X25. The status updates of a start request frame the fetch. When
    the extraction found an id, the start status is sent first and the
    complete status last, with the error status between them exactly
    when the fetch returned an error, whether the request goes on to
    succeed or fails afterwards; when it found none, or the request was
    refused before the extraction, no status update is sent. No status
    update follows the response. *)
Theorem status_updates_frame_the_fetch (cfg : Config) (env : StartEnv)
  (data : StartServerPayload) (st : State) :
  (forall assignedPort xmlWithPort playlistIDs modIDs xmlWithIdsRemoved,
      findAvailablePort (MinPort cfg) (MaxPort cfg)
        (ProcessManager.usedPorts st) = Some (Found assignedPort) ->
      updateXmlPort (envCodec env) (StartConfig data) assignedPort
      = Some xmlWithPort ->
      extractWorkshopIDsAndModifyXML (envCodec env) xmlWithPort
      = Some (playlistIDs, modIDs, xmlWithIdsRemoved) ->
      statuses (snd (handleStartServerProcess cfg env data st))
      = match playlistIDs ++ modIDs with
        | [] => []
        | _ :: _ =>
            "workshop_download_start"
            :: (if snd (envDownload env playlistIDs modIDs)
                then ["workshop_download_error"] else [])
            ++ ["workshop_download_complete"]
        end)
  /\ (statuses (snd (handleStartServerProcess cfg env data st)) <> [] ->
      exists assignedPort xmlWithPort extracted,
        findAvailablePort (MinPort cfg) (MaxPort cfg)
          (ProcessManager.usedPorts st) = Some (Found assignedPort)
        /\ updateXmlPort (envCodec env) (StartConfig data) assignedPort
           = Some xmlWithPort
        /\ extractWorkshopIDsAndModifyXML (envCodec env) xmlWithPort
           = Some extracted)
  /\ forall before r after,
       snd (handleStartServerProcess cfg env data st)
       = before ++ SendResponse r :: after ->
       statuses after = [].
Proof.
  unfold handleStartServerProcess.
  destruct (findAvailablePort _ _ _) as [[p|]|] eqn:Efind.
  2: { split; [discriminate|]. split; [intros []; reflexivity|].
       intros [|e before] r after H;
         [injection H as _ <-; reflexivity|].
       injection H as _ H. destruct before; discriminate. }
  2: { split; [discriminate|]. split; [intros []; reflexivity|].
       intros [|e before] r after H; discriminate. }
  destruct (ConfigManager.updateXmlPort _ _ _) as [xmlWithPort|] eqn:Eupd.
  2: { split; [intros ? ? ? ? ? [= <-]; rewrite Eupd; discriminate|].
       split; [intros []; reflexivity|].
       intros [|e before] r after H;
         [injection H as _ <-; reflexivity|].
       injection H as _ H. destruct before; discriminate. }
  destruct (extractWorkshopIDsAndModifyXML _ _)
    as [[[playlistIDs modIDs] xmlWithIdsRemoved]|] eqn:Eext.
  2: { split; [intros ? ? ? ? ? [= <-]; rewrite Eupd; intros [= <-];
               rewrite Eext; discriminate|].
       split; [intros []; reflexivity|].
       intros [|e before] r after H;
         [injection H as _ <-; reflexivity|].
       injection H as _ H. destruct before; discriminate. }
  pose proof (contentStage_statuses env (StartName data) playlistIDs modIDs
                xmlWithIdsRemoved) as Hst.
  pose proof (contentStage_effects env (StartName data) playlistIDs modIDs
                xmlWithIdsRemoved) as (_ & _ & Hresp).
  assert (Hids : (0 <? length playlistIDs)%nat || (0 <? length modIDs)%nat
                 = match playlistIDs ++ modIDs with
                   | [] => false
                   | _ :: _ => true
                   end).
  { destruct playlistIDs, modIDs; reflexivity. }
  assert (Hall : statuses
                   (let (sent, o) :=
                      contentStage env (StartName data) playlistIDs modIDs
                        xmlWithIdsRemoved in
                    match o with
                    | Some (failedItemIDs, xmlToSave) =>
                        let '(_, done) :=
                          launchStage cfg env (StartName data) p
                            failedItemIDs xmlToSave st in
                        sent ++ done
                    | None => sent
                    end)
                 = match playlistIDs ++ modIDs with
                   | [] => []
                   | _ :: _ =>
                       "workshop_download_start"
                       :: (if snd (envDownload env playlistIDs modIDs)
                           then ["workshop_download_error"] else [])
                       ++ ["workshop_download_complete"]
                   end).
  { rewrite Hids in Hst.
    destruct (contentStage env (StartName data) playlistIDs modIDs
                xmlWithIdsRemoved) as [sent [[failed xml]|]];
      cbn [fst snd] in *.
    - pose proof (launchStage_statuses cfg env (StartName data) p failed xml
                    st) as Hl.
      destruct (launchStage cfg env (StartName data) p failed xml st)
        as [st' done]. cbn [snd] in Hl.
      rewrite statuses_app, Hl, app_nil_r, Hst.
      destruct (playlistIDs ++ modIDs); reflexivity.
    - rewrite Hst. destruct (playlistIDs ++ modIDs); reflexivity. }
  assert (Hsnd : forall (o : option (list string * string)) sent,
            snd (match o with
                 | Some (failedItemIDs, xmlToSave) =>
                     let '(st', done) :=
                       launchStage cfg env (StartName data) p failedItemIDs
                         xmlToSave st in
                     (st', sent ++ done)
                 | None => (st, sent)
                 end)
            = match o with
              | Some (failedItemIDs, xmlToSave) =>
                  let '(_, done) :=
                    launchStage cfg env (StartName data) p failedItemIDs
                      xmlToSave st in
                  sent ++ done
              | None => sent
              end).
  { intros [[failed xml]|] sent; [|reflexivity].
    destruct (launchStage cfg env (StartName data) p failed xml st).
    reflexivity. }
  split; [|split].
  - intros ap xp pl md xr [= <-]. rewrite Eupd. intros [= <-].
    rewrite Eext. intros [= <- <- <-].
    destruct (contentStage env (StartName data) playlistIDs modIDs
                xmlWithIdsRemoved) as [sent o].
    rewrite Hsnd. exact Hall.
  - intros _. exists p, xmlWithPort, (playlistIDs, modIDs, xmlWithIdsRemoved).
    repeat split; try reflexivity; assumption.
  - intros before r after Heq.
    assert (Hsplit : forall (sent done : list Effect),
              responses sent = [] -> statuses done = [] ->
              sent ++ done = before ++ SendResponse r :: after ->
              statuses after = []).
    { clear. intros sent done Hquiet Hdone Heq.
      apply app_eq_app in Heq as [k [[-> Hk]|[-> Hk]]].
      - destruct k as [|e k].
        + cbn [app] in Hk. subst done. exact Hdone.
        + injection Hk as <- ->.
          rewrite responses_app in Hquiet. cbn in Hquiet.
          destruct (responses before); discriminate.
      - subst done. rewrite statuses_app in Hdone.
        apply app_eq_nil in Hdone as [_ Hdone]. exact Hdone. }
    destruct (contentStage env (StartName data) playlistIDs modIDs
                xmlWithIdsRemoved) as [sent [[failed xml]|]] eqn:Ec;
      cbn [fst snd] in *.
    + destruct (launchStage cfg env (StartName data) p failed xml st)
        as [st' done] eqn:El. cbn [snd] in Heq.
      pose proof (launchStage_statuses cfg env (StartName data) p failed xml
                    st) as Hl. rewrite El in Hl. cbn [snd] in Hl.
      exact (Hsplit sent done Hresp Hl Heq).
    + destruct (contentStage_ends env (StartName data) playlistIDs modIDs
                  xmlWithIdsRemoved) as (pre & r0 & Hpre & Hquiet);
        [rewrite Ec; reflexivity|].
      rewrite Ec in Hpre. cbn [fst] in Hpre. rewrite Hpre in Heq.
      exact (Hsplit pre [SendResponse r0] Hquiet eq_refl Heq).
Qed.
